(** * Minerva: the vehicle cost-estimation engine of [tools/services.py]

    A shallow embedding of [_safe_decimal], [_calculate_finance_schedule]
    and [estimate_car_cost], together with the part of Python's [decimal]
    arithmetic these functions rely on (default context: 28 significant
    digits, ROUND_HALF_EVEN, traps on InvalidOperation, DivisionByZero and
    Overflow). *)

From Stdlib Require Import ZArith NArith Bool Lia String Ascii List Reals Lra.
From stdpp Require Import base option gmap strings list.

Local Open Scope Z_scope.

(** ** Exceptions and the error monad *)

Inductive exn : Type :=
  | InvalidOperation
  | DivisionByZero
  | Overflow
  | KeyError
  | TypeError
  | ValueError.

Inductive result (A : Type) : Type :=
  | Ok (a : A)
  | Raise (e : exn).

Arguments Ok {A} a.
Arguments Raise {A} e.

#[global] Instance result_ret : MRet result := fun A a => Ok a.
#[global] Instance result_bind : MBind result := fun A B f m =>
  match m with
  | Ok a => f a
  | Raise e => Raise e
  end.

Definition returns {A} (m : result A) : Prop := exists a, m = Ok a.

(** ** Finite decimal numbers

    [Decimal s c e] stands for (-1)^s * c * 10^e, as the triple
    (sign, coefficient, exponent) of Python's [Decimal.as_tuple].
    Infinities and NaNs are outside the model. *)

Record Decimal : Type := mkDecimal {
  dsign : bool;
  dint : N;
  dexp : Z
}.

#[global] Instance Decimal_eq_dec : EqDecision Decimal.
Proof. solve_decision. Defined.

Module Dec.

(** The default context. *)
Definition prec : Z := 28.
Definition Emax : Z := 999999.
Definition Emin : Z := -999999.
Definition Etiny : Z := Emin - prec + 1.
Definition Etop : Z := Emax - prec + 1.

Inductive rounding : Type := ROUND_HALF_UP | ROUND_HALF_EVEN.

Definition pow10 (k : Z) : N := (10 ^ Z.to_N k)%N.

(** Number of decimal digits of a coefficient, [len(self._int)]; the
    coefficient zero is written with one digit. *)
Fixpoint ndigits_go (fuel : nat) (c : N) : Z :=
  match fuel with
  | O => 1
  | S f => if (c <? 10)%N then 1 else 1 + ndigits_go f (c / 10)%N
  end.

Definition ndigits (c : N) : Z := ndigits_go (N.to_nat (N.log2 c)) c.

Definition is_zero (d : Decimal) : bool := (dint d =? 0)%N.

(** [bool(d)]: a Decimal is truthy when it is non-zero. *)
Definition truthy (d : Decimal) : bool := negb (is_zero d).

(** [d.adjusted()]: the exponent of the leading digit. *)
Definition adjusted (d : Decimal) : Z := dexp d + ndigits (dint d) - 1.

(** [c / 10^k] with the last [k] digits rounded away. *)
Definition round_div (r : rounding) (c : N) (k : Z) : N :=
  let p := pow10 k in
  let q := (c / p)%N in
  let rem := (c mod p)%N in
  match r with
  | ROUND_HALF_UP => if (p <=? 2 * rem)%N then (q + 1)%N else q
  | ROUND_HALF_EVEN =>
      if (p <? 2 * rem)%N then (q + 1)%N
      else if (p =? 2 * rem)%N && N.odd q then (q + 1)%N
      else q
  end.

(** [Decimal._rescale]: bring [d] to exponent [e], padding with zeros or
    rounding digits away; quiet, no context involved. *)
Definition rescale (r : rounding) (d : Decimal) (e : Z) : Decimal :=
  if is_zero d then mkDecimal (dsign d) 0 e
  else if e <=? dexp d then mkDecimal (dsign d) (dint d * pow10 (dexp d - e)) e
  else mkDecimal (dsign d) (round_div r (dint d) (e - dexp d)) e.

(** [Decimal._fix]: round to the precision [p] of the context (rounding
    ROUND_HALF_EVEN, clamp 0) and keep the exponent within its limits.
    Only Overflow is trapped; underflow to a subnormal is silent. *)
Definition fix_prec (p : Z) (d : Decimal) : result Decimal :=
  let etiny := Emin - p + 1 in
  let etop := Emax - p + 1 in
  if is_zero d then
    Ok (mkDecimal (dsign d) 0 (Z.min (Z.max (dexp d) etiny) Emax))
  else
    let exp_min := ndigits (dint d) + dexp d - p in
    if etop <? exp_min then Raise Overflow
    else
      let exp_min := Z.max exp_min etiny in
      if dexp d <? exp_min then
        let coeff := round_div ROUND_HALF_EVEN (dint d) (exp_min - dexp d) in
        let '(coeff, exp_min) :=
          if p <? ndigits coeff then ((coeff / 10)%N, exp_min + 1)
          else (coeff, exp_min) in
        if etop <? exp_min then Raise Overflow
        else Ok (mkDecimal (dsign d) coeff exp_min)
      else Ok d.

Definition fix_ (d : Decimal) : result Decimal := fix_prec prec d.

(** The signed coefficient. *)
Definition signed (s : bool) (c : N) : Z :=
  if s then - Z.of_N c else Z.of_N c.

(** Both coefficients brought to the exponent [e], below both. *)
Definition aligned (d : Decimal) (e : Z) : Z :=
  signed (dsign d) (dint d * pow10 (dexp d - e)).

(** The exact sum at the smaller exponent. A zero sum of two zeros is
    negative only when both are; a zero sum of opposite numbers is
    positive. *)
Definition exact_add (a b : Decimal) : Decimal :=
  let e := Z.min (dexp a) (dexp b) in
  let s := aligned a e + aligned b e in
  let sign :=
    if s =? 0 then is_zero a && is_zero b && dsign a && dsign b
    else s <? 0 in
  mkDecimal sign (Z.abs_N s) e.

(** [Decimal.__add__] at precision [p]: the exact sum, then [_fix]. *)
Definition add_prec (p : Z) (a b : Decimal) : result Decimal :=
  fix_prec p (exact_add a b).

Definition add (a b : Decimal) : result Decimal := add_prec prec a b.

Definition copy_negate (d : Decimal) : Decimal :=
  mkDecimal (negb (dsign d)) (dint d) (dexp d).

(** [Decimal.__sub__] is [self + other.copy_negate()]. *)
Definition sub (a b : Decimal) : result Decimal := add a (copy_negate b).

Definition exact_mul (a b : Decimal) : Decimal :=
  mkDecimal (xorb (dsign a) (dsign b)) (dint a * dint b) (dexp a + dexp b).

(** [Decimal.__mul__] at precision [p]: the exact product, then [_fix]. *)
Definition mul_prec (p : Z) (a b : Decimal) : result Decimal :=
  fix_prec p (exact_mul a b).

Definition mul (a b : Decimal) : result Decimal := mul_prec prec a b.

(** Strip trailing zeros of an exact quotient while the exponent is
    below the ideal one. *)
Fixpoint strip_zeros (fuel : nat) (c : N) (e ideal : Z) : N * Z :=
  match fuel with
  | O => (c, e)
  | S f =>
      if (e <? ideal) && (c mod 10 =? 0)%N
      then strip_zeros f (c / 10)%N (e + 1) ideal
      else (c, e)
  end.

(** The quotient of two non-zero numbers before [_fix]: [prec + 1] or
    more digits of it, the last one made odd-looking (not 0 or 5) when
    digits were cut, so that the rounding sees an inexact result; an exact
    quotient is brought as close to the ideal exponent as it goes. *)
Definition quotient (a b : Decimal) : Decimal :=
  let shift := ndigits (dint b) - ndigits (dint a) + prec + 1 in
  let e := dexp a - dexp b - shift in
  let '(n, m) :=
    if 0 <=? shift then ((dint a * pow10 shift)%N, dint b)
    else (dint a, (dint b * pow10 (- shift))%N) in
  let q := (n / m)%N in
  let '(coeff, e) :=
    if (n mod m =? 0)%N
    then strip_zeros (Z.to_nat (ndigits q)) q e (dexp a - dexp b)
    else (if (q mod 5 =? 0)%N then (q + 1)%N else q, e) in
  mkDecimal (xorb (dsign a) (dsign b)) coeff e.

(** [Decimal.__truediv__]. *)
Definition div (a b : Decimal) : result Decimal :=
  if is_zero b then
    if is_zero a then Raise InvalidOperation else Raise DivisionByZero
  else if is_zero a then
    fix_ (mkDecimal (xorb (dsign a) (dsign b)) 0 (dexp a - dexp b))
  else fix_ (quotient a b).

(** [Decimal._cmp]: numeric comparison. *)
Definition cmp (a b : Decimal) : comparison :=
  let e := Z.min (dexp a) (dexp b) in
  aligned a e ?= aligned b e.

Definition eqb (a b : Decimal) : bool :=
  match cmp a b with Eq => true | _ => false end.
Definition ltb (a b : Decimal) : bool :=
  match cmp a b with Lt => true | _ => false end.
Definition leb (a b : Decimal) : bool :=
  match cmp a b with Gt => false | _ => true end.

(** [Decimal.quantize(Decimal(10) ** e, rounding)]. *)
Definition quantize (r : rounding) (d : Decimal) (e : Z) : result Decimal :=
  if negb ((Etiny <=? e) && (e <=? Emax)) then Raise InvalidOperation
  else if is_zero d then fix_ (mkDecimal (dsign d) 0 e)
  else if Emax <? adjusted d then Raise InvalidOperation
  else if prec <? adjusted d - e + 1 then Raise InvalidOperation
  else
    let ans := rescale r d e in
    if Emax <? adjusted ans then Raise InvalidOperation
    else if prec <? ndigits (dint ans) then Raise InvalidOperation
    else fix_ ans.

(** [Decimal(n)] for a Python int. *)
Definition of_Z (n : Z) : Decimal := mkDecimal (n <? 0) (Z.abs_N n) 0.

End Dec.

Module DecPow.
Import Dec.

(** Left-to-right binary powering, every product rounded to [p] digits
    (libmpdec's [_mpd_qpow_uint]). *)
Fixpoint pow_uint (p : Z) (base : Decimal) (n : positive) : result Decimal :=
  match n with
  | xH => Ok base
  | xO q => r ← pow_uint p base q; mul_prec p r r
  | xI q => r ← pow_uint p base q; r2 ← mul_prec p r r; mul_prec p r2 base
  end.

(** [Decimal.__pow__] with a positive int exponent, as libmpdec's
    [mpd_qpow] computes it: a power of one keeps its trailing zeros (at
    most [prec - 1] of them), any other base is powered at a working
    precision of [prec + digits(n) + 2] and rounded once at the end. The
    early over- and underflow test of libmpdec, which only anticipates the
    outcome of the products, is left out. *)
Definition pow (base : Decimal) (n : positive) : result Decimal :=
  let sign := dsign base && N.odd (Npos n) in
  if is_zero base then Ok (mkDecimal sign 0 0)
  else if cmp (mkDecimal false (dint base) (dexp base)) (of_Z 1) is Eq then
    let shift := Z.min (Z.pos n * - dexp base) (prec - 1) in
    Ok (mkDecimal sign (pow10 shift) (- shift))
  else
    r ← pow_uint (prec + ndigits (Npos n) + 2) base n;
    fix_ (mkDecimal sign (dint r) (dexp r)).

End DecPow.

(** ** Python values of the input mapping

    The cleaned form data hold [None], strings, ints and Decimals; binary
    floats are not modelled (no caller of the engine passes one). *)

Inductive PyValue : Type :=
  | VNone
  | VStr (s : string)
  | VInt (n : Z)
  | VDec (d : Decimal).

#[global] Instance PyValue_eq_dec : EqDecision PyValue.
Proof. solve_decision. Defined.

Module Literal.

(** Reading a numeric string, [Decimal(s)]: surrounding whitespace is
    dropped, underscores are removed, then an optional sign, digits with an
    optional fraction (at least one digit in all) and an optional exponent.
    The literals of infinities and NaNs are outside the model and are
    rejected like any other malformed string. *)

Definition is_space (a : ascii) : bool :=
  let n := nat_of_ascii a in
  (n =? 32)%nat || ((9 <=? n)%nat && (n <=? 13)%nat).

Definition digit_of (a : ascii) : option N :=
  let n := N_of_ascii a in
  if ((48 <=? n) && (n <=? 57))%N then Some (n - 48)%N else None.

Definition is_digit (a : ascii) : bool :=
  match digit_of a with Some _ => true | None => false end.

Fixpoint drop_spaces (l : list ascii) : list ascii :=
  match l with
  | a :: l' => if is_space a then drop_spaces l' else l
  | [] => []
  end.

Definition strip (l : list ascii) : list ascii :=
  rev (drop_spaces (rev (drop_spaces l))).

Definition no_underscores (l : list ascii) : list ascii :=
  List.filter (fun a => negb (Ascii.eqb a "_")) l.

(** The longest prefix of digits, and what follows it. *)
Fixpoint span_digits (l : list ascii) : list ascii * list ascii :=
  match l with
  | a :: l' =>
      if is_digit a then let '(ds, rest) := span_digits l' in (a :: ds, rest)
      else ([], l)
  | [] => ([], [])
  end.

(** [int(digits)], read from the left. *)
Definition digits_value (ds : list ascii) : N :=
  fold_left (fun acc a => (10 * acc + default 0 (digit_of a))%N) ds 0%N.

Definition read_sign (l : list ascii) : bool * list ascii :=
  match l with
  | "-"%char :: l' => (true, l')
  | "+"%char :: l' => (false, l')
  | _ => (false, l)
  end.

Definition read_exponent (l : list ascii) : option Z :=
  match l with
  | [] => Some 0
  | a :: l' =>
      if Ascii.eqb a "e" || Ascii.eqb a "E" then
        let '(s, l'') := read_sign l' in
        let '(ds, rest) := span_digits l'' in
        match ds, rest with
        | _ :: _, [] => Some (Dec.signed s (digits_value ds))
        | _, _ => None
        end
      else None
  end.

Definition read_decimal (l : list ascii) : option Decimal :=
  let '(s, l1) := read_sign (no_underscores (strip l)) in
  let '(ip, l2) := span_digits l1 in
  let '(fp, l3) :=
    match l2 with
    | "."%char :: l2' => span_digits l2'
    | _ => ([], l2)
    end in
  match ip ++ fp with
  | [] => None
  | ds =>
      e ← read_exponent l3;
      Some (mkDecimal s (digits_value ds) (e - Z.of_nat (length fp)))
  end.

Definition decimal_of_string (s : string) : result Decimal :=
  match read_decimal (list_ascii_of_string s) with
  | Some d => Ok d
  | None => Raise InvalidOperation
  end.

(** Reading an int literal, [int(s)]: whitespace dropped, an optional
    sign, digits with single underscores between them. *)
Fixpoint read_int_digits (acc : N) (l : list ascii) : option N :=
  match l with
  | [] => Some acc
  | a :: l' =>
      match digit_of a with
      | Some d => read_int_digits (10 * acc + d)%N l'
      | None =>
          if Ascii.eqb a "_" then
            match l' with
            | b :: _ => if is_digit b then read_int_digits acc l' else None
            | [] => None
            end
          else None
      end
  end.

Definition int_of_string (s : string) : result Z :=
  let '(sg, l) := read_sign (strip (list_ascii_of_string s)) in
  match l with
  | a :: _ =>
      if is_digit a then
        match read_int_digits 0 l with
        | Some n => Ok (Dec.signed sg n)
        | None => Raise ValueError
        end
      else Raise ValueError
  | [] => Raise ValueError
  end.

End Literal.

Module Py.

(** [Decimal("...")] constants of the source. *)
Definition D0 : Decimal := mkDecimal false 0 0.        (* Decimal("0") *)
Definition D0_00 : Decimal := mkDecimal false 0 (-2).  (* Decimal("0.00") *)
Definition D0_01 : Decimal := mkDecimal false 1 (-2).  (* Decimal("0.01") *)
Definition D1 : Decimal := mkDecimal false 1 0.        (* Decimal(1) *)
Definition D12 : Decimal := mkDecimal false 12 0.      (* Decimal("12") *)
Definition D100 : Decimal := mkDecimal false 100 0.    (* Decimal("100") *)

(** [Decimal(str(v))]: [str] renders an int and a Decimal without loss,
    so only a string that is not a numeral (or [None], rendered as the
    word None) makes the constructor raise. *)
Definition decimal_of_str (v : PyValue) : result Decimal :=
  match v with
  | VNone => Raise InvalidOperation
  | VStr s => Literal.decimal_of_string s
  | VInt n => Ok (Dec.of_Z n)
  | VDec d => Ok d
  end.

(** [int(v)]: a Decimal is truncated towards zero. *)
Definition int_of (v : PyValue) : result Z :=
  match v with
  | VNone => Raise TypeError
  | VStr s => Literal.int_of_string s
  | VInt n => Ok n
  | VDec d =>
      Ok (Dec.signed (dsign d)
            (if 0 <=? dexp d then (dint d * Dec.pow10 (dexp d))%N
             else (dint d / Dec.pow10 (- dexp d))%N))
  end.

(** [value in (None, "", 0)]: membership by [==]. *)
Definition empty_like (v : PyValue) : bool :=
  match v with
  | VNone => true
  | VStr s => if decide (s = EmptyString) then true else false
  | VInt n => n =? 0
  | VDec d => Dec.is_zero d
  end.

(** [max(a, b)] of the builtins: the first argument unless the second is
    strictly greater. *)
Definition max (a b : Decimal) : Decimal := if Dec.ltb a b then b else a.

(** [d.quantize(q, rounding=r)]. *)
Definition quantize (d q : Decimal) (r : Dec.rounding) : result Decimal :=
  Dec.quantize r d (dexp q).

(** [data.get(key)] and [data[key]]. *)
Definition get (data : gmap string PyValue) (key : string) : PyValue :=
  default VNone (data !! key).

Definition item (data : gmap string PyValue) (key : string) : result PyValue :=
  match data !! key with
  | Some v => Ok v
  | None => Raise KeyError
  end.

End Py.

(** ** The engine of [tools/services.py] *)

Module Services.
Import Dec.

Definition _safe_decimal (value : PyValue) : result Decimal :=
  if Py.empty_like value then Ok Py.D0
  else match value with
       | VDec d => Ok d
       | _ => Py.decimal_of_str value
       end.

Record Schedule : Type := mkSchedule {
  monthly_payment : Decimal;
  total_paid : Decimal
}.

Definition _calculate_finance_schedule
    (principal interest_rate_percent : Decimal) (term_months : Z)
    : result Schedule :=
  principal ← Py.quantize principal Py.D0_01 ROUND_HALF_EVEN;
  if (term_months <=? 0) || leb principal (of_Z 0) then
    Ok (mkSchedule Py.D0 Py.D0)
  else
    r ← div interest_rate_percent Py.D100;
    monthly_rate ← div r Py.D12;
    monthly_payment ←
      (if eqb monthly_rate (of_Z 0) then div principal (of_Z term_months)
       else
         b ← add Py.D1 monthly_rate;
         factor ← DecPow.pow b (Z.to_pos term_months);
         rf ← mul monthly_rate factor;
         num ← mul principal rf;
         den ← sub factor Py.D1;
         div num den);
    total_paid ← mul monthly_payment (of_Z term_months);
    mp ← Py.quantize monthly_payment Py.D0_01 ROUND_HALF_UP;
    tp ← Py.quantize total_paid Py.D0_01 ROUND_HALF_UP;
    Ok (mkSchedule mp tp).

(** The locals of the tax step (lines 157-163). *)
Record Tax : Type := mkTax {
  tax_rate : Decimal;
  taxable_base : Decimal;
  tax_amount : Decimal
}.

Definition tax_step (data : gmap string PyValue) : result Tax :=
  purchase_price ← _safe_decimal (Py.get data "car_purchase_price");
  incentives ← _safe_decimal (Py.get data "incentives_rebates");
  tax_rate_percent ← _safe_decimal (Py.get data "local_tax_rate");
  tax_rate ← div tax_rate_percent Py.D100;
  net ← sub purchase_price incentives;
  let taxable_base := Py.max net Py.D0 in
  gross ← mul taxable_base tax_rate;
  tax_amount ← Py.quantize gross Py.D0_01 ROUND_HALF_UP;
  Ok (mkTax tax_rate taxable_base tax_amount).

(** The acquisition total and its sub-breakdown (lines 165-203); the
    dict is kept in insertion order. *)
Record Acquisition : Type := mkAcquisition {
  acquisition_total : Decimal;
  acquisition_breakdown : list (string * Decimal)
}.

Definition acquire_cash (t : Tax) : result Acquisition :=
  acquisition_total ← add (taxable_base t) (tax_amount t);
  Ok (mkAcquisition acquisition_total
        [("Upfront payment"%string, acquisition_total)]).

Definition acquire_finance (data : gmap string PyValue) (t : Tax)
    : result Acquisition :=
  down_payment ← _safe_decimal (Py.get data "finance_down_payment");
  net ← sub (taxable_base t) down_payment;
  let principal := Py.max net Py.D0 in
  financed ← add principal (tax_amount t);
  rate ← _safe_decimal (Py.get data "finance_interest_rate");
  term ← Py.int_of (Py.get data "finance_term_months");
  schedule ← _calculate_finance_schedule financed rate term;
  acquisition_total ← add (total_paid schedule) down_payment;
  Ok (mkAcquisition acquisition_total
        [("Down payment"%string, down_payment);
         ("Financed total"%string, total_paid schedule);
         ("Taxes"%string, tax_amount t)]).

(** The locals of the lease branch up to its total (lines 188-193). *)
Record Lease : Type := mkLease {
  lease_term : Z;
  lease_payment : Decimal;
  drive_off : Decimal;
  lease_total : Decimal;
  tax_on_lease : Decimal
}.

Definition lease_terms (data : gmap string PyValue) (t : Tax) : result Lease :=
  lease_term ← Py.int_of (Py.get data "lease_term_months");
  lease_payment ← _safe_decimal (Py.get data "lease_monthly_payment");
  drive_off ← _safe_decimal (Py.get data "lease_drive_off_cost");
  payments ← mul lease_payment (of_Z lease_term);
  lease_total ← add payments drive_off;
  gross ← mul lease_total (tax_rate t);
  tax_on_lease ← Py.quantize gross Py.D0_01 ROUND_HALF_UP;
  Ok (mkLease lease_term lease_payment drive_off lease_total tax_on_lease).

Definition acquire_lease (data : gmap string PyValue) (t : Tax)
    : result Acquisition :=
  l ← lease_terms data t;
  acquisition_total ← add (lease_total l) (tax_on_lease l);
  payments ← mul (lease_payment l) (of_Z (lease_term l));
  Ok (mkAcquisition acquisition_total
        [("Lease payments"%string, payments);
         ("Drive-off"%string, drive_off l);
         ("Lease taxes"%string, tax_on_lease l)]).

Definition acquisition_step (data : gmap string PyValue) (t : Tax)
    : result Acquisition :=
  let purchase_type := Py.get data "purchase_type" in
  if decide (purchase_type = VStr "cash") then acquire_cash t
  else if decide (purchase_type = VStr "finance") then acquire_finance data t
  else if decide (purchase_type = VStr "lease") then acquire_lease data t
  else acquire_cash t.

(** One energy channel (lines 214-218 and 220-224). *)
Definition annual_energy_cost (annual_mileage consumption price : Decimal)
    : result Decimal :=
  if truthy consumption && truthy price then
    per100 ← div annual_mileage Py.D100;
    units_per_year ← mul per100 consumption;
    cost ← mul units_per_year price;
    Py.quantize cost Py.D0_01 ROUND_HALF_UP
  else Ok Py.D0.

Record Energy : Type := mkEnergy {
  fuel_cost : Decimal;
  electric_cost : Decimal
}.

Definition energy_step (data : gmap string PyValue) : result Energy :=
  annual_mileage ← Py.decimal_of_str (default (VInt 0) (data !! "annual_mileage"));
  fuel_consumption ← _safe_decimal (Py.get data "fuel_consumption_per_100km");
  electricity_consumption ←
    _safe_decimal (Py.get data "electricity_consumption_per_100km");
  gas_price ← _safe_decimal (Py.get data "gas_price_per_liter");
  electricity_price ← _safe_decimal (Py.get data "electricity_price_per_kwh");
  annual_fuel_cost ← annual_energy_cost annual_mileage fuel_consumption gas_price;
  annual_electric_cost ←
    annual_energy_cost annual_mileage electricity_consumption electricity_price;
  Ok (mkEnergy annual_fuel_cost annual_electric_cost).

Record Estimate : Type := mkEstimate {
  total_cost : Decimal;
  monthly_cost : Decimal;
  annual_recurring_total : Decimal;
  breakdown : list (string * Decimal);
  annual_fuel_cost : Decimal;
  annual_electric_cost : Decimal;
  acquisition_detail : list (string * Decimal)
}.

(** A recurring category over the horizon, rounded (lines 250-254). *)
Definition over_horizon (annual ownership_years : Decimal) : result Decimal :=
  total ← mul annual ownership_years;
  Py.quantize total Py.D0_01 ROUND_HALF_UP.

(** The locals of the whole run, in the order the source binds them. *)
Record Locals : Type := mkLocals {
  l_ownership_years : Decimal;
  l_tax : Tax;
  l_acquisition : Acquisition;
  l_energy : Energy;
  l_insurance : Decimal;
  l_maintenance : Decimal;
  l_registration : Decimal;
  l_parking : Decimal;
  l_other : Decimal;
  l_annual_recurring_total : Decimal;
  l_recurring_total : Decimal;
  l_charging_installation : Decimal;
  l_residual_value : Decimal;
  l_total_cost : Decimal;
  l_monthly_cost : Decimal
}.

Definition estimate_locals (data : gmap string PyValue) : result Locals :=
  years ← Py.item data "ownership_period_years";
  ownership_years ← Py.decimal_of_str years;
  t ← tax_step data;
  acq ← acquisition_step data t;
  en ← energy_step data;
  insurance ← _safe_decimal (Py.get data "insurance_cost_annual");
  maintenance ← _safe_decimal (Py.get data "maintenance_cost_annual");
  registration ← _safe_decimal (Py.get data "registration_fees_annual");
  parking ← _safe_decimal (Py.get data "parking_cost_annual");
  other ← _safe_decimal (Py.get data "other_recurring_costs");
  s1 ← add (fuel_cost en) (electric_cost en);
  s2 ← add s1 insurance;
  s3 ← add s2 maintenance;
  s4 ← add s3 registration;
  s5 ← add s4 parking;
  annual_recurring_total ← add s5 other;
  recurring_total ← over_horizon annual_recurring_total ownership_years;
  charging_installation ← _safe_decimal (Py.get data "charging_installation_cost");
  residual_value ← _safe_decimal (Py.get data "residual_value");
  t1 ← add (acquisition_total acq) recurring_total;
  t2 ← add t1 charging_installation;
  t3 ← sub t2 residual_value;
  total_cost ← Py.quantize t3 Py.D0_01 ROUND_HALF_UP;
  monthly_cost ←
    (if truthy ownership_years then
       months ← mul ownership_years Py.D12;
       per_month ← div total_cost months;
       Py.quantize per_month Py.D0_01 ROUND_HALF_UP
     else Ok Py.D0_00);
  Ok (mkLocals ownership_years t acq en insurance maintenance registration
        parking other annual_recurring_total recurring_total
        charging_installation residual_value total_cost monthly_cost).

(** The breakdown dict (lines 247-259), in insertion order. *)
Definition breakdown_of (l : Locals) : result (list (string * Decimal)) :=
  acquisition ← Py.quantize (acquisition_total (l_acquisition l)) Py.D0_01 ROUND_HALF_UP;
  e ← add (fuel_cost (l_energy l)) (electric_cost (l_energy l));
  energy ← Py.quantize e Py.D0_01 ROUND_HALF_UP;
  insurance ← over_horizon (l_insurance l) (l_ownership_years l);
  maintenance ← over_horizon (l_maintenance l) (l_ownership_years l);
  registration ← over_horizon (l_registration l) (l_ownership_years l);
  parking ← over_horizon (l_parking l) (l_ownership_years l);
  other ← over_horizon (l_other l) (l_ownership_years l);
  charging ← Py.quantize (l_charging_installation l) Py.D0_01 ROUND_HALF_UP;
  residual ← Py.quantize (l_residual_value l) Py.D0_01 ROUND_HALF_UP;
  Ok [("Acquisition"%string, acquisition);
      ("Energy"%string, energy);
      ("Insurance"%string, insurance);
      ("Maintenance"%string, maintenance);
      ("Registration"%string, registration);
      ("Parking"%string, parking);
      ("Other recurring"%string, other);
      ("Charging infrastructure"%string, charging);
      ("Residual credit"%string, residual)].

Definition estimate_car_cost (data : gmap string PyValue) : result Estimate :=
  l ← estimate_locals data;
  breakdown ← breakdown_of l;
  annual ← Py.quantize (l_annual_recurring_total l) Py.D0_01 ROUND_HALF_UP;
  Ok (mkEstimate (l_total_cost l) (l_monthly_cost l) annual breakdown
        (fuel_cost (l_energy l)) (electric_cost (l_energy l))
        (acquisition_breakdown (l_acquisition l))).

(** Lookup in a result dict. *)
Fixpoint entry (key : string) (d : list (string * Decimal)) : option Decimal :=
  match d with
  | [] => None
  | (k, v) :: d' => if decide (k = key) then Some v else entry key d'
  end.

End Services.

(** ** The validation of [tools/forms.py]

    What [CarCostEstimationForm] lets through: the cleaned data hold a
    Decimal (or [None] when the field is optional and left empty) for a
    [DecimalField], an int for an [IntegerField], a string for the others. *)

Module Forms.

(** Django's [DecimalValidator(max_digits, decimal_places)]. *)
Definition decimal_validator (max_digits decimal_places : Z) (d : Decimal) : bool :=
  let len := Dec.ndigits (dint d) in
  let '(digits, decimals) :=
    if 0 <=? dexp d then ((if Dec.is_zero d then len else len + dexp d), 0)
    else if len <? - dexp d then (- dexp d, - dexp d)
    else (len, - dexp d) in
  (digits <=? max_digits) && (decimals <=? decimal_places)
  && (digits - decimals <=? max_digits - decimal_places).

(** [forms.DecimalField(min_value=0, max_digits=.., decimal_places=..)]. *)
Definition DecimalField (max_digits decimal_places : Z) (required : bool)
    (v : PyValue) : bool :=
  match v with
  | VDec d =>
      negb (Dec.ltb d (Dec.of_Z 0)) && decimal_validator max_digits decimal_places d
  | VNone => negb required
  | _ => false
  end.

(** [forms.IntegerField(min_value=..)]. *)
Definition IntegerField (min_value : Z) (required : bool) (v : PyValue) : bool :=
  match v with
  | VInt n => min_value <=? n
  | VNone => negb required
  | _ => false
  end.

(** [forms.ChoiceField(choices=..)], always required here. *)
Definition ChoiceField (choices : list string) (v : PyValue) : bool :=
  match v with
  | VStr s => bool_decide (s ∈ choices)
  | _ => false
  end.

(** [forms.CharField(max_length=..)]; an optional field left empty is
    cleaned to the empty string. *)
Definition CharField (max_length : option nat) (required : bool)
    (v : PyValue) : bool :=
  match v with
  | VStr s =>
      (if required then negb (String.length s =? 0)%nat else true)
      && match max_length with
         | Some n => (String.length s <=? n)%nat
         | None => true
         end
  | _ => false
  end.

Definition OWNERSHIP_CHOICES : list string :=
  ["cash"; "finance"; "lease"]%string.
Definition FUEL_CHOICES : list string :=
  ["gasoline"; "diesel"; "electric"; "hybrid"]%string.

(** The declared fields, each checked on [data]. *)
Definition fields_ok (data : gmap string PyValue) : bool :=
  let f := Py.get data in
  CharField (Some 3%nat) true (f "country_code")
  && CharField None false (f "region")
  && CharField (Some 3%nat) true (f "currency_code")
  && IntegerField 1 true (f "ownership_period_years")
  && DecimalField 12 2 true (f "car_purchase_price")
  && ChoiceField OWNERSHIP_CHOICES (f "purchase_type")
  && DecimalField 12 2 false (f "incentives_rebates")
  && DecimalField 6 3 true (f "local_tax_rate")
  && DecimalField 10 2 false (f "registration_fees_annual")
  && DecimalField 10 2 true (f "insurance_cost_annual")
  && DecimalField 10 2 true (f "maintenance_cost_annual")
  && DecimalField 10 2 false (f "parking_cost_annual")
  && DecimalField 10 2 false (f "other_recurring_costs")
  && IntegerField 0 true (f "annual_mileage")
  && ChoiceField FUEL_CHOICES (f "fuel_type")
  && DecimalField 7 2 false (f "fuel_consumption_per_100km")
  && DecimalField 7 2 false (f "electricity_consumption_per_100km")
  && DecimalField 7 3 false (f "gas_price_per_liter")
  && DecimalField 7 4 false (f "electricity_price_per_kwh")
  && DecimalField 12 2 false (f "finance_down_payment")
  && DecimalField 6 3 false (f "finance_interest_rate")
  && IntegerField 1 false (f "finance_term_months")
  && IntegerField 1 false (f "lease_term_months")
  && DecimalField 10 2 false (f "lease_monthly_payment")
  && DecimalField 10 2 false (f "lease_drive_off_cost")
  && DecimalField 12 2 false (f "residual_value")
  && DecimalField 10 2 false (f "charging_installation_cost").

(** [not cleaned.get(field)]: [None], the empty string and zero are falsy. *)
Definition present (data : gmap string PyValue) (field : string) : bool :=
  negb (Py.empty_like (Py.get data field)).

(** [CarCostEstimationForm.clean]: the conditional requirements. *)
Definition clean_ok (data : gmap string PyValue) : bool :=
  let purchase_type := Py.get data "purchase_type" in
  let fuel_type := Py.get data "fuel_type" in
  (if decide (purchase_type = VStr "finance") then
     present data "finance_interest_rate" && present data "finance_term_months"
   else if decide (purchase_type = VStr "lease") then
     present data "lease_term_months" && present data "lease_monthly_payment"
   else true)
  && (if ChoiceField ["gasoline"; "diesel"; "hybrid"]%string fuel_type
      then present data "fuel_consumption_per_100km" else true)
  && (if ChoiceField ["electric"; "hybrid"]%string fuel_type
      then present data "electricity_consumption_per_100km" else true).

Definition is_valid (data : gmap string PyValue) : bool :=
  fields_ok data && clean_ok data.

End Forms.

(** ** The range of the development

    Not part of the form: [IntegerField] has a minimum and no maximum,
    and the 28 digits of the decimal context are not enough for every
    int. These are the limits under which the arithmetic of the engine is
    shown to stay within the context: a horizon of at most 10^6 years, at
    most 10^9 km a year and terms of at most 10^4 months. *)

Module Limits.

Definition at_most (n : Z) (v : PyValue) : bool :=
  match v with
  | VInt k => k <=? n
  | _ => true
  end.

Definition within_limits (data : gmap string PyValue) : bool :=
  at_most (10 ^ 6) (Py.get data "ownership_period_years")
  && at_most (10 ^ 9) (Py.get data "annual_mileage")
  && at_most (10 ^ 4) (Py.get data "finance_term_months")
  && at_most (10 ^ 4) (Py.get data "lease_term_months").

End Limits.

(** ** Sample inputs *)

Module Examples.

(** The Decimal with coefficient [c] and exponent [e]: [dec 83333 (-2)]
    is [Decimal("833.33")]. *)
Definition dec (c e : Z) : Decimal := mkDecimal (c <? 0) (Z.abs_N c) e.

(** A cleaned form: a cash purchase at 20000.00 with 10 % tax, one year
    of ownership and no recurring cost. *)
Definition cash_form : gmap string PyValue :=
  list_to_map
    [("country_code", VStr "US"); ("region", VStr ""); ("currency_code", VStr "USD");
     ("ownership_period_years", VInt 1);
     ("car_purchase_price", VDec (dec 2000000 (-2)));
     ("purchase_type", VStr "cash");
     ("incentives_rebates", VDec (dec 0 0));
     ("local_tax_rate", VDec (dec 10 0));
     ("registration_fees_annual", VNone);
     ("insurance_cost_annual", VDec (dec 0 0));
     ("maintenance_cost_annual", VDec (dec 0 0));
     ("parking_cost_annual", VNone);
     ("other_recurring_costs", VNone);
     ("annual_mileage", VInt 12000);
     ("fuel_type", VStr "gasoline");
     ("fuel_consumption_per_100km", VDec (dec 650 (-2)));
     ("electricity_consumption_per_100km", VNone);
     ("gas_price_per_liter", VNone);
     ("electricity_price_per_kwh", VNone);
     ("finance_down_payment", VNone);
     ("finance_interest_rate", VNone);
     ("finance_term_months", VNone);
     ("lease_term_months", VNone);
     ("lease_monthly_payment", VNone);
     ("lease_drive_off_cost", VNone);
     ("residual_value", VNone);
     ("charging_installation_cost", VNone)]%string.

(** The same purchase financed at 4.5 % over 48 months with 2000.00 down. *)
Definition finance_form : gmap string PyValue :=
  <["purchase_type"%string := VStr "finance"]>
  (<["finance_down_payment"%string := VDec (dec 200000 (-2))]>
  (<["finance_interest_rate"%string := VDec (dec 4500 (-3))]>
  (<["finance_term_months"%string := VInt 48]> cash_form))).

(** A lease: 300 a month for 36 months, 1000 drive-off, no tax. *)
Definition lease_form : gmap string PyValue :=
  <["purchase_type"%string := VStr "lease"]>
  (<["local_tax_rate"%string := VDec (dec 0 0)]>
  (<["lease_term_months"%string := VInt 36]>
  (<["lease_monthly_payment"%string := VDec (dec 300 0)]>
  (<["lease_drive_off_cost"%string := VDec (dec 1000 0)]> cash_form)))).

(** Five years of ownership with every recurring cost and both energy
    channels in use. *)
Definition running_form : gmap string PyValue :=
  <["ownership_period_years"%string := VInt 5]>
  (<["fuel_type"%string := VStr "hybrid"]>
  (<["electricity_consumption_per_100km"%string := VDec (dec 1520 (-2))]>
  (<["gas_price_per_liter"%string := VDec (dec 1899 (-3))]>
  (<["electricity_price_per_kwh"%string := VDec (dec 3125 (-4))]>
  (<["insurance_cost_annual"%string := VDec (dec 120050 (-2))]>
  (<["maintenance_cost_annual"%string := VDec (dec 80000 (-2))]>
  (<["registration_fees_annual"%string := VDec (dec 15075 (-2))]>
  (<["parking_cost_annual"%string := VDec (dec 60000 (-2))]>
  (<["other_recurring_costs"%string := VDec (dec 9999 (-2))]>
  (<["charging_installation_cost"%string := VDec (dec 125000 (-2))]>
  (<["residual_value"%string := VDec (dec 800000 (-2))]> cash_form))))))))))).

(** A form the validation accepts, with an ownership period of 10^30
    years and an insurance of 1.00 a year. *)
Definition long_horizon_form : gmap string PyValue :=
  <["ownership_period_years"%string := VInt (10 ^ 30)]>
  (<["insurance_cost_annual"%string := VDec (dec 100 (-2))]> cash_form).

End Examples.

(** ** Values as real numbers

    Used to bound what the arithmetic returns: [mag d] is the absolute
    value of [d], [val d] its signed value. *)

Definition p10 (k : Z) : R := powerRZ 10 k.
Definition mag (d : Decimal) : R := (IZR (Z.of_N (dint d)) * p10 (dexp d))%R.
Definition val (d : Decimal) : R :=
  (IZR (Dec.signed (dsign d) (dint d)) * p10 (dexp d))%R.

(** ** The view of [tools/views.py]

    [CarCostEstimatorView] holds the suggestions that
    [gather_suggested_data] fetched for the country of the request; what
    it does with them, and with the cleaned data of a valid form, is
    modelled here. The request, the template and the network are left
    out: the suggestions are an argument, the flash messages a list. *)

Module Views.
Import Services.

(** [SuggestedData] of [tools/services.py]. *)
Record SuggestedData : Type := mkSuggestedData {
  currency_code : option string;
  fuel_price_per_liter : option Decimal;
  electricity_price_per_kwh : option Decimal;
  tax_rate_percent : option Decimal
}.

(** [dict.setdefault(key, value)]. *)
Definition setdefault (d : gmap string PyValue) (key : string) (value : PyValue)
    : gmap string PyValue :=
  match d !! key with
  | Some _ => d
  | None => <[key := value]> d
  end.

(** [get_initial] (lines 22-36); [inherited] is what
    [super().get_initial()] returns, the empty dict for this view. *)
Definition get_initial (country : string) (suggested_data : SuggestedData)
    (inherited : gmap string PyValue) : gmap string PyValue :=
  let initial := setdefault inherited "country_code" (VStr country) in
  let initial :=
    match currency_code suggested_data with
    | Some c =>
        if decide (c = EmptyString) then initial
        else setdefault initial "currency_code" (VStr c)
    | None => initial
    end in
  let initial :=
    match fuel_price_per_liter suggested_data with
    | Some p =>
        if Dec.truthy p then setdefault initial "gas_price_per_liter" (VDec p)
        else initial
    | None => initial
    end in
  let initial :=
    match electricity_price_per_kwh suggested_data with
    | Some p =>
        if Dec.truthy p
        then setdefault initial "electricity_price_per_kwh" (VDec p)
        else initial
    | None => initial
    end in
  let initial :=
    match tax_rate_percent suggested_data with
    | Some p =>
        if Dec.truthy p then setdefault initial "local_tax_rate" (VDec p)
        else initial
    | None => initial
    end in
  setdefault initial "local_tax_rate" (VInt 0).

(** One of the three replacements of [form_valid]: a field the user left
    empty (or zero) takes the suggestion, if there is a non-zero one, and
    a message is flashed. *)
Definition apply_suggestion (field : string) (suggestion : option Decimal)
    (message : string) (st : gmap string PyValue * list string)
    : gmap string PyValue * list string :=
  match suggestion with
  | Some price =>
      if Py.empty_like (Py.get (fst st) field) && Dec.truthy price
      then (<[field := VDec price]> (fst st), snd st ++ [message])
      else st
  | None => st
  end.

(** The cleaned data [form_valid] hands to the engine, and the messages
    it flashes (lines 46-64). *)
Definition suggested_input (suggested_data : SuggestedData)
    (cleaned_data : gmap string PyValue) : gmap string PyValue * list string :=
  let st := (cleaned_data, []) in
  let st :=
    apply_suggestion "gas_price_per_liter" (fuel_price_per_liter suggested_data)
      "Applied suggested local fuel price from available data." st in
  let st :=
    apply_suggestion "electricity_price_per_kwh"
      (electricity_price_per_kwh suggested_data)
      "Applied suggested local electricity price from available data." st in
  apply_suggestion "local_tax_rate" (tax_rate_percent suggested_data)
    "Applied suggested local tax rate from available data." st.

(** [form_valid] (lines 45-68): the messages and the results put in the
    context of the response. *)
Definition form_valid (suggested_data : SuggestedData)
    (cleaned_data : gmap string PyValue) : list string * result Estimate :=
  let '(cleaned, messages) := suggested_input suggested_data cleaned_data in
  (messages, estimate_car_cost cleaned).

(** The state between two replacements, as the proofs follow it: either
    nothing was flashed and the data are the cleaned data, or something
    was and a field among [done] that was empty now holds a non-zero
    suggestion. *)
Definition in_step (cleaned : gmap string PyValue) (done : list string)
    (st : gmap string PyValue * list string) : Prop :=
  (snd st = [] /\ fst st = cleaned)
  \/ (snd st <> []
      /\ exists k p, k ∈ done /\ Py.empty_like (Py.get cleaned k) = true
                     /\ Dec.truthy p = true /\ fst st !! k = Some (VDec p)).

End Views.

(** ** The error monad *)

Section monad.
Context {A B : Type}.

Lemma bind_Ok (m : result A) (f : A -> result B) (b : B) :
  m ≫= f = Ok b -> exists a, m = Ok a /\ f a = Ok b.
Proof. destruct m as [a|e]; simpl; [eauto | discriminate]. Qed.

Lemma Ok_bind (a : A) (f : A -> result B) : Ok a ≫= f = f a.
Proof. reflexivity. Qed.

End monad.

Ltac inv_bind H :=
  let a := fresh "x" in
  let Ha := fresh "E" in
  apply bind_Ok in H; destruct H as (a & Ha & H).

Ltac inv_binds H := repeat inv_bind H.

Ltac inv_Ok H := injection H as H; subst.
(** ** Digits and rounding *)

Module DecFacts.
Import Dec.

Lemma pow10_pos k : (0 < pow10 k)%N.
Proof. unfold pow10. apply N.neq_0_lt_0, N.pow_nonzero. discriminate. Qed.

Lemma pow10_Z k : 0 <= k -> Z.of_N (pow10 k) = 10 ^ k.
Proof.
  intros H. unfold pow10. rewrite N2Z.inj_pow, Z2N.id by assumption. reflexivity.
Qed.

Lemma pow10_neg k : k <= 0 -> pow10 k = 1%N.
Proof.
  intros H. unfold pow10. replace (Z.to_N k) with 0%N; [reflexivity|].
  destruct k; simpl; try reflexivity; lia.
Qed.

Lemma pow10_add a b : 0 <= a -> 0 <= b -> pow10 (a + b) = (pow10 a * pow10 b)%N.
Proof.
  intros Ha Hb. unfold pow10. rewrite Z2N.inj_add, N.pow_add_r by assumption.
  reflexivity.
Qed.

Lemma Zpow10_pos k : 0 <= k -> 0 < 10 ^ k.
Proof. intros. apply Z.pow_pos_nonneg; lia. Qed.

Lemma Zpow10_le a b : 0 <= a <= b -> 10 ^ a <= 10 ^ b.
Proof. intros. apply Z.pow_le_mono_r; lia. Qed.

Lemma Zpow10_lt a b : 0 <= a < b -> 10 ^ a < 10 ^ b.
Proof. intros. apply Z.pow_lt_mono_r; lia. Qed.

Lemma Zpow10_succ k : 0 <= k -> 10 ^ (k + 1) = 10 * 10 ^ k.
Proof. intros. rewrite Z.pow_add_r by lia. lia. Qed.

(** [ndigits_go] with enough fuel counts the digits. *)
Lemma ndigits_go_spec fuel c :
  (c < 2 ^ N.of_nat (S fuel))%N -> (0 < c)%N ->
  let n := ndigits_go fuel c in
  1 <= n /\ 10 ^ (n - 1) <= Z.of_N c < 10 ^ n.
Proof.
  revert c. induction fuel as [|f IH]; intros c Hc Hpos.
  - simpl. change (2 ^ N.of_nat 1)%N with 2%N in Hc. split; [lia|].
    change (10 ^ (1 - 1)) with 1. change (10 ^ 1) with 10. lia.
  - cbn [ndigits_go]. destruct (c <? 10)%N eqn:E.
    + apply N.ltb_lt in E. split; [lia|].
      change (10 ^ (1 - 1)) with 1. change (10 ^ 1) with 10. lia.
    + apply N.ltb_ge in E.
      assert (Hdiv : (c / 10 < 2 ^ N.of_nat (S f))%N).
      { apply N.Div0.div_lt_upper_bound.
        rewrite (Nat2N.inj_succ (S f)), N.pow_succ_r' in Hc. lia. }
      assert (Hq : (0 < c / 10)%N).
      { apply N.div_str_pos. lia. }
      specialize (IH (c / 10)%N Hdiv Hq). cbv zeta in IH.
      destruct IH as (H1 & H2 & H3).
      set (n := ndigits_go f (c / 10)) in *.
      rewrite N2Z.inj_div in H2, H3. change (Z.of_N 10) with 10 in *.
      split; [lia|].
      replace (1 + n - 1) with ((n - 1) + 1) by lia.
      replace (1 + n) with (n + 1) by lia.
      rewrite !Zpow10_succ by lia.
      pose proof (Z.div_mod (Z.of_N c) 10 ltac:(lia)).
      pose proof (Z.mod_pos_bound (Z.of_N c) 10 ltac:(lia)).
      lia.
Qed.

Lemma ndigits_spec c :
  (0 < c)%N ->
  1 <= ndigits c /\ 10 ^ (ndigits c - 1) <= Z.of_N c < 10 ^ ndigits c.
Proof.
  intros H. unfold ndigits. apply ndigits_go_spec; [|assumption].
  rewrite Nat2N.inj_succ, N2Nat.id. apply (N.log2_spec c H).
Qed.

Lemma ndigits_0 : ndigits 0 = 1.
Proof. reflexivity. Qed.

Lemma ndigits_pos c : 1 <= ndigits c.
Proof.
  destruct (N.eq_dec c 0%N) as [->|H]; [rewrite ndigits_0; lia|].
  apply ndigits_spec. lia.
Qed.

Lemma ndigits_unique c k :
  10 ^ (k - 1) <= Z.of_N c < 10 ^ k -> 1 <= k -> ndigits c = k.
Proof.
  intros [H1 H2] Hk.
  assert (Hc : (0 < c)%N).
  { pose proof (Zpow10_pos (k - 1) ltac:(lia)). lia. }
  destruct (ndigits_spec c Hc) as (Hn & H3 & H4).
  destruct (Z.lt_trichotomy (ndigits c) k) as [Hlt|[Heq|Hgt]]; [|assumption|].
  - pose proof (Zpow10_le (ndigits c) (k - 1) ltac:(lia)). lia.
  - pose proof (Zpow10_le k (ndigits c - 1) ltac:(lia)). lia.
Qed.

Lemma ndigits_le c k : 0 <= k -> Z.of_N c < 10 ^ k -> (0 < c)%N -> ndigits c <= k.
Proof.
  intros Hk H Hc. destruct (ndigits_spec c Hc) as (Hn & H3 & H4).
  destruct (Z.le_gt_cases (ndigits c) k) as [|Hgt]; [assumption|].
  pose proof (Zpow10_le k (ndigits c - 1) ltac:(lia)). lia.
Qed.

Lemma ndigits_lt_pow c : Z.of_N c < 10 ^ ndigits c.
Proof.
  destruct (N.eq_dec c 0%N) as [->|H]; [reflexivity|].
  apply ndigits_spec. lia.
Qed.


(** *** Rounding a coefficient *)

Lemma round_div_floor r c k : (c / pow10 k <= round_div r c k <= c / pow10 k + 1)%N.
Proof.
  unfold round_div. cbv zeta.
  destruct r; repeat (match goal with |- context [if ?b then _ else _] => destruct b end); lia.
Qed.

Lemma round_div_le r c k K : (c <= K * pow10 k)%N -> (round_div r c k <= K)%N.
Proof.
  intros H. pose proof (pow10_pos k) as Hp.
  assert (Hq : (c / pow10 k <= K)%N).
  { apply N.Div0.div_le_upper_bound. lia. }
  destruct (N.eq_dec (c / pow10 k)%N K) as [E|E].
  - assert (Hrem : (c mod pow10 k = 0)%N).
    { pose proof (N.Div0.div_mod c (pow10 k)) as Hdm. rewrite E in Hdm.
      clear E Hq. generalize dependent (c mod pow10 k)%N.
      generalize dependent (pow10 k). intros. lia. }
    unfold round_div. cbv zeta. rewrite Hrem, E.
    replace (pow10 k <=? 2 * 0)%N with false by (symmetry; apply N.leb_gt; lia).
    replace (pow10 k <? 2 * 0)%N with false by (symmetry; apply N.ltb_ge; lia).
    replace (pow10 k =? 2 * 0)%N with false by (symmetry; apply N.eqb_neq; lia).
    destruct r; simpl; lia.
  - pose proof (round_div_floor r c k). lia.
Qed.

Lemma round_div_ge r c k K : (K * pow10 k <= c)%N -> (K <= round_div r c k)%N.
Proof.
  intros H. pose proof (pow10_pos k) as Hp.
  assert (Hq : (K <= c / pow10 k)%N).
  { apply N.div_le_lower_bound; lia. }
  pose proof (round_div_floor r c k). lia.
Qed.

(** *** The shape of [_fix] *)

Lemma fix_prec_inv p d d' :
  1 <= p -> fix_prec p d = Ok d' ->
  dsign d' = dsign d /\
  ((dint d = 0%N /\ dint d' = 0%N
    /\ dexp d' = Z.min (Z.max (dexp d) (Emin - p + 1)) Emax)
   \/ (dint d <> 0%N /\ d' = d /\ ndigits (dint d) <= p
       /\ Emin - p + 1 <= dexp d)
   \/ (dint d <> 0%N /\ exists t,
         0 < t /\ dexp d + t <= dexp d'
         /\ dexp d + t = Z.max (ndigits (dint d) + dexp d - p) (Emin - p + 1)
         /\ (dint d' * pow10 (dexp d' - dexp d - t))%N
              = round_div ROUND_HALF_EVEN (dint d) t
         /\ ndigits (dint d') <= p
         /\ (Emin - p + 1 <= ndigits (dint d) + dexp d - p ->
             ndigits (dint d') = p))).
Proof.
  intros Hp. unfold fix_prec. cbv zeta.
  destruct (is_zero d) eqn:Hz.
  { intros H. injection H as <-. simpl. split; [reflexivity|]. left.
    apply N.eqb_eq in Hz. auto. }
  apply N.eqb_neq in Hz.
  remember (ndigits (dint d)) as nd eqn:End.
  remember (Emin - p + 1) as etiny eqn:Eetiny.
  remember (Emax - p + 1) as etop eqn:Eetop.
  destruct (etop <? nd + dexp d - p) eqn:Hov; [discriminate|].
  apply Z.ltb_ge in Hov.
  remember (Z.max (nd + dexp d - p) etiny) as em eqn:Eem.
  destruct (dexp d <? em) eqn:Hr.
  2:{ intros H. injection H as <-. split; [reflexivity|]. right. left.
      apply Z.ltb_ge in Hr. repeat split; auto; lia. }
  apply Z.ltb_lt in Hr.
  remember (em - dexp d) as t eqn:Et.
  remember (round_div ROUND_HALF_EVEN (dint d) t) as rnd eqn:Ernd.
  assert (Hc : (0 < dint d)%N) by lia.
  destruct (ndigits_spec (dint d) Hc) as (Hnd1 & Hlo & Hhi).
  rewrite <- End in Hnd1, Hlo, Hhi.
  assert (Ht : 0 < t) by lia.
  assert (Htnd : nd - p <= t) by lia.
  assert (Hrnd_le : (rnd <= pow10 p)%N).
  { rewrite Ernd. apply round_div_le. rewrite <- pow10_add by lia.
    apply N2Z.inj_le. rewrite pow10_Z by lia.
    pose proof (Zpow10_le nd (p + t) ltac:(lia)). lia. }
  destruct (p <? ndigits rnd) eqn:Hcarry.
  - apply Z.ltb_lt in Hcarry.
    assert (Hrnd : rnd = pow10 p).
    { apply N.le_antisymm; [assumption|].
      apply N2Z.inj_le. rewrite pow10_Z by lia.
      pose proof (ndigits_lt_pow rnd) as Hlt.
      destruct (N.eq_dec rnd 0%N) as [E0|E0].
      { rewrite E0 in Hcarry. rewrite ndigits_0 in Hcarry. lia. }
      destruct (ndigits_spec rnd ltac:(lia)) as (_ & Hl & _).
      pose proof (Zpow10_le p (ndigits rnd - 1) ltac:(lia)). lia. }
    destruct (etop <? em + 1) eqn:Hov2; [discriminate|].
    intros H. injection H as <-. cbn [dsign dint dexp]. split; [reflexivity|]. right. right.
    split; [assumption|]. exists t.
    assert (Hdiv : (rnd / 10 = pow10 (p - 1))%N).
    { rewrite Hrnd. replace p with ((p - 1) + 1) at 1 by lia.
      rewrite pow10_add by lia. change (pow10 1) with 10%N.
      apply N.div_mul. discriminate. }
    repeat split; try lia.
    + replace (em + 1 - dexp d - t) with 1 by lia.
      change (pow10 1) with 10%N. rewrite Hdiv, <- Ernd.
      rewrite Hrnd. replace p with ((p - 1) + 1) at 2 by lia.
      rewrite pow10_add by lia. reflexivity.
    + rewrite Hdiv. rewrite (ndigits_unique (pow10 (p - 1)) p); [lia| |lia].
      rewrite pow10_Z by lia. replace (p - 1) with (p - 1) by lia.
      pose proof (Zpow10_lt (p - 1) p ltac:(lia)). lia.
    + intros _. rewrite Hdiv. apply ndigits_unique; [|lia].
      rewrite pow10_Z by lia.
      pose proof (Zpow10_lt (p - 1) p ltac:(lia)). lia.
  - apply Z.ltb_ge in Hcarry.
    destruct (etop <? em) eqn:Hov2; [discriminate|].
    intros H. injection H as <-. cbn [dsign dint dexp]. split; [reflexivity|]. right. right.
    split; [assumption|]. exists t.
    repeat split; try lia.
    + replace (em - dexp d - t) with 0 by lia.
      change (pow10 0) with 1%N. rewrite <- Ernd. lia.
    + intros Hsub.
      assert (Htt : t = nd - p) by lia.
      assert (Hge : (pow10 (p - 1) <= rnd)%N).
      { rewrite Ernd. apply round_div_ge. rewrite <- pow10_add by lia.
        apply N2Z.inj_le. rewrite pow10_Z by lia.
        replace (p - 1 + t) with (nd - 1) by lia. lia. }
      apply N2Z.inj_le in Hge. rewrite pow10_Z in Hge by lia.
      apply ndigits_unique; [|lia]. split; [assumption|].
      pose proof (ndigits_lt_pow rnd).
      destruct (Z.eq_dec (ndigits rnd) p) as [Heq|Hne]; [rewrite <- Heq; assumption|].
      pose proof (ndigits_pos rnd).
      pose proof (Zpow10_le (ndigits rnd) p ltac:(lia)). lia.
Qed.

End DecFacts.
(** ** Bounds on the results of the arithmetic *)

Module Mag.
Import Dec DecFacts.

Lemma p10_pos k : (0 < p10 k)%R.
Proof. apply powerRZ_lt. lra. Qed.

Lemma p10_add a b : p10 (a + b) = (p10 a * p10 b)%R.
Proof. apply powerRZ_add. lra. Qed.

Lemma p10_0 : p10 0 = 1%R.
Proof. reflexivity. Qed.

Lemma p10_IZR k : 0 <= k -> p10 k = IZR (10 ^ k).
Proof.
  intros H. unfold p10. rewrite <- (Z2Nat.id k H).
  rewrite <- pow_powerRZ, pow_IZR. reflexivity.
Qed.

Lemma p10_ge_1 k : 0 <= k -> (1 <= p10 k)%R.
Proof.
  intros H. rewrite p10_IZR by assumption. apply IZR_le.
  pose proof (Zpow10_pos k H). lia.
Qed.

Lemma p10_le a b : a <= b -> (p10 a <= p10 b)%R.
Proof.
  intros H. replace b with (a + (b - a)) by lia. rewrite p10_add.
  pose proof (p10_pos a). pose proof (p10_ge_1 (b - a) ltac:(lia)). nra.
Qed.

Lemma p10_lt a b : a < b -> (p10 a < p10 b)%R.
Proof.
  intros H. replace b with (a + (b - a)) by lia. rewrite p10_add.
  pose proof (p10_pos a).
  assert (10 <= p10 (b - a))%R.
  { rewrite p10_IZR by lia. apply IZR_le.
    pose proof (Zpow10_le 1 (b - a) ltac:(lia)). change (10 ^ 1) with 10 in *. lia. }
  nra.
Qed.

Lemma p10_lt_inv a b : (p10 a < p10 b)%R -> a < b.
Proof.
  intros H. destruct (Z.lt_ge_cases a b) as [|Hge]; [assumption|].
  pose proof (p10_le b a Hge). lra.
Qed.

Lemma p10_le_inv a b : (p10 a <= p10 b)%R -> a <= b.
Proof.
  intros H. destruct (Z.le_gt_cases a b) as [|Hgt]; [assumption|].
  pose proof (p10_lt b a Hgt). lra.
Qed.

(** Integer coefficients at exponents [e <= j] compare as reals do. *)
Lemma scaled_le c K e j :
  e <= j -> (IZR c * p10 e <= IZR K * p10 j)%R <-> c <= K * 10 ^ (j - e).
Proof.
  intros H. replace j with ((j - e) + e) at 1 by lia.
  rewrite p10_add, (p10_IZR (j - e)) by lia. rewrite <- Rmult_assoc, <- mult_IZR.
  pose proof (p10_pos e). split; intros H1.
  - apply le_IZR. nra.
  - apply IZR_le in H1. nra.
Qed.

Lemma scaled_ge c K e j :
  e <= j -> (IZR K * p10 j <= IZR c * p10 e)%R <-> K * 10 ^ (j - e) <= c.
Proof.
  intros H. replace j with ((j - e) + e) at 1 by lia.
  rewrite p10_add, (p10_IZR (j - e)) by lia. rewrite <- Rmult_assoc, <- mult_IZR.
  pose proof (p10_pos e). split; intros H1.
  - apply le_IZR. nra.
  - apply IZR_le in H1. nra.
Qed.

Lemma mag_nonneg d : (0 <= mag d)%R.
Proof.
  unfold mag. pose proof (p10_pos (dexp d)).
  assert (0 <= IZR (Z.of_N (dint d)))%R by (apply IZR_le; lia). nra.
Qed.

Lemma mag_zero d : dint d = 0%N -> mag d = 0%R.
Proof. unfold mag. intros ->. simpl. lra. Qed.

(** The leading digit brackets the magnitude. *)
Lemma mag_adjusted d :
  dint d <> 0%N ->
  (p10 (adjusted d) <= mag d < p10 (adjusted d + 1))%R.
Proof.
  intros H. assert (Hc : (0 < dint d)%N) by lia.
  destruct (ndigits_spec (dint d) Hc) as (Hn & Hlo & Hhi).
  unfold adjusted, mag.
  replace (dexp d + ndigits (dint d) - 1) with ((ndigits (dint d) - 1) + dexp d) by lia.
  replace ((ndigits (dint d) - 1) + dexp d + 1) with (ndigits (dint d) + dexp d) by lia.
  rewrite !p10_add.
  rewrite (p10_IZR (ndigits (dint d) - 1)), (p10_IZR (ndigits (dint d))) by lia.
  pose proof (p10_pos (dexp d)).
  apply IZR_le in Hlo. apply IZR_lt in Hhi.
  generalize dependent (IZR (10 ^ (ndigits (dint d) - 1))).
  generalize dependent (IZR (10 ^ ndigits (dint d))).
  generalize dependent (IZR (Z.of_N (dint d))).
  generalize dependent (p10 (dexp d)).
  intros. split; nra.
Qed.


Lemma IZR_pow10 k : 0 <= k -> IZR (Z.of_N (pow10 k)) = p10 k.
Proof. intros H. rewrite pow10_Z, p10_IZR by assumption. reflexivity. Qed.

Lemma fix_prec_ok p d :
  1 <= p -> (dint d <> 0%N -> adjusted d < Emax) ->
  exists d', fix_prec p d = Ok d'.
Proof.
  intros Hp Hadj. unfold fix_prec. cbv zeta.
  destruct (is_zero d) eqn:Hz; [eauto|].
  apply N.eqb_neq in Hz. specialize (Hadj Hz). unfold adjusted in Hadj.
  remember (ndigits (dint d)) as nd eqn:End.
  destruct (Emax - p + 1 <? nd + dexp d - p) eqn:Hov.
  { apply Z.ltb_lt in Hov. lia. }
  remember (Z.max (nd + dexp d - p) (Emin - p + 1)) as em eqn:Eem.
  destruct (dexp d <? em); [|eauto].
  destruct (p <? ndigits _).
  - destruct (Emax - p + 1 <? em + 1) eqn:Hov2; [|eauto].
    apply Z.ltb_lt in Hov2. unfold Emax, Emin in *. lia.
  - destruct (Emax - p + 1 <? em) eqn:Hov2; [|eauto].
    apply Z.ltb_lt in Hov2. unfold Emax, Emin in *. lia.
Qed.

(** The value of a rounded result, in the unit of the rounding. *)
Lemma mag_rounded d d' t rnd :
  0 < t -> dexp d + t <= dexp d' ->
  (dint d' * pow10 (dexp d' - dexp d - t))%N = rnd ->
  mag d' = (IZR (Z.of_N rnd) * p10 (dexp d + t))%R.
Proof.
  intros Ht He <-. unfold mag.
  rewrite N2Z.inj_mul, mult_IZR, IZR_pow10 by lia.
  rewrite Rmult_assoc, <- p10_add. f_equal. f_equal. lia.
Qed.

Lemma fix_prec_mag_le p d d' K j :
  1 <= p -> fix_prec p d = Ok d' ->
  0 <= K < 10 ^ p -> Emin - p + 1 <= j ->
  (mag d <= IZR K * p10 j)%R -> (mag d' <= IZR K * p10 j)%R.
Proof.
  intros Hp Hfix HK Hj Hle.
  destruct (fix_prec_inv p d d' Hp Hfix) as (_ & [(Hz & Hz' & _)|[(Hnz & -> & _)|(Hnz & t & Ht & He & Hem & Hrnd & _ & _)]]).
  - rewrite (mag_zero d' Hz'). pose proof (p10_pos j).
    assert (0 <= IZR K)%R by (apply IZR_le; lia). nra.
  - assumption.
  - rewrite (mag_rounded d d' t _ Ht He Hrnd).
    assert (Hjt : dexp d + t <= j).
    { destruct (mag_adjusted d Hnz) as [Hlo _].
      assert (Hlt : (p10 (adjusted d) < p10 (p + j))%R).
      { rewrite p10_add, (p10_IZR p) by lia.
        assert (IZR K < IZR (10 ^ p))%R by (apply IZR_lt; lia).
        pose proof (p10_pos j). nra. }
      apply p10_lt_inv in Hlt. unfold adjusted in Hlt. lia. }
    apply scaled_le; [assumption|].
    unfold mag in Hle. apply scaled_le in Hle; [|lia].
    assert (H10 : 10 ^ (j - dexp d) = 10 ^ (j - (dexp d + t)) * 10 ^ t).
    { rewrite <- Z.pow_add_r by lia. f_equal. lia. }
    rewrite H10 in Hle.
    pose proof (round_div_le ROUND_HALF_EVEN (dint d) t
                  (Z.to_N (K * 10 ^ (j - (dexp d + t))))) as Hr.
    pose proof (Zpow10_pos (j - (dexp d + t)) ltac:(lia)).
    assert (HK' : 0 <= K * 10 ^ (j - (dexp d + t))) by nia.
    assert (Hpre : (dint d <= Z.to_N (K * 10 ^ (j - (dexp d + t))) * pow10 t)%N).
    { apply N2Z.inj_le. rewrite N2Z.inj_mul, Z2N.id, pow10_Z by lia. lia. }
    specialize (Hr Hpre). apply N2Z.inj_le in Hr. rewrite Z2N.id in Hr by lia.
    exact Hr.
Qed.

Lemma fix_prec_mag_ge p d d' K j :
  1 <= p -> fix_prec p d = Ok d' ->
  0 <= K < 10 ^ p -> Emin - p + 1 <= j ->
  (IZR K * p10 j <= mag d)%R -> (IZR K * p10 j <= mag d')%R.
Proof.
  intros Hp Hfix HK Hj Hle.
  destruct (fix_prec_inv p d d' Hp Hfix) as (_ & [(Hz & Hz' & _)|[(Hnz & -> & _)|(Hnz & t & Ht & He & Hem & Hrnd & Hnd' & Hfull)]]).
  - rewrite (mag_zero d' Hz'). rewrite (mag_zero d Hz) in Hle. assumption.
  - assumption.
  - destruct (Z.le_gt_cases (dexp d + t) j) as [Hjt|Hjt].
    + rewrite (mag_rounded d d' t _ Ht He Hrnd).
      apply scaled_ge; [assumption|].
      unfold mag in Hle. apply scaled_ge in Hle; [|lia].
      assert (H10 : 10 ^ (j - dexp d) = 10 ^ (j - (dexp d + t)) * 10 ^ t).
      { rewrite <- Z.pow_add_r by lia. f_equal. lia. }
      rewrite H10 in Hle.
      pose proof (round_div_ge ROUND_HALF_EVEN (dint d) t
                    (Z.to_N (K * 10 ^ (j - (dexp d + t))))) as Hr.
      pose proof (Zpow10_pos (j - (dexp d + t)) ltac:(lia)).
      assert (HK' : 0 <= K * 10 ^ (j - (dexp d + t))) by nia.
      assert (Hpre : (Z.to_N (K * 10 ^ (j - (dexp d + t))) * pow10 t <= dint d)%N).
      { apply N2Z.inj_le. rewrite N2Z.inj_mul, Z2N.id, pow10_Z by lia. lia. }
      specialize (Hr Hpre). apply N2Z.inj_le in Hr. rewrite Z2N.id in Hr by lia.
      exact Hr.
    + assert (Hp' : ndigits (dint d') = p) by (apply Hfull; lia).
      assert (Hnz' : dint d' <> 0%N).
      { intros E. rewrite E, ndigits_0 in Hp'.
        rewrite E, N.mul_0_l in Hrnd.
        pose proof (round_div_ge ROUND_HALF_EVEN (dint d) t 1) as Hr.
        assert (Hpre : (1 * pow10 t <= dint d)%N).
        { apply N2Z.inj_le. rewrite N2Z.inj_mul, pow10_Z by lia.
          destruct (ndigits_spec (dint d) ltac:(lia)) as (_ & Hlo & _).
          pose proof (Zpow10_le t (ndigits (dint d) - 1) ltac:(lia)).
          change (Z.of_N 1) with 1. lia. }
        specialize (Hr Hpre). lia. }
      destruct (mag_adjusted d' Hnz') as [Hlo _].
      unfold adjusted in Hlo. rewrite Hp' in Hlo.
      assert (Hlt : (IZR K * p10 j < p10 (p + j))%R).
      { rewrite p10_add, (p10_IZR p) by lia.
        assert (IZR K < IZR (10 ^ p))%R by (apply IZR_lt; lia).
        pose proof (p10_pos j). nra. }
      pose proof (p10_le (p + j) (dexp d' + p - 1) ltac:(lia)). lra.
Qed.

Lemma fix_prec_sign p d d' : 1 <= p -> fix_prec p d = Ok d' -> dsign d' = dsign d.
Proof. intros Hp H. apply (fix_prec_inv p d d' Hp H). Qed.

Lemma mag_lt_adjusted d k :
  dint d <> 0%N -> (mag d < p10 k)%R -> adjusted d < k.
Proof.
  intros Hnz H. destruct (mag_adjusted d Hnz) as [Hlo _].
  apply p10_lt_inv. lra.
Qed.

Lemma IZR_lt_p10 K k : 0 <= k -> K < 10 ^ k -> (IZR K < p10 k)%R.
Proof. intros Hk H. rewrite p10_IZR by assumption. apply IZR_lt. assumption. Qed.

(** Rounding keeps an integer bound below [10^p]. *)
Lemma fix_prec_UB p d K :
  1 <= p < Emax -> 0 <= K < 10 ^ p -> (mag d <= IZR K)%R ->
  exists d', fix_prec p d = Ok d' /\ (mag d' <= IZR K)%R /\ dsign d' = dsign d.
Proof.
  intros Hp HK Hle.
  destruct (fix_prec_ok p d) as [d' Hd']; [lia| |].
  { intros Hnz. pose proof (IZR_lt_p10 K p ltac:(lia) ltac:(lia)).
    pose proof (mag_lt_adjusted d p Hnz ltac:(lra)). lia. }
  exists d'. split; [assumption|]. split.
  - pose proof (fix_prec_mag_le p d d' K 0 ltac:(lia) Hd' HK) as H.
    rewrite p10_0, Rmult_1_r in H. apply H; [unfold Emin; lia|assumption].
  - apply (fix_prec_sign p d d'); [lia|assumption].
Qed.

(** A representable number is left alone. *)
Lemma fix_prec_id p d :
  1 <= p -> ndigits (dint d) <= p ->
  Emin - p + 1 <= dexp d -> adjusted d <= Emax ->
  fix_prec p d = Ok d.
Proof.
  intros Hp Hnd He Hadj. unfold fix_prec, adjusted in *. cbv zeta.
  destruct (is_zero d) eqn:Hz.
  - apply N.eqb_eq in Hz. destruct d as [s c e]. simpl in *. subst c.
    rewrite ndigits_0 in Hadj. f_equal. f_equal. lia.
  - replace (Emax - p + 1 <? ndigits (dint d) + dexp d - p) with false
      by (symmetry; apply Z.ltb_ge; lia).
    replace (dexp d <? Z.max (ndigits (dint d) + dexp d - p) (Emin - p + 1)) with false
      by (symmetry; apply Z.ltb_ge; lia).
    reflexivity.
Qed.

(** *** Products *)

Lemma mag_mul a b : mag (exact_mul a b) = (mag a * mag b)%R.
Proof.
  unfold mag, exact_mul. cbn [dint dexp]. rewrite N2Z.inj_mul, mult_IZR, p10_add. ring.
Qed.

Lemma mul_prec_UB p a b Ka Kb :
  1 <= p < Emax -> (mag a <= IZR Ka)%R -> (mag b <= IZR Kb)%R ->
  Ka * Kb < 10 ^ p ->
  exists c, mul_prec p a b = Ok c /\ (mag c <= IZR (Ka * Kb))%R
            /\ dsign c = xorb (dsign a) (dsign b).
Proof.
  intros Hp Ha Hb HK. unfold mul_prec.
  pose proof (mag_nonneg a). pose proof (mag_nonneg b).
  assert (HKa : 0 <= Ka) by (apply le_IZR; lra).
  assert (HKb : 0 <= Kb) by (apply le_IZR; lra).
  apply fix_prec_UB; [assumption|nia|].
  rewrite mag_mul, mult_IZR. apply IZR_le in HKa, HKb. nra.
Qed.

Lemma mul_UB a b Ka Kb :
  (mag a <= IZR Ka)%R -> (mag b <= IZR Kb)%R -> Ka * Kb < 10 ^ 28 ->
  exists c, mul a b = Ok c /\ (mag c <= IZR (Ka * Kb))%R
            /\ dsign c = xorb (dsign a) (dsign b).
Proof. apply mul_prec_UB. unfold prec, Emax. lia. Qed.

(** *** Sums *)

Lemma aligned_val d e :
  e <= dexp d -> (IZR (aligned d e) * p10 e)%R = val d.
Proof.
  intros H. unfold aligned, val, signed.
  assert (Hm : (IZR (Z.of_N (dint d * pow10 (dexp d - e))) * p10 e
                = IZR (Z.of_N (dint d)) * p10 (dexp d))%R).
  { rewrite N2Z.inj_mul, mult_IZR, IZR_pow10 by lia.
    rewrite Rmult_assoc, <- p10_add. do 2 f_equal. lia. }
  destruct (dsign d); [rewrite !opp_IZR|]; lra.
Qed.

Lemma add_prec_exact p a b : add_prec p a b = fix_prec p (exact_add a b).
Proof. reflexivity. Qed.

Lemma val_exact_add a b : val (exact_add a b) = (val a + val b)%R.
Proof.
  unfold exact_add. cbv zeta.
  set (e := Z.min (dexp a) (dexp b)).
  rewrite <- (aligned_val a e), <- (aligned_val b e) by (unfold e; lia).
  remember (aligned a e + aligned b e) as s eqn:Es.
  unfold val, signed. cbn [dsign dint dexp].
  rewrite <- Rmult_plus_distr_r, <- plus_IZR, <- Es. f_equal.
  destruct (s =? 0) eqn:E0.
  - apply Z.eqb_eq in E0. rewrite E0. simpl.
    destruct (_ && _); reflexivity.
  - apply Z.eqb_neq in E0. destruct (s <? 0) eqn:Elt.
    + apply Z.ltb_lt in Elt. f_equal. rewrite N2Z.inj_abs_N. lia.
    + apply Z.ltb_ge in Elt. f_equal. rewrite N2Z.inj_abs_N. lia.
Qed.

Lemma mag_abs_val d : mag d = Rabs (val d).
Proof.
  unfold mag, val, signed. pose proof (p10_pos (dexp d)).
  assert (0 <= IZR (Z.of_N (dint d)))%R by (apply IZR_le; lia).
  destruct (dsign d).
  - rewrite opp_IZR, Rabs_left1; nra.
  - rewrite Rabs_right; nra.
Qed.

Lemma val_pos d : dsign d = false -> val d = mag d.
Proof. unfold val, mag, signed. intros ->. reflexivity. Qed.

Lemma val_neg d : dsign d = true -> val d = (- mag d)%R.
Proof. unfold val, mag, signed. intros ->. rewrite opp_IZR. ring. Qed.

Lemma val_copy_negate d : val (copy_negate d) = (- val d)%R.
Proof.
  unfold val, copy_negate, signed. cbn [dsign dint dexp].
  destruct (dsign d); cbn [negb]; rewrite ?opp_IZR; ring.
Qed.

Lemma mag_copy_negate d : mag (copy_negate d) = mag d.
Proof. reflexivity. Qed.

Lemma mag_exact_add a b : (mag (exact_add a b) <= mag a + mag b)%R.
Proof.
  rewrite !mag_abs_val, val_exact_add. apply Rabs_triang.
Qed.

Lemma add_prec_UB p a b Ka Kb :
  1 <= p < Emax -> (mag a <= IZR Ka)%R -> (mag b <= IZR Kb)%R ->
  Ka + Kb < 10 ^ p ->
  exists c, add_prec p a b = Ok c /\ (mag c <= IZR (Ka + Kb))%R.
Proof.
  intros Hp Ha Hb HK. rewrite add_prec_exact.
  pose proof (mag_nonneg a). pose proof (mag_nonneg b).
  assert (HKa : 0 <= Ka) by (apply le_IZR; lra).
  assert (HKb : 0 <= Kb) by (apply le_IZR; lra).
  destruct (fix_prec_UB p (exact_add a b) (Ka + Kb)) as (c & Hc & Hm & _);
    [assumption|lia| |eauto].
  rewrite plus_IZR. pose proof (mag_exact_add a b). lra.
Qed.

Lemma add_UB a b Ka Kb :
  (mag a <= IZR Ka)%R -> (mag b <= IZR Kb)%R -> Ka + Kb < 10 ^ 28 ->
  exists c, add a b = Ok c /\ (mag c <= IZR (Ka + Kb))%R.
Proof. apply add_prec_UB. unfold prec, Emax. lia. Qed.

Lemma sub_UB a b Ka Kb :
  (mag a <= IZR Ka)%R -> (mag b <= IZR Kb)%R -> Ka + Kb < 10 ^ 28 ->
  exists c, sub a b = Ok c /\ (mag c <= IZR (Ka + Kb))%R.
Proof. intros Ha Hb. unfold sub. apply add_UB; assumption. Qed.

Lemma mag_of_Z n : mag (of_Z n) = IZR (Z.abs n).
Proof.
  unfold mag, of_Z. cbn [dint dexp]. rewrite p10_0, N2Z.inj_abs_N. ring.
Qed.

(** *** Quantize *)

Lemma rescale_exp r d e : dexp (rescale r d e) = e.
Proof.
  unfold rescale. destruct (is_zero d); [|destruct (e <=? dexp d)]; reflexivity.
Qed.

Lemma rescale_sign r d e : dsign (rescale r d e) = dsign d.
Proof.
  unfold rescale. destruct (is_zero d); [|destruct (e <=? dexp d)]; reflexivity.
Qed.

Lemma fix_prec_zero_eq p s e :
  fix_prec p (mkDecimal s 0 e)
  = Ok (mkDecimal s 0 (Z.min (Z.max e (Emin - p + 1)) Emax)).
Proof. reflexivity. Qed.

Lemma quantize_inv r d e q :
  quantize r d e = Ok q ->
  q = rescale r d e
  /\ Etiny <= e <= Emax
  /\ ndigits (dint q) <= prec
  /\ (dint d <> 0%N -> adjusted d - e + 1 <= prec).
Proof.
  unfold quantize.
  destruct (Etiny <=? e) eqn:E1; [|discriminate].
  destruct (e <=? Emax) eqn:E2; [|discriminate].
  apply Z.leb_le in E1, E2. cbn [andb negb].
  destruct (is_zero d) eqn:Hz.
  - intros H. unfold fix_ in H. rewrite fix_prec_zero_eq in H.
    replace (Z.min (Z.max e (Emin - prec + 1)) Emax) with e in H
      by (unfold Etiny in E1; lia).
    injection H as <-. cbn [dsign dexp dint].
    unfold rescale. rewrite Hz.
    repeat split; try assumption.
    + rewrite ndigits_0. unfold prec. lia.
    + apply N.eqb_eq in Hz. congruence.
  - destruct (Emax <? adjusted d) eqn:E3; [discriminate|].
    destruct (prec <? adjusted d - e + 1) eqn:E4; [discriminate|].
    destruct (Emax <? adjusted (rescale r d e)) eqn:E5; [discriminate|].
    destruct (prec <? ndigits (dint (rescale r d e))) eqn:E6; [discriminate|].
    apply Z.ltb_ge in E3, E4, E5, E6.
    unfold fix_. rewrite fix_prec_id.
    + intros H. injection H as <-. auto.
    + unfold prec. lia.
    + assumption.
    + rewrite rescale_exp. unfold Etiny in E1. assumption.
    + assumption.
Qed.

Lemma quantize_exp r d e q : quantize r d e = Ok q -> dexp q = e.
Proof.
  intros H. destruct (quantize_inv r d e q H) as (-> & _). apply rescale_exp.
Qed.

Lemma quantize_sign r d e q : quantize r d e = Ok q -> dsign q = dsign d.
Proof.
  intros H. destruct (quantize_inv r d e q H) as (-> & _). apply rescale_sign.
Qed.

(** Padding with zeros keeps the value. *)
Lemma mag_rescale_pad r d e : e <= dexp d -> mag (rescale r d e) = mag d.
Proof.
  intros H. unfold rescale. destruct (is_zero d) eqn:Hz.
  - apply N.eqb_eq in Hz. unfold mag. cbn [dint dexp]. rewrite Hz. simpl. ring.
  - replace (e <=? dexp d) with true by (symmetry; apply Z.leb_le; assumption).
    unfold mag. cbn [dint dexp].
    rewrite N2Z.inj_mul, mult_IZR, IZR_pow10 by lia.
    rewrite Rmult_assoc, <- p10_add. do 2 f_equal. lia.
Qed.

Lemma quantize_exact r d e q :
  quantize r d e = Ok q -> e <= dexp d -> val q = val d.
Proof.
  intros H He. pose proof (quantize_sign r d e q H) as Hs.
  destruct (quantize_inv r d e q H) as (-> & _).
  pose proof (mag_rescale_pad r d e He) as Hm.
  destruct (dsign d) eqn:E.
  - rewrite (val_neg _ Hs), (val_neg _ E). lra.
  - rewrite (val_pos _ Hs), (val_pos _ E). lra.
Qed.

(** Rounding to exponent [e] keeps any bound that is a multiple of [10^e]. *)
Lemma mag_rescale_le r d e K :
  0 <= K -> (mag d <= IZR K * p10 e)%R -> (mag (rescale r d e) <= IZR K * p10 e)%R.
Proof.
  intros HK H. destruct (Z.le_gt_cases e (dexp d)) as [He|He].
  { rewrite mag_rescale_pad; assumption. }
  unfold rescale. destruct (is_zero d) eqn:Hz.
  { unfold mag. cbn [dint dexp]. pose proof (p10_pos e).
    apply IZR_le in HK. simpl. nra. }
  replace (e <=? dexp d) with false by (symmetry; apply Z.leb_gt; assumption).
  unfold mag in *. cbn [dint dexp].
  apply scaled_le in H; [|lia].
  apply scaled_le; [lia|]. rewrite Z.sub_diag, Z.mul_1_r.
  pose proof (round_div_le r (dint d) (e - dexp d) (Z.to_N K)) as Hr.
  assert (Hpre : (dint d <= Z.to_N K * pow10 (e - dexp d))%N).
  { apply N2Z.inj_le. rewrite N2Z.inj_mul, Z2N.id, pow10_Z by lia. lia. }
  specialize (Hr Hpre). apply N2Z.inj_le in Hr. rewrite Z2N.id in Hr by lia.
  exact Hr.
Qed.

Lemma p10_m2 : p10 (-2) = (/ 100)%R.
Proof. unfold p10. simpl. lra. Qed.

(** Quantizing to cents succeeds below 10^26 and keeps integer bounds. *)
Lemma quantize_UB r d K :
  0 <= K < 10 ^ 26 -> (mag d <= IZR K)%R ->
  exists q, Py.quantize d Py.D0_01 r = Ok q
            /\ dexp q = -2 /\ (mag q <= IZR K)%R /\ dsign q = dsign d.
Proof.
  intros HK Hle. unfold Py.quantize. cbn [dexp Py.D0_01].
  set (ans := rescale r d (-2)).
  assert (Hans : (mag ans <= IZR K)%R).
  { pose proof (mag_rescale_le r d (-2) (K * 100) ltac:(lia)) as H.
    rewrite mult_IZR, p10_m2 in H.
    replace (IZR K * 100 * / 100)%R with (IZR K) in H by field.
    apply H. assumption. }
  assert (Hexp : dexp ans = -2) by apply rescale_exp.
  assert (Hnd : ndigits (dint ans) <= 28).
  { destruct (N.eq_dec (dint ans) 0%N) as [E|E].
    { rewrite E, ndigits_0. lia. }
    apply ndigits_le; [lia| |lia].
    unfold mag in Hans. rewrite Hexp in Hans.
    replace (IZR K) with (IZR K * p10 0)%R in Hans by (rewrite p10_0; ring).
    apply scaled_le in Hans; [|lia]. change (10 ^ (0 - -2)) with 100 in Hans.
    change (10 ^ 28) with (10 ^ 26 * 100). lia. }
  assert (Hq : quantize r d (-2) = Ok ans).
  { unfold quantize. change (negb ((Etiny <=? -2) && (-2 <=? Emax))) with false.
    cbv iota. destruct (is_zero d) eqn:Hz.
    - unfold fix_. rewrite fix_prec_zero_eq. unfold ans, rescale. rewrite Hz.
      reflexivity.
    - apply N.eqb_neq in Hz.
      assert (Hadj : adjusted d < 26).
      { apply mag_lt_adjusted; [assumption|].
        pose proof (IZR_lt_p10 K 26 ltac:(lia) ltac:(lia)). lra. }
      replace (Emax <? adjusted d) with false
        by (symmetry; apply Z.ltb_ge; unfold Emax; lia).
      replace (prec <? adjusted d - -2 + 1) with false
        by (symmetry; apply Z.ltb_ge; unfold prec; lia).
      fold ans.
      replace (Emax <? adjusted ans) with false
        by (symmetry; apply Z.ltb_ge; unfold Emax, adjusted; lia).
      replace (prec <? ndigits (dint ans)) with false
        by (symmetry; apply Z.ltb_ge; unfold prec; lia).
      unfold fix_. apply fix_prec_id; unfold prec, Emin, Emax, adjusted; lia. }
  exists ans. repeat split; try assumption. apply rescale_sign.
Qed.

(** *** Division *)

Lemma strip_zeros_spec fuel c e ideal c' e' :
  strip_zeros fuel c e ideal = (c', e') ->
  e <= e' /\ (c' * pow10 (e' - e))%N = c.
Proof.
  revert c e. induction fuel as [|f IH]; intros c e; cbn [strip_zeros].
  - intros H. injection H as <- <-. rewrite Z.sub_diag. change (pow10 0) with 1%N.
    split; [lia|]. lia.
  - destruct ((e <? ideal) && (c mod 10 =? 0)%N) eqn:E.
    + intros H. apply IH in H. destruct H as [H1 H2].
      apply andb_true_iff in E. destruct E as [_ E]. apply N.eqb_eq in E.
      split; [lia|].
      replace (e' - e) with ((e' - (e + 1)) + 1) by lia.
      rewrite pow10_add by lia. change (pow10 1) with 10%N.
      rewrite N.mul_assoc, H2.
      pose proof (N.Div0.div_mod c 10). lia.
    + intros H. injection H as <- <-. rewrite Z.sub_diag. change (pow10 0) with 1%N.
      split; [lia|]. lia.
Qed.

Lemma mag_pos d : dint d <> 0%N -> (0 < mag d)%R.
Proof.
  intros H. unfold mag. pose proof (p10_pos (dexp d)).
  assert (0 < IZR (Z.of_N (dint d)))%R by (apply IZR_lt; lia). nra.
Qed.

(** The scaled operands of a division: [a / b = n / m * 10^e] with a
    quotient [n / m] of more than [prec] digits. *)
Lemma quotient_shape a b :
  dint a <> 0%N -> dint b <> 0%N ->
  exists (n m c : N) (e e' : Z),
    (0 < m)%N
    /\ (IZR (Z.of_N n) * p10 e * mag b = mag a * IZR (Z.of_N m))%R
    /\ (pow10 prec * m <= n)%N
    /\ quotient a b = mkDecimal (xorb (dsign a) (dsign b)) c e'
    /\ (((n mod m = 0)%N
         /\ (IZR (Z.of_N c) * p10 e' = IZR (Z.of_N (n / m)) * p10 e)%R)
        \/ ((n mod m <> 0)%N /\ e' = e /\ (n / m <= c <= n / m + 1)%N)).
Proof.
  intros Ha Hb. unfold quotient. cbv zeta.
  remember (ndigits (dint b) - ndigits (dint a) + prec + 1) as shift eqn:Es.
  remember (dexp a - dexp b - shift) as e eqn:Ee.
  destruct (ndigits_spec (dint a) ltac:(lia)) as (Hna & Hloa & Hhia).
  destruct (ndigits_spec (dint b) ltac:(lia)) as (Hnb & Hlob & Hhib).
  assert (Hnm : exists n m : N,
    (if 0 <=? shift then ((dint a * pow10 shift)%N, dint b)
     else (dint a, (dint b * pow10 (- shift))%N)) = (n, m)
    /\ (0 < m)%N
    /\ (IZR (Z.of_N n) * p10 e * mag b = mag a * IZR (Z.of_N m))%R
    /\ (pow10 prec * m <= n)%N).
  { destruct (0 <=? shift) eqn:Hs.
    - apply Z.leb_le in Hs. eexists _, _. split; [reflexivity|].
      split; [lia|]. split.
      + unfold mag. rewrite N2Z.inj_mul, mult_IZR, IZR_pow10 by lia.
        assert (Hp : p10 (dexp a) = (p10 shift * p10 e * p10 (dexp b))%R).
        { rewrite <- !p10_add. f_equal. lia. }
        rewrite Hp. ring.
      + apply N2Z.inj_le. rewrite !N2Z.inj_mul, !pow10_Z by (unfold prec; lia).
        assert (H1 : 10 ^ prec * Z.of_N (dint b) <= 10 ^ prec * 10 ^ ndigits (dint b)).
        { apply Z.mul_le_mono_nonneg_l; [unfold prec; lia|lia]. }
        assert (H2 : 10 ^ (ndigits (dint a) - 1) * 10 ^ shift
                     <= Z.of_N (dint a) * 10 ^ shift).
        { apply Z.mul_le_mono_nonneg_r; [|lia].
          pose proof (Zpow10_pos shift Hs). lia. }
        rewrite <- Z.pow_add_r in H1, H2 by (unfold prec; lia).
        replace (ndigits (dint a) - 1 + shift) with (prec + ndigits (dint b)) in H2
          by lia.
        lia.
    - apply Z.leb_gt in Hs. eexists _, _. split; [reflexivity|].
      pose proof (pow10_pos (- shift)).
      split; [lia|]. split.
      + unfold mag. rewrite N2Z.inj_mul, mult_IZR, IZR_pow10 by lia.
        assert (Hp : (p10 e * p10 (dexp b) = p10 (dexp a) * p10 (- shift))%R).
        { rewrite <- !p10_add. f_equal. lia. }
        transitivity (IZR (Z.of_N (dint a)) * IZR (Z.of_N (dint b))
                      * (p10 e * p10 (dexp b)))%R; [ring|].
        rewrite Hp. ring.
      + apply N2Z.inj_le. rewrite !N2Z.inj_mul, !pow10_Z by (unfold prec; lia).
        assert (H1 : 10 ^ prec * (Z.of_N (dint b) * 10 ^ (- shift))
                     <= 10 ^ prec * (10 ^ ndigits (dint b) * 10 ^ (- shift))).
        { apply Z.mul_le_mono_nonneg_l; [unfold prec; lia|].
          apply Z.mul_le_mono_nonneg_r; [|lia].
          pose proof (Zpow10_pos (- shift) ltac:(lia)). lia. }
        rewrite <- !Z.pow_add_r in H1 by (unfold prec; lia).
        replace (prec + (ndigits (dint b) + - shift)) with (ndigits (dint a) - 1) in H1
          by lia.
        lia. }
  destruct Hnm as (n & m & -> & Hm & Hkey & Hbig).
  destruct (n mod m =? 0)%N eqn:Hrem.
  - apply N.eqb_eq in Hrem.
    destruct (strip_zeros _ _ _ _) as [c e'] eqn:Hstrip.
    apply strip_zeros_spec in Hstrip. destruct Hstrip as [He' Hc].
    exists n, m, c, e, e'. repeat split; try assumption. left.
    split; [assumption|].
    rewrite <- Hc, N2Z.inj_mul, mult_IZR, IZR_pow10 by lia.
    rewrite Rmult_assoc, <- p10_add. do 2 f_equal. lia.
  - apply N.eqb_neq in Hrem.
    eexists n, m, _, e, e. repeat split; try assumption. right.
    split; [assumption|]. split; [reflexivity|].
    destruct (_ =? 0)%N; lia.
Qed.

Lemma quotient_mag_le a b B :
  dint a <> 0%N -> dint b <> 0%N -> 0 <= B < 10 ^ prec ->
  (mag a <= IZR B * mag b)%R -> (mag (quotient a b) <= IZR B)%R.
Proof.
  intros Ha Hb HB Hle.
  destruct (quotient_shape a b Ha Hb)
    as (n & m & c & e & e' & Hm & Hkey & Hbig & -> & Hcase).
  unfold mag at 1. cbn [dint dexp].
  pose proof (mag_pos b Hb) as Hbpos.
  pose proof (p10_pos e) as Hpe.
  assert (Hmr : (0 < IZR (Z.of_N m))%R) by (apply IZR_lt; lia).
  (* n * 10^e <= B * m *)
  assert (Hnm : (IZR (Z.of_N n) * p10 e <= IZR B * IZR (Z.of_N m))%R).
  { apply (Rmult_le_reg_r (mag b)); [assumption|]. rewrite Hkey. nra. }
  pose proof (N.Div0.div_mod n m) as Hdm.
  pose proof (N.mod_lt n m ltac:(lia)) as Hmod.
  destruct Hcase as [(Hrem & ->)|(Hrem & -> & Hc)].
  - rewrite Hrem, N.add_0_r in Hdm.
    assert (Hn : IZR (Z.of_N n) = (IZR (Z.of_N m) * IZR (Z.of_N (n / m)))%R).
    { rewrite <- mult_IZR, <- N2Z.inj_mul, <- Hdm. reflexivity. }
    rewrite Hn in Hnm.
    apply (Rmult_le_reg_l (IZR (Z.of_N m))); [assumption|].
    clear - Hnm. generalize dependent (IZR (Z.of_N m)).
    generalize dependent (IZR (Z.of_N (n / m))). intros. lra.
  - (* the exponent is negative, the bound an integer in the unit 10^e *)
    assert (Hq : (pow10 prec <= n / m)%N).
    { apply N.div_le_lower_bound; lia. }
    assert (He : e < 0).
    { apply p10_lt_inv. rewrite p10_0.
      assert (Hq' : (IZR (Z.of_N (n / m)) * IZR (Z.of_N m) <= IZR (Z.of_N n))%R).
      { rewrite <- mult_IZR, <- N2Z.inj_mul. apply IZR_le, N2Z.inj_le.
        rewrite N.mul_comm. apply N.Div0.mul_div_le. }
      assert (Hq'' : (p10 prec <= IZR (Z.of_N (n / m)))%R).
      { rewrite <- IZR_pow10 by (unfold prec; lia). apply IZR_le. lia. }
      assert (HBr : (IZR B < p10 prec)%R).
      { apply IZR_lt_p10; [unfold prec|]; lia. }
      pose proof (p10_pos prec).
      destruct (Rlt_le_dec (p10 e) 1) as [|Hge]; [assumption|exfalso].
      assert (IZR (Z.of_N (n / m)) * IZR (Z.of_N m) * p10 e
              <= IZR B * IZR (Z.of_N m))%R by nra.
      assert (IZR (Z.of_N (n / m)) * p10 e <= IZR B)%R.
      { apply (Rmult_le_reg_r (IZR (Z.of_N m))); [assumption|]. nra. }
      nra. }
    assert (Hint : Z.of_N n <= B * 10 ^ (- e) * Z.of_N m).
    { apply le_IZR. rewrite !mult_IZR, <- p10_IZR by lia.
      assert (Hinv : (p10 e * p10 (- e) = 1)%R).
      { rewrite <- p10_add. replace (e + - e) with 0 by lia. apply p10_0. }
      pose proof (p10_pos (- e)).
      assert (IZR (Z.of_N n) * (p10 e * p10 (- e))
              <= IZR B * p10 (- e) * IZR (Z.of_N m))%R by nra.
      rewrite Hinv in H0. lra. }
    assert (Hc' : Z.of_N c <= B * 10 ^ (- e)).
    { remember (B * 10 ^ (- e)) as B' eqn:EB'.
      assert (HB' : 0 <= B').
      { pose proof (Zpow10_pos (- e) ltac:(lia)). nia. }
      assert (Hlt : Z.of_N (n / m) < B').
      { rewrite N2Z.inj_div. apply Z.div_lt_upper_bound; [lia|].
        assert (Z.of_N n <> Z.of_N m * B').
        { intros Heq. apply Hrem.
          replace n with (Z.to_N B' * m)%N by lia.
          apply N.Div0.mod_mul. }
        lia. }
      lia. }
    replace (IZR B) with (IZR B * p10 0)%R by (rewrite p10_0; ring).
    apply scaled_le; [lia|]. rewrite Z.sub_0_l. assumption.
Qed.

Lemma quotient_mag_ge a b K j :
  dint a <> 0%N -> dint b <> 0%N -> 0 <= K < 10 ^ prec ->
  (IZR K * p10 j * mag b <= mag a)%R -> (IZR K * p10 j <= mag (quotient a b))%R.
Proof.
  intros Ha Hb HK Hle.
  destruct (quotient_shape a b Ha Hb)
    as (n & m & c & e & e' & Hm & Hkey & Hbig & -> & Hcase).
  unfold mag at 1. cbn [dint dexp].
  pose proof (mag_pos b Hb) as Hbpos.
  pose proof (p10_pos e) as Hpe. pose proof (p10_pos j) as Hpj.
  assert (Hmr : (0 < IZR (Z.of_N m))%R) by (apply IZR_lt; lia).
  assert (Hnm : (IZR K * p10 j * IZR (Z.of_N m) <= IZR (Z.of_N n) * p10 e)%R).
  { apply (Rmult_le_reg_r (mag b)); [assumption|]. rewrite Hkey. nra. }
  assert (Hq : (pow10 prec <= n / m)%N).
  { apply N.div_le_lower_bound; lia. }
  (* the floor of the quotient is already above the bound *)
  assert (Hfloor : (IZR K * p10 j <= IZR (Z.of_N (n / m)) * p10 e)%R).
  { destruct (Z.le_gt_cases e j) as [Hej|Hej].
    - apply scaled_ge; [assumption|].
      assert (Hint : K * 10 ^ (j - e) * Z.of_N m <= Z.of_N n).
      { apply le_IZR. rewrite !mult_IZR, <- p10_IZR by lia.
        assert (Hpj' : p10 j = (p10 (j - e) * p10 e)%R).
        { rewrite <- p10_add. f_equal. lia. }
        rewrite Hpj' in Hnm. nra. }
      rewrite N2Z.inj_div. apply Z.div_le_lower_bound; lia.
    - assert (Hq'' : (p10 prec <= IZR (Z.of_N (n / m)))%R).
      { rewrite <- IZR_pow10 by (unfold prec; lia). apply IZR_le. lia. }
      assert (HKr : (IZR K < p10 prec)%R).
      { apply IZR_lt_p10; [unfold prec|]; lia. }
      assert (0 <= IZR K)%R by (apply IZR_le; lia).
      pose proof (p10_lt j e Hej). nra. }
  destruct Hcase as [(Hrem & ->)|(Hrem & -> & Hc)]; [assumption|].
  assert (IZR (Z.of_N (n / m)) <= IZR (Z.of_N c))%R by (apply IZR_le; lia).
  nra.
Qed.

Lemma quotient_sign a b : dsign (quotient a b) = xorb (dsign a) (dsign b).
Proof.
  unfold quotient. cbv zeta.
  destruct (if 0 <=? _ then _ else _) as [n m].
  destruct (if (n mod m =? 0)%N then _ else _) as [c e]. reflexivity.
Qed.

(** A quotient stays below any integer [B < 10^28] with [a <= B * b]. *)
Lemma div_UB a b B :
  dint b <> 0%N -> 0 <= B < 10 ^ 28 -> (mag a <= IZR B * mag b)%R ->
  exists c, div a b = Ok c /\ (mag c <= IZR B)%R
            /\ dsign c = xorb (dsign a) (dsign b).
Proof.
  intros Hb HB Hle. unfold div, is_zero.
  replace (dint b =? 0)%N with false by (symmetry; apply N.eqb_neq; assumption).
  destruct (dint a =? 0)%N eqn:Ha.
  - unfold fix_. rewrite fix_prec_zero_eq. eexists. split; [reflexivity|].
    split; [|reflexivity]. rewrite mag_zero by reflexivity. apply IZR_le. lia.
  - apply N.eqb_neq in Ha.
    destruct (fix_prec_UB prec (quotient a b) B) as (c & Hc & Hm & Hs).
    + unfold prec, Emax. lia.
    + assumption.
    + apply quotient_mag_le; assumption.
    + exists c. unfold fix_. rewrite Hs, quotient_sign. auto.
Qed.

Lemma div_LB a b K j c :
  div a b = Ok c -> dint b <> 0%N -> 0 <= K < 10 ^ 28 -> Etiny <= j ->
  (IZR K * p10 j * mag b <= mag a)%R -> (IZR K * p10 j <= mag c)%R.
Proof.
  intros Hdiv Hb HK Hj Hle. unfold div, is_zero in Hdiv.
  replace (dint b =? 0)%N with false in Hdiv
    by (symmetry; apply N.eqb_neq; assumption).
  pose proof (mag_pos b Hb). pose proof (p10_pos j).
  assert (0 <= IZR K)%R by (apply IZR_le; lia).
  destruct (dint a =? 0)%N eqn:Ha.
  - apply N.eqb_eq in Ha. rewrite (mag_zero a Ha) in Hle.
    pose proof (mag_nonneg c). nra.
  - apply N.eqb_neq in Ha.
    apply (fix_prec_mag_ge prec (quotient a b) c K j); try assumption.
    + unfold prec. lia.
    + apply quotient_mag_ge; assumption.
Qed.


(** What [_fix] returns fits the precision. *)
Lemma fix_prec_repr p d d' :
  1 <= p -> fix_prec p d = Ok d' ->
  ndigits (dint d') <= p /\ Emin - p + 1 <= dexp d'.
Proof.
  intros Hp H. pose proof (fix_prec_inv p d d' Hp H) as (_ & Hcases).
  destruct Hcases as [(Hz & Hz' & He)|[(Hnz & -> & Hnd & He)|(Hnz & t & Ht & He & Hem & _ & Hnd & _)]].
  - rewrite Hz', ndigits_0. unfold Emin, Emax in *. lia.
  - split; assumption.
  - lia.
Qed.

(** *** Comparison *)

Lemma cmp_val a b :
  match cmp a b with
  | Eq => val a = val b
  | Lt => (val a < val b)%R
  | Gt => (val b < val a)%R
  end.
Proof.
  unfold cmp. cbv zeta. set (e := Z.min (dexp a) (dexp b)).
  rewrite <- (aligned_val a e), <- (aligned_val b e) by (unfold e; lia).
  pose proof (p10_pos e) as Hp.
  destruct (Z.compare_spec (aligned a e) (aligned b e)) as [H|H|H].
  - rewrite H. reflexivity.
  - apply IZR_lt in H. nra.
  - apply IZR_lt in H. nra.
Qed.

Lemma val_zero d : dint d = 0%N -> val d = 0%R.
Proof.
  intros H. unfold val, signed. rewrite H.
  destruct (dsign d);
    [change (- Z.of_N 0) with 0|change (Z.of_N 0) with 0]; apply Rmult_0_l.
Qed.

Lemma val_of_Z n : val (of_Z n) = IZR n.
Proof.
  unfold val, of_Z, signed. cbn [dsign dint dexp]. rewrite p10_0, N2Z.inj_abs_N.
  destruct (n <? 0) eqn:E.
  - apply Z.ltb_lt in E. rewrite Z.abs_neq by lia. rewrite Z.opp_involutive. ring.
  - apply Z.ltb_ge in E. rewrite Z.abs_eq by lia. ring.
Qed.

Lemma val_nonneg_sign d : (0 < val d)%R -> dsign d = false.
Proof.
  intros H. destruct (dsign d) eqn:E; [|reflexivity].
  rewrite (val_neg d E) in H. pose proof (mag_nonneg d). lra.
Qed.

Lemma mag_nonzero d : (0 < mag d)%R -> dint d <> 0%N.
Proof. intros H E. rewrite (mag_zero d E) in H. lra. Qed.

End Mag.

(** ** The power of a base above one *)

Module PowFacts.
Import Dec DecFacts DecPow Mag.

Lemma fix_prec_ok_mag p d k :
  1 <= p -> (mag d <= p10 k)%R -> k < Emax ->
  exists d', fix_prec p d = Ok d'.
Proof.
  intros Hp Hle Hk. apply fix_prec_ok; [assumption|].
  intros Hnz. destruct (mag_adjusted d Hnz) as [Hlo _].
  assert (H : (p10 (adjusted d) <= p10 k)%R) by lra.
  apply p10_le_inv in H. lia.
Qed.

Section powering.

(** The working precision, a base in [[lo, 10]] with [lo >= 1] a number of
    at most [p] digits. *)
Variables (p : Z) (base : Decimal) (L jL : Z).
Hypothesis Hp : 1 <= p < Emax.
Hypothesis Hsign : dsign base = false.
Hypothesis Hhi : (mag base <= p10 1)%R.
Hypothesis HL : 0 <= L < 10 ^ p.
Hypothesis HjL : Emin - p + 1 <= jL.
Hypothesis Hlo1 : (1 <= IZR L * p10 jL)%R.
Hypothesis Hlo : (IZR L * p10 jL <= mag base)%R.

Lemma mul_prec_between a b ka kb :
  dsign a = false -> dsign b = false ->
  (IZR L * p10 jL <= mag a <= p10 ka)%R ->
  (IZR L * p10 jL <= mag b <= p10 kb)%R ->
  ka + kb < Emax ->
  exists c, mul_prec p a b = Ok c /\ dsign c = false
            /\ (IZR L * p10 jL <= mag c <= p10 (ka + kb))%R.
Proof.
  intros Hsa Hsb [Hla Hua] [Hlb Hub] Hk. unfold mul_prec.
  assert (Hm : (IZR L * p10 jL <= mag (exact_mul a b) <= p10 (ka + kb))%R).
  { rewrite mag_mul, p10_add.
    pose proof (p10_pos ka). pose proof (p10_pos kb).
    generalize dependent (IZR L * p10 jL)%R. intros lo. intros.
    split; nra. }
  destruct (fix_prec_ok_mag p (exact_mul a b) (ka + kb)) as [c Hc];
    [lia|apply Hm|assumption|].
  exists c. split; [assumption|]. split.
  - rewrite (fix_prec_sign p _ c ltac:(lia) Hc). unfold exact_mul.
    cbn [dsign]. rewrite Hsa, Hsb. reflexivity.
  - split.
    + apply (fix_prec_mag_ge p (exact_mul a b) c L jL); try assumption; [lia|apply Hm].
    + pose proof (fix_prec_mag_le p (exact_mul a b) c 1 (ka + kb)) as H.
      rewrite Rmult_1_l in H. apply H; try assumption; try lia.
      * pose proof (Zpow10_lt 0 p ltac:(lia)). change (10 ^ 0) with 1 in *. lia.
      * unfold Emin. pose proof (p10_le_inv 0 (ka + kb)).
        assert (Hge : (p10 0 <= p10 (ka + kb))%R).
        { rewrite p10_0. destruct Hm. lra. }
        apply p10_le_inv in Hge. lia.
      * apply Hm.
Qed.

Lemma pow_uint_between n :
  Z.pos n < Emax ->
  exists r, pow_uint p base n = Ok r /\ dsign r = false
            /\ (IZR L * p10 jL <= mag r <= p10 (Z.pos n))%R.
Proof.
  induction n as [q IH|q IH|]; intros Hn; cbn [pow_uint].
  - destruct IH as (r & -> & Hs & Hb); [lia|]. rewrite Ok_bind.
    destruct (mul_prec_between r r (Z.pos q) (Z.pos q) Hs Hs Hb Hb ltac:(lia))
      as (r2 & -> & Hs2 & Hb2).
    rewrite Ok_bind.
    destruct (mul_prec_between r2 base (Z.pos q + Z.pos q) 1 Hs2 Hsign Hb2
                ltac:(split; assumption) ltac:(lia)) as (r3 & -> & Hs3 & Hb3).
    exists r3. repeat split; try assumption; try apply Hb3.
    replace (Z.pos q~1) with (Z.pos q + Z.pos q + 1) by lia. apply Hb3.
  - destruct IH as (r & -> & Hs & Hb); [lia|]. rewrite Ok_bind.
    destruct (mul_prec_between r r (Z.pos q) (Z.pos q) Hs Hs Hb Hb ltac:(lia))
      as (r2 & -> & Hs2 & Hb2).
    exists r2. repeat split; try assumption; try apply Hb2.
    replace (Z.pos q~0) with (Z.pos q + Z.pos q) by lia. apply Hb2.
  - exists base. repeat split; assumption.
Qed.

End powering.

(** [pow] of a base in [(1, 10]]: no exception, and the result stays
    between the lower bound of the base and [10^n]. *)
Lemma pow_between base n L jL :
  dsign base = false -> (mag base <= p10 1)%R ->
  0 <= L < 10 ^ 28 -> Etiny <= jL ->
  (1 < IZR L * p10 jL)%R -> (IZR L * p10 jL <= mag base)%R ->
  Z.pos n <= 10 ^ 5 ->
  exists f, pow base n = Ok f /\ dsign f = false
            /\ (IZR L * p10 jL <= mag f <= p10 (Z.pos n))%R
            /\ ndigits (dint f) <= 28 /\ Etiny <= dexp f.
Proof.
  intros Hs Hhi HL HjL Hlo1 Hlo Hn. unfold pow. cbv zeta.
  assert (Hnz : dint base <> 0%N) by (apply mag_nonzero; lra).
  unfold is_zero. replace (dint base =? 0)%N with false
    by (symmetry; apply N.eqb_neq; assumption).
  assert (Hbase : mkDecimal false (dint base) (dexp base) = base).
  { destruct base as [s c e]. cbn in *. subst s. reflexivity. }
  rewrite Hbase.
  pose proof (cmp_val base (of_Z 1)) as Hcmp.
  rewrite val_of_Z, (val_pos base Hs) in Hcmp.
  destruct (cmp base (of_Z 1)); [lra| |].
  all: set (p := prec + ndigits (N.pos n) + 2).
  all: assert (Hp : 1 <= p < Emax) by
    (unfold p, prec, Emax;
     pose proof (ndigits_pos (N.pos n));
     pose proof (ndigits_le (N.pos n) 6 ltac:(lia) ltac:(change (10 ^ 5) with 100000 in Hn; change (10 ^ 6) with 1000000; lia) ltac:(lia));
     lia).
  all: assert (HLp : 0 <= L < 10 ^ p) by
    (pose proof (Zpow10_le 28 p ltac:(unfold p, prec; pose proof (ndigits_pos (N.pos n)); lia)); lia).
  all: assert (Hjp : Emin - p + 1 <= jL) by
    (unfold Etiny, prec in HjL; unfold p, prec;
     pose proof (ndigits_pos (N.pos n)); lia).
  all: destruct (pow_uint_between p base L jL Hp Hs Hhi HLp Hjp ltac:(lra) Hlo n
                   ltac:(unfold Emax; change (10 ^ 5) with 100000 in Hn; lia))
         as (r & -> & Hrs & Hrlo & Hrhi).
  all: rewrite Ok_bind.
  all: assert (Hr : mkDecimal (dsign base && N.odd (N.pos n)) (dint r) (dexp r) = r)
    by (rewrite Hs; destruct r as [s c e]; cbn in *; subst s; reflexivity).
  all: rewrite Hr.
  all: destruct (fix_prec_ok_mag prec r (Z.pos n)) as [f Hf];
    [unfold prec; lia|assumption|unfold Emax; change (10 ^ 5) with 100000 in Hn; lia|].
  all: exists f; unfold fix_; split; [assumption|].
  all: destruct (fix_prec_repr prec r f ltac:(unfold prec; lia) Hf) as [Hnd Hexp].
  all: split; [rewrite (fix_prec_sign prec r f ltac:(unfold prec; lia) Hf); assumption|].
  all: split; [|split; assumption].
  all: split.
  all: try (apply (fix_prec_mag_ge prec r f L jL); try assumption; unfold prec; lia).
  all: pose proof (fix_prec_mag_le prec r f 1 (Z.pos n)) as H;
    rewrite Rmult_1_l in H; apply H; try assumption;
    unfold prec, Emin; lia.
Qed.

End PowFacts.

(** ** Reading a successful run of the engine *)

Module Run.
Import Dec Services.

Lemma estimate_locals_inv data l :
  estimate_locals data = Ok l ->
  (exists v, Py.item data "ownership_period_years" = Ok v
             /\ Py.decimal_of_str v = Ok (l_ownership_years l))
  /\ tax_step data = Ok (l_tax l)
  /\ acquisition_step data (l_tax l) = Ok (l_acquisition l)
  /\ energy_step data = Ok (l_energy l)
  /\ _safe_decimal (Py.get data "insurance_cost_annual") = Ok (l_insurance l)
  /\ _safe_decimal (Py.get data "maintenance_cost_annual") = Ok (l_maintenance l)
  /\ _safe_decimal (Py.get data "registration_fees_annual") = Ok (l_registration l)
  /\ _safe_decimal (Py.get data "parking_cost_annual") = Ok (l_parking l)
  /\ _safe_decimal (Py.get data "other_recurring_costs") = Ok (l_other l)
  /\ _safe_decimal (Py.get data "charging_installation_cost")
       = Ok (l_charging_installation l)
  /\ _safe_decimal (Py.get data "residual_value") = Ok (l_residual_value l).
Proof.
  unfold estimate_locals. intros H.
  inv_binds H. injection H as <-. cbn. repeat split; eauto.
Qed.

Lemma estimate_car_cost_inv data r :
  estimate_car_cost data = Ok r ->
  exists l, estimate_locals data = Ok l
    /\ breakdown_of l = Ok (breakdown r)
    /\ total_cost r = l_total_cost l
    /\ monthly_cost r = l_monthly_cost l
    /\ annual_fuel_cost r = fuel_cost (l_energy l)
    /\ annual_electric_cost r = electric_cost (l_energy l)
    /\ acquisition_detail r = acquisition_breakdown (l_acquisition l).
Proof.
  unfold estimate_car_cost. intros H. inv_binds H. injection H as <-.
  eexists. split; [eassumption|]. cbn. repeat split; assumption.
Qed.

Lemma acquisition_step_cash data t :
  Py.get data "purchase_type" <> VStr "finance" ->
  Py.get data "purchase_type" <> VStr "lease" ->
  acquisition_step data t = acquire_cash t.
Proof.
  intros Hf Hl. unfold acquisition_step. repeat case_decide; congruence.
Qed.

Lemma acquisition_step_finance data t :
  Py.get data "purchase_type" = VStr "finance" ->
  acquisition_step data t = acquire_finance data t.
Proof.
  intros Hf. unfold acquisition_step. rewrite Hf.
  repeat case_decide; congruence.
Qed.

Lemma acquisition_step_lease data t :
  Py.get data "purchase_type" = VStr "lease" ->
  acquisition_step data t = acquire_lease data t.
Proof.
  intros Hf. unfold acquisition_step. rewrite Hf.
  repeat case_decide; congruence.
Qed.

Lemma over_horizon_inv annual years x :
  over_horizon annual years = Ok x ->
  exists total, mul annual years = Ok total
                /\ Py.quantize total Py.D0_01 ROUND_HALF_UP = Ok x.
Proof. unfold over_horizon. intros H. inv_binds H. eauto. Qed.

(** Division of a zero by a non-zero number is a zero. *)
Lemma div_zero_l a b :
  is_zero a = true -> is_zero b = false ->
  exists s e, div a b = Ok (mkDecimal s 0 e).
Proof.
  intros Ha Hb. unfold div. rewrite Hb, Ha. unfold fix_.
  rewrite Mag.fix_prec_zero_eq. eauto.
Qed.

Lemma eqb_zero s e : eqb (mkDecimal s 0 e) (of_Z 0) = true.
Proof. unfold eqb, cmp, aligned, signed. destruct s; reflexivity. Qed.

(** The engine looks a key up by name only: an entry under another key
    does not change what it reads. *)
Lemma get_insert_ne (data : gmap string PyValue) k v k' :
  k <> k' -> Py.get (<[k:=v]> data) k' = Py.get data k'.
Proof. intros H. unfold Py.get. rewrite lookup_insert_ne by assumption. reflexivity. Qed.

Lemma item_insert_ne (data : gmap string PyValue) k v k' :
  k <> k' -> Py.item (<[k:=v]> data) k' = Py.item data k'.
Proof. intros H. unfold Py.item. rewrite lookup_insert_ne by assumption. reflexivity. Qed.

Ltac other_key :=
  unfold tax_step, acquisition_step, acquire_finance, acquire_lease,
    lease_terms, energy_step;
  rewrite ?get_insert_ne, ?item_insert_ne, ?lookup_insert_ne by discriminate;
  reflexivity.

Lemma energy_step_ignores_fuel_type data v :
  energy_step (<["fuel_type"%string := v]> data) = energy_step data.
Proof. other_key. Qed.

Lemma estimate_locals_ignores_fuel_type data v :
  estimate_locals (<["fuel_type"%string := v]> data) = estimate_locals data.
Proof. unfold estimate_locals. other_key. Qed.

Lemma annual_energy_cost_inv mileage consumption price cost :
  annual_energy_cost mileage consumption price = Ok cost ->
  if is_zero consumption || is_zero price then cost = Py.D0
  else exists per100 units gross,
         div mileage Py.D100 = Ok per100
         /\ mul per100 consumption = Ok units
         /\ mul units price = Ok gross
         /\ Py.quantize gross Py.D0_01 ROUND_HALF_UP = Ok cost.
Proof.
  unfold annual_energy_cost, truthy.
  destruct (is_zero consumption), (is_zero price); cbn [negb andb orb];
    intros H; try (injection H as <-; reflexivity).
  inv_binds H. eauto 10.
Qed.

Lemma safe_decimal_empty v :
  Py.empty_like v = true -> _safe_decimal v = Ok Py.D0.
Proof. intros H. unfold _safe_decimal. rewrite H. reflexivity. Qed.

End Run.

(** ** Reading plain numerals *)

Module LiteralFacts.
Import Literal.







End LiteralFacts.

(** ** The engine on validated input *)

Module Total.
Import Dec DecFacts DecPow Mag PowFacts Services Run.

(** Powers of ten with a literal exponent, written out for [lra]. *)
Ltac pow10_literals :=
  repeat match goal with
         | |- context [10 ^ Zpos ?p] =>
             let v := eval vm_compute in (10 ^ Zpos p) in
             change (10 ^ Zpos p) with v
         | H : context [10 ^ Zpos ?p] |- _ =>
             let v := eval vm_compute in (10 ^ Zpos p) in
             change (10 ^ Zpos p) with v in H
         end.

Ltac arith := unfold Etiny, Etop in *; unfold prec, Emax, Emin in *; pow10_literals; lia.

Lemma p10_neg_literal k : (p10 (- Z.pos k) * IZR (10 ^ Z.pos k) = 1)%R.
Proof.
  rewrite <- p10_IZR by lia. rewrite <- p10_add.
  replace (- Z.pos k + Z.pos k) with 0 by lia. apply p10_0.
Qed.

Lemma mag_const c e : mag (mkDecimal false c e) = (IZR (Z.of_N c) * p10 e)%R.
Proof. reflexivity. Qed.

Lemma mag_D100 : mag Py.D100 = 100%R.
Proof. unfold mag, Py.D100. cbn [dint dexp]. rewrite p10_0. simpl. lra. Qed.

Lemma mag_D12 : mag Py.D12 = 12%R.
Proof. unfold mag, Py.D12. cbn [dint dexp]. rewrite p10_0. simpl. lra. Qed.

Lemma mag_D1 : mag Py.D1 = 1%R.
Proof. unfold mag, Py.D1. cbn [dint dexp]. rewrite p10_0. simpl. lra. Qed.

Lemma mag_D0 : mag Py.D0 = 0%R.
Proof. apply mag_zero. reflexivity. Qed.

(** *** What the form lets through *)

Lemma decimal_validator_bounds md dp d :
  0 <= dp <= md -> Forms.decimal_validator md dp d = true ->
  - dp <= dexp d /\ (mag d <= IZR (10 ^ (md - dp)))%R.
Proof.
  intros Hmd. unfold Forms.decimal_validator. cbv zeta.
  assert (Hone : (1 <= IZR (10 ^ (md - dp)))%R).
  { apply IZR_le. pose proof (Zpow10_pos (md - dp) ltac:(lia)). lia. }
  destruct (N.eq_dec (dint d) 0%N) as [Hz|Hnz].
  { rewrite (mag_zero d Hz). unfold is_zero. rewrite Hz. cbn [N.eqb].
    rewrite ndigits_0.
    destruct (0 <=? dexp d) eqn:E1.
    - apply Z.leb_le in E1. intros _. split; [lia|lra].
    - apply Z.leb_gt in E1. destruct (1 <? - dexp d).
      + intros H. apply andb_true_iff in H. destruct H as [H _].
        apply andb_true_iff in H. destruct H as [_ H]. apply Z.leb_le in H.
        split; [lia|lra].
      + intros H. apply andb_true_iff in H. destruct H as [H _].
        apply andb_true_iff in H. destruct H as [_ H]. apply Z.leb_le in H.
        split; [lia|lra]. }
  destruct (mag_adjusted d Hnz) as [_ Hhi]. unfold adjusted in Hhi.
  pose proof (ndigits_pos (dint d)) as Hnd.
  assert (Hk : forall k, dexp d + ndigits (dint d) - 1 + 1 <= k -> 0 <= k ->
                         (mag d <= IZR (10 ^ k))%R).
  { intros k Hk Hk0. rewrite <- p10_IZR by assumption.
    pose proof (p10_le _ _ Hk). lra. }
  unfold is_zero. replace (dint d =? 0)%N with false
    by (symmetry; apply N.eqb_neq; assumption).
  destruct (0 <=? dexp d) eqn:E1.
  - apply Z.leb_le in E1. intros H.
    apply andb_true_iff in H. destruct H as [H H3].
    apply andb_true_iff in H. destruct H as [H1 H2].
    apply Z.leb_le in H1, H2, H3. split; [lia|]. apply Hk; lia.
  - apply Z.leb_gt in E1. destruct (ndigits (dint d) <? - dexp d) eqn:E2.
    + apply Z.ltb_lt in E2. intros H.
      apply andb_true_iff in H. destruct H as [H H3].
      apply andb_true_iff in H. destruct H as [H1 H2].
      apply Z.leb_le in H1, H2, H3. split; [lia|]. apply Hk; lia.
    + apply Z.ltb_ge in E2. intros H.
      apply andb_true_iff in H. destruct H as [H H3].
      apply andb_true_iff in H. destruct H as [H1 H2].
      apply Z.leb_le in H1, H2, H3. split; [lia|]. apply Hk; lia.
Qed.

(** A validated decimal field is coerced to a non-negative Decimal with
    the decimal places and the magnitude of the field. *)
Lemma field_safe_decimal md dp required v :
  0 <= dp <= md -> Forms.DecimalField md dp required v = true ->
  exists d, _safe_decimal v = Ok d /\ dsign d = false /\ - dp <= dexp d
            /\ (mag d <= IZR (10 ^ (md - dp)))%R
            /\ (Py.empty_like v = false -> dint d <> 0%N).
Proof.
  intros Hmd Hf. unfold Forms.DecimalField in Hf.
  assert (Hone : (0 <= IZR (10 ^ (md - dp)))%R).
  { apply IZR_le. pose proof (Zpow10_pos (md - dp) ltac:(lia)). lia. }
  destruct v as [| |n|d]; try discriminate.
  - exists Py.D0. rewrite mag_D0.
    split; [reflexivity|]. split; [reflexivity|]. split; [cbn; lia|].
    split; [assumption|]. cbn. discriminate.
  - apply andb_true_iff in Hf. destruct Hf as [Hge Hv].
    destruct (decimal_validator_bounds md dp d Hmd Hv) as [He Hm].
    unfold _safe_decimal. cbn [Py.empty_like].
    destruct (is_zero d) eqn:Hz.
    + exists Py.D0. rewrite mag_D0.
      split; [reflexivity|]. split; [reflexivity|]. split; [cbn; lia|].
      split; [assumption|]. discriminate.
    + exists d. apply N.eqb_neq in Hz.
      split; [reflexivity|]. split; [|auto].
      apply negb_true_iff in Hge. unfold ltb in Hge.
      pose proof (cmp_val d (of_Z 0)) as Hc. rewrite val_of_Z in Hc.
      destruct (dsign d) eqn:Hs; [|reflexivity].
      rewrite (val_neg d Hs) in Hc. pose proof (mag_pos d Hz).
      destruct (cmp d (of_Z 0)); [lra|discriminate|lra].
Qed.

(** *** The loan scheduler *)

Lemma p10_m7 : p10 (-7) = (/ 10000000)%R.
Proof. unfold p10. simpl. lra. Qed.

Lemma p10_m5 : p10 (-5) = (/ 100000)%R.
Proof. unfold p10. simpl. lra. Qed.

Lemma p10_m3 : p10 (-3) = (/ 1000)%R.
Proof. unfold p10. simpl. lra. Qed.

Lemma p10_m8 : p10 (-8) = (/ 100000000)%R.
Proof. unfold p10. simpl. lra. Qed.

Lemma p10_12 : p10 12 = 1000000000000%R.
Proof. unfold p10. simpl. lra. Qed.

Lemma p10_1 : p10 1 = 10%R.
Proof. unfold p10. simpl. lra. Qed.

Lemma mag_ge_exp d k : dint d <> 0%N -> k <= dexp d -> (p10 k <= mag d)%R.
Proof.
  intros Hnz Hk. unfold mag. pose proof (p10_le k (dexp d) Hk).
  pose proof (p10_pos k).
  assert (1 <= IZR (Z.of_N (dint d)))%R by (apply IZR_le; lia). nra.
Qed.

Lemma dint_lt_pow d k :
  ndigits (dint d) <= k -> Z.of_N (dint d) < 10 ^ k.
Proof.
  intros H. pose proof (ndigits_lt_pow (dint d)).
  pose proof (ndigits_pos (dint d)).
  pose proof (Zpow10_le (ndigits (dint d)) k ltac:(lia)). lia.
Qed.

(** The amortised payment: with a monthly rate in [[10^-7, 1]] and a
    financed amount of at most 10^12 it is at most 10^20. *)
Lemma amortised_payment p monthly_rate term :
  (mag p <= 1000000000000)%R ->
  dsign monthly_rate = false ->
  (p10 (-7) <= mag monthly_rate <= 1)%R ->
  0 < term <= 10 ^ 4 ->
  exists payment,
    (b ← add Py.D1 monthly_rate;
     factor ← pow b (Z.to_pos term);
     rf ← mul monthly_rate factor;
     num ← mul p rf;
     den ← sub factor Py.D1;
     div num den) = Ok payment
    /\ (mag payment <= IZR (10 ^ 20))%R
    /\ dsign payment = dsign p.
Proof.
  intros Hp Hs [Hlo Hhi] Hterm. rewrite p10_m7 in Hlo.
  (* b = 1 + monthly_rate *)
  assert (Hb : exists b, add Py.D1 monthly_rate = Ok b /\ dsign b = false
             /\ (IZR 10000001 * p10 (-7) <= mag b <= 2)%R).
  { unfold add. rewrite add_prec_exact.
    pose proof (val_exact_add Py.D1 monthly_rate) as Hv.
    rewrite (val_pos Py.D1 eq_refl), (val_pos _ Hs), mag_D1 in Hv.
    assert (Hsign : dsign (exact_add Py.D1 monthly_rate) = false).
    { apply val_nonneg_sign. lra. }
    rewrite (val_pos _ Hsign) in Hv.
    destruct (fix_prec_UB prec (exact_add Py.D1 monthly_rate) 2)
      as (b & Hb & Hm & Hbs); [arith|arith|lra|].
    exists b. split; [assumption|]. split; [congruence|]. split; [|assumption].
    apply (fix_prec_mag_ge prec _ b 10000001 (-7) ltac:(arith) Hb).
    - arith.
    - arith.
    - rewrite p10_m7. lra. }
  destruct Hb as (b & -> & Hbs & Hblo & Hbhi). rewrite Ok_bind.
  (* factor = b ** term *)
  destruct (pow_between b (Z.to_pos term) 10000001 (-7) Hbs)
    as (f & -> & Hfs & [Hflo Hfhi] & Hfnd & Hfe).
  { rewrite p10_1. lra. }
  { arith. }
  { arith. }
  { rewrite p10_m7. lra. }
  { assumption. }
  { rewrite Z2Pos.id by lia. arith. }
  rewrite Ok_bind. rewrite Z2Pos.id in Hfhi by lia. rewrite p10_m7 in Hflo.
  assert (HfK : 0 <= Z.of_N (dint f) < 10 ^ prec).
  { split; [lia|]. apply dint_lt_pow. assumption. }
  assert (Hfnz : dint f <> 0%N) by (apply mag_nonzero; lra).
  assert (Hfexp : -27 <= dexp f).
  { destruct (mag_adjusted f Hfnz) as [_ Hup].
    assert (Hlt : (p10 0 < p10 (adjusted f + 1))%R) by (rewrite p10_0; lra).
    apply p10_lt_inv in Hlt. unfold adjusted in Hlt. lia. }
  (* rf = monthly_rate * factor <= factor *)
  assert (Hrf : exists rf, mul monthly_rate f = Ok rf /\ (mag rf <= mag f)%R
                           /\ dsign rf = false).
  { unfold mul, mul_prec.
    assert (Hm : (mag (exact_mul monthly_rate f) <= mag f)%R).
    { rewrite mag_mul. pose proof (mag_nonneg f). nra. }
    destruct (fix_prec_ok_mag prec (exact_mul monthly_rate f) term) as [rf Hrf];
      [arith|lra|arith|].
    exists rf. split; [assumption|]. split.
    - apply (fix_prec_mag_le prec _ rf (Z.of_N (dint f)) (dexp f)
               ltac:(arith) Hrf); try assumption.
    - rewrite (fix_prec_sign prec _ rf ltac:(arith) Hrf).
      cbn [exact_mul dsign]. rewrite Hs, Hfs. reflexivity. }
  destruct Hrf as (rf & -> & Hrf & Hrfs). rewrite Ok_bind.
  (* num = p * rf <= 10^12 * factor *)
  assert (Hnum : exists num, mul p rf = Ok num
                 /\ (mag num <= mag f * p10 12)%R
                 /\ dsign num = dsign p).
  { unfold mul, mul_prec.
    assert (Hm : (mag (exact_mul p rf) <= mag f * p10 12)%R).
    { rewrite mag_mul, p10_12.
      pose proof (mag_nonneg p). pose proof (mag_nonneg rf). nra. }
    destruct (fix_prec_ok_mag prec (exact_mul p rf) (term + 12)) as [num Hnum];
      [arith| |arith|].
    { rewrite p10_add. pose proof (p10_pos 12). nra. }
    exists num. split; [assumption|].
    assert (Heq : (mag f * p10 12 = IZR (Z.of_N (dint f)) * p10 (dexp f + 12))%R).
    { unfold mag. rewrite p10_add. ring. }
    rewrite Heq in *. split.
    - apply (fix_prec_mag_le prec _ num (Z.of_N (dint f)) (dexp f + 12)
               ltac:(arith) Hnum); try assumption.
      arith.
    - rewrite (fix_prec_sign prec _ num ltac:(arith) Hnum).
      cbn [exact_mul dsign]. rewrite Hrfs. apply xorb_false_r. }
  destruct Hnum as (num & -> & Hnum & Hnums). rewrite Ok_bind.
  (* den = factor - 1 >= 10^-8 * factor *)
  assert (Hden : exists den, sub f Py.D1 = Ok den
                 /\ (mag f * p10 (-8) <= mag den)%R
                 /\ dsign den = false).
  { unfold sub, add. rewrite add_prec_exact.
    pose proof (val_exact_add f (copy_negate Py.D1)) as Hv.
    rewrite val_copy_negate, (val_pos Py.D1 eq_refl), (val_pos _ Hfs), mag_D1 in Hv.
    assert (Hsign : dsign (exact_add f (copy_negate Py.D1)) = false).
    { apply val_nonneg_sign. lra. }
    rewrite (val_pos _ Hsign) in Hv.
    destruct (fix_prec_ok_mag prec (exact_add f (copy_negate Py.D1)) term)
      as [den Hden]; [arith|lra|arith|].
    exists den. split; [assumption|].
    assert (Heq : (mag f * p10 (-8) = IZR (Z.of_N (dint f)) * p10 (dexp f + -8))%R).
    { unfold mag. rewrite p10_add. ring. }
    split; [|rewrite (fix_prec_sign prec _ den ltac:(arith) Hden); exact Hsign].
    rewrite Heq.
    apply (fix_prec_mag_ge prec _ den (Z.of_N (dint f)) (dexp f + -8)
             ltac:(arith) Hden); try assumption.
    - arith.
    - rewrite <- Heq, Hv, p10_m8. lra. }
  destruct Hden as (den & -> & Hden & Hdens). rewrite Ok_bind.
  (* payment = num / den <= 10^20 *)
  rewrite p10_m8 in Hden. rewrite p10_12 in Hnum.
  destruct (div_UB num den (10 ^ 20)) as (payment & Hpay & Hm & Hsign).
  - apply mag_nonzero. pose proof (mag_pos f Hfnz). lra.
  - arith.
  - pow10_literals. lra.
  - exists payment. rewrite Hnums, Hdens, xorb_false_r in Hsign. auto.
Qed.

Lemma of_Z_nonzero n : n <> 0 -> dint (of_Z n) <> 0%N.
Proof. intros H. cbn [of_Z dint]. lia. Qed.

(** The scheduler on a financed amount of at most 10^12, a rate as the
    form validates it and a term of at most 10^4 months: no exception,
    and a total of at most 10^24. *)
Lemma schedule_total principal rate term :
  (mag principal <= IZR (10 ^ 12))%R ->
  dsign rate = false -> (mag rate <= IZR (10 ^ 3))%R -> -3 <= dexp rate ->
  term <= 10 ^ 4 ->
  exists s, _calculate_finance_schedule principal rate term = Ok s
            /\ (mag (total_paid s) <= IZR (10 ^ 24))%R
            /\ -2 <= dexp (total_paid s)
            /\ (mag (monthly_payment s) <= IZR (10 ^ 20))%R
            /\ dsign (monthly_payment s) = false
            /\ dsign (total_paid s) = false.
Proof.
  intros Hp Hrs Hrate Hrexp Hterm. unfold _calculate_finance_schedule.
  destruct (quantize_UB ROUND_HALF_EVEN principal (10 ^ 12) ltac:(arith) Hp)
    as (p & -> & Hpe & Hpm & _).
  rewrite Ok_bind.
  destruct ((term <=? 0) || leb p (of_Z 0)) eqn:Hguard.
  { eexists. split; [reflexivity|]. cbn [total_paid monthly_payment].
    rewrite mag_D0.
    split; [apply IZR_le; arith|]. split; [cbn; lia|].
    split; [apply IZR_le; arith|]. split; reflexivity. }
  apply orb_false_iff in Hguard. destruct Hguard as [Hpos Hppos].
  apply Z.leb_gt in Hpos.
  assert (Hps : dsign p = false).
  { apply val_nonneg_sign. unfold leb in Hppos.
    pose proof (cmp_val p (of_Z 0)) as Hc. rewrite val_of_Z in Hc.
    destruct (cmp p (of_Z 0)); try discriminate. exact Hc. }
  destruct (div_UB rate Py.D100 10) as (r1 & Hr1 & Hr1m & Hr1s).
  { discriminate. } { arith. }
  { rewrite mag_D100. pow10_literals. lra. }
  rewrite Hr1, Ok_bind.
  destruct (div_UB r1 Py.D12 1) as (mr & Hmr & Hmrm & Hmrs).
  { discriminate. } { arith. }
  { rewrite mag_D12. lra. }
  rewrite Hmr, Ok_bind.
  rewrite Hr1s, Hrs in Hmrs. cbn in Hmrs.
  assert (Hpay : exists payment,
    (if eqb mr (of_Z 0) then div p (of_Z term)
     else
       b ← add Py.D1 mr;
       factor ← pow b (Z.to_pos term);
       rf ← mul mr factor;
       num ← mul p rf;
       den ← sub factor Py.D1;
       div num den) = Ok payment
    /\ (mag payment <= IZR (10 ^ 20))%R
    /\ dsign payment = false).
  { destruct (eqb mr (of_Z 0)) eqn:Hzero.
    - destruct (div_UB p (of_Z term) (10 ^ 12)) as (m & Hm & Hmm & Hms).
      + apply of_Z_nonzero. lia.
      + arith.
      + rewrite mag_of_Z, Z.abs_eq by lia.
        assert (1 <= IZR term)%R by (apply IZR_le; lia).
        pose proof (mag_nonneg p). pow10_literals. nra.
      + exists m. split; [assumption|]. split; [pow10_literals; lra|].
        rewrite Hms, Hps. cbn [of_Z dsign xorb].
        apply Z.ltb_ge. lia.
    - assert (Hrnz : dint rate <> 0%N).
      { intros Hz.
        destruct (div_zero_l rate Py.D100) as (s1 & e1 & H1);
          [apply N.eqb_eq; assumption|reflexivity|].
        rewrite H1 in Hr1. injection Hr1 as <-.
        destruct (div_zero_l (mkDecimal s1 0 e1) Py.D12) as (s2 & e2 & H2);
          [reflexivity|reflexivity|].
        rewrite H2 in Hmr. injection Hmr as <-.
        rewrite eqb_zero in Hzero. discriminate. }
      pose proof (mag_ge_exp rate (-3) Hrnz Hrexp) as Hrlo.
      rewrite p10_m3 in Hrlo.
      pose proof (div_LB rate Py.D100 1 (-5) r1 Hr1 ltac:(discriminate)
                    ltac:(arith) ltac:(arith)) as Hr1lo.
      rewrite mag_D100, p10_m5 in Hr1lo. specialize (Hr1lo ltac:(lra)).
      pose proof (div_LB r1 Py.D12 1 (-7) mr Hmr ltac:(discriminate)
                    ltac:(arith) ltac:(arith)) as Hmrlo.
      rewrite mag_D12, p10_m7 in Hmrlo. specialize (Hmrlo ltac:(lra)).
      rewrite <- Hps. apply amortised_payment.
      + pow10_literals. pow10_literals. lra.
      + assumption.
      + rewrite p10_m7. lra.
      + lia. }
  destruct Hpay as (payment & -> & Hpaym & Hpays). rewrite Ok_bind.
  destruct (mul_UB payment (of_Z term) (10 ^ 20) (10 ^ 4) Hpaym)
    as (total & -> & Htm & Htots).
  { rewrite mag_of_Z, Z.abs_eq by lia. apply IZR_le. lia. }
  { arith. }
  rewrite Ok_bind.
  destruct (quantize_UB ROUND_HALF_UP payment (10 ^ 20) ltac:(arith) Hpaym)
    as (mp & -> & _ & Hmpm & Hmps).
  rewrite Ok_bind.
  destruct (quantize_UB ROUND_HALF_UP total (10 ^ 20 * 10 ^ 4) ltac:(arith) Htm)
    as (tp & -> & Htpe & Htpm & Htps).
  rewrite Ok_bind. eexists. split; [reflexivity|].
  cbn [total_paid monthly_payment].
  split; [rewrite mult_IZR in Htpm; pow10_literals; lra|].
  split; [lia|]. split; [assumption|]. split; [congruence|].
  rewrite Htps, Htots, Hpays. cbn [of_Z dsign xorb]. apply Z.ltb_ge. lia.
Qed.

(** *** The steps of the engine *)

(** The conjuncts of [Forms.fields_ok], one hypothesis each. *)
Ltac split_fields H :=
  unfold Forms.fields_ok in H; cbv zeta in H;
  repeat (let H' := fresh "Hfield" in
          apply andb_true_iff in H; destruct H as [H H']).

(** A bound [mag d <= IZR k] with [k] evaluated. *)
Ltac literal_bound H :=
  match type of H with
  | (mag _ <= IZR ?k)%R =>
      let v := eval vm_compute in k in change k with v in H
  end.

(** Coerce the validated decimal field [key] and name the result. *)
Ltac coerce key x Hm :=
  match goal with
  | H : Forms.DecimalField ?md ?dp ?r (Py.get ?data key) = true |- _ =>
      let E := fresh "E" in
      let Hs := fresh "Hsign" in
      let He := fresh "Hexp" in
      let Hnz := fresh "Hnz" in
      destruct (field_safe_decimal md dp r (Py.get data key) ltac:(lia) H)
        as (x & E & Hs & He & Hm & Hnz);
      literal_bound Hm; rewrite ?E, ?Ok_bind
  end.

(** Run one arithmetic step under its bound lemma. *)
Ltac step lem x Hm :=
  let E := fresh "E" in
  edestruct lem as (x & E & Hm); [try eassumption ..|];
  [try (first [discriminate | arith | rewrite ?mag_D100, ?mag_D12; lra]) ..|];
  try (literal_bound Hm); try (rewrite E, ?Ok_bind).

Ltac ub_add a b c Hc :=
  match goal with
  | Ha : (mag a <= IZR ?Ka)%R, Hb : (mag b <= IZR ?Kb)%R |- _ =>
      destruct (add_UB a b Ka Kb Ha Hb) as (c & -> & Hc);
      [arith|]; rewrite ?Ok_bind; literal_bound Hc
  end.

Ltac ub_sub a b c Hc :=
  match goal with
  | Ha : (mag a <= IZR ?Ka)%R, Hb : (mag b <= IZR ?Kb)%R |- _ =>
      destruct (sub_UB a b Ka Kb Ha Hb) as (c & -> & Hc);
      [arith|]; rewrite ?Ok_bind; literal_bound Hc
  end.

Ltac ub_mul a b c Hc :=
  match goal with
  | Ha : (mag a <= IZR ?Ka)%R, Hb : (mag b <= IZR ?Kb)%R |- _ =>
      destruct (mul_UB a b Ka Kb Ha Hb) as (c & -> & Hc & _);
      [arith|]; rewrite ?Ok_bind; literal_bound Hc
  end.

Ltac ub_quantize a c Hc :=
  match goal with
  | Ha : (mag a <= IZR ?Ka)%R |- _ =>
      let He := fresh "Hexp" in
      destruct (quantize_UB ROUND_HALF_UP a Ka ltac:(arith) Ha)
        as (c & -> & He & Hc & _);
      rewrite ?Ok_bind
  end.

Lemma max_UB a b K :
  (mag a <= IZR K)%R -> (mag b <= IZR K)%R -> (mag (Py.max a b) <= IZR K)%R.
Proof. intros Ha Hb. unfold Py.max. destruct (ltb a b); assumption. Qed.

Lemma tax_step_total data :
  Forms.fields_ok data = true ->
  exists t, tax_step data = Ok t
            /\ (mag (tax_rate t) <= 10)%R
            /\ (mag (taxable_base t) <= IZR (2 * 10 ^ 10))%R
            /\ (mag (tax_amount t) <= IZR (2 * 10 ^ 11))%R.
Proof.
  intros Hf. split_fields Hf. unfold tax_step.
  coerce "car_purchase_price"%string price Hprice.
  coerce "incentives_rebates"%string incentives Hinc.
  coerce "local_tax_rate"%string pct Hpct.
  destruct (div_UB pct Py.D100 10) as (rate & -> & Hrate & _);
    [discriminate|arith|rewrite mag_D100; lra|]. rewrite Ok_bind.
  destruct (sub_UB price incentives _ _ Hprice Hinc) as (net & -> & Hnet);
    [arith|]. rewrite Ok_bind. literal_bound Hnet.
  assert (Htb : (mag (Py.max net Py.D0) <= 20000000000)%R).
  { apply max_UB; [assumption|]. rewrite mag_D0. lra. }
  destruct (mul_UB _ _ _ _ Htb Hrate) as (gross & -> & Hgross & _); [arith|].
  rewrite Ok_bind. literal_bound Hgross.
  destruct (quantize_UB ROUND_HALF_UP gross 200000000000 ltac:(arith) Hgross)
    as (tax & -> & _ & Htax & _).
  rewrite Ok_bind. eexists. split; [reflexivity|].
  cbn [tax_rate taxable_base tax_amount]. pow10_literals.
  repeat split; assumption.
Qed.

Lemma annual_energy_total mileage consumption price :
  (mag mileage <= IZR (10 ^ 9))%R -> (mag consumption <= IZR (10 ^ 5))%R ->
  (mag price <= IZR (10 ^ 4))%R ->
  exists cost, annual_energy_cost mileage consumption price = Ok cost
               /\ (mag cost <= IZR (10 ^ 16))%R.
Proof.
  intros Hm Hc Hp. unfold annual_energy_cost. pow10_literals.
  destruct (truthy consumption && truthy price).
  - destruct (div_UB mileage Py.D100 (10 ^ 7)) as (per100 & -> & Hper & _);
      [discriminate|arith|rewrite mag_D100; pow10_literals; lra|].
    rewrite Ok_bind. literal_bound Hper.
    ub_mul per100 consumption units Hunits.
    ub_mul units price cost Hcost.
    ub_quantize cost q Hq. eauto.
  - exists Py.D0. split; [reflexivity|]. rewrite mag_D0. lra.
Qed.

(** The int fields within their limits. *)
Lemma int_field lo required hi v :
  Forms.IntegerField lo required v = true -> Limits.at_most hi v = true ->
  v = VNone \/ exists n, v = VInt n /\ lo <= n <= hi.
Proof.
  destruct v as [| |n|]; cbn; intros H1 H2; try discriminate; [left; reflexivity|].
  right. exists n. split; [reflexivity|]. apply Z.leb_le in H1, H2. lia.
Qed.

Lemma weaken_bound d K K' : (mag d <= IZR K)%R -> K <= K' -> (mag d <= IZR K')%R.
Proof. intros H Hk. apply IZR_le in Hk. lra. Qed.

Lemma energy_step_total data :
  Forms.fields_ok data = true -> Limits.within_limits data = true ->
  exists en, energy_step data = Ok en
             /\ (mag (fuel_cost en) <= IZR (10 ^ 16))%R
             /\ (mag (electric_cost en) <= IZR (10 ^ 16))%R.
Proof.
  intros Hf Hl. split_fields Hf. unfold energy_step.
  unfold Limits.within_limits in Hl.
  apply andb_true_iff in Hl. destruct Hl as [Hl _].
  apply andb_true_iff in Hl. destruct Hl as [Hl _].
  apply andb_true_iff in Hl. destruct Hl as [_ Hmile].
  match goal with
  | H : Forms.IntegerField 0 true (Py.get data "annual_mileage") = true |- _ =>
      destruct (int_field _ _ _ _ H Hmile) as [Hnone|(n & Hn & Hrange)];
      [rewrite Hnone in H; discriminate|]
  end.
  unfold Py.get in Hn. destruct (data !! "annual_mileage"%string) as [v|] eqn:Hlook;
    simpl in Hn; [|discriminate]. subst v.
  change (default (VInt 0) (Some (VInt n))) with (VInt n).
  cbn [Py.decimal_of_str]. rewrite Ok_bind.
  assert (Hmileage : (mag (of_Z n) <= IZR (10 ^ 9))%R).
  { rewrite mag_of_Z, Z.abs_eq by lia. apply IZR_le. lia. }
  coerce "fuel_consumption_per_100km"%string fc Hfc.
  coerce "electricity_consumption_per_100km"%string ec Hec.
  coerce "gas_price_per_liter"%string gp Hgp.
  coerce "electricity_price_per_kwh"%string ep Hep.
  destruct (annual_energy_total (of_Z n) fc gp Hmileage) as (fuel & -> & Hfuel);
    [pow10_literals; assumption|pow10_literals; assumption|].
  rewrite Ok_bind.
  destruct (annual_energy_total (of_Z n) ec ep Hmileage) as (elec & -> & Helec);
    [pow10_literals; assumption|pow10_literals; lra|].
  rewrite Ok_bind. eexists. split; [reflexivity|]. cbn. auto.
Qed.

(** A required int field that [clean] found present holds a positive int. *)
Lemma present_int data key hi :
  Forms.IntegerField 1 false (Py.get data key) = true ->
  Forms.present data key = true ->
  Limits.at_most hi (Py.get data key) = true ->
  exists n, Py.get data key = VInt n /\ 1 <= n <= hi.
Proof.
  intros Hf Hp Hm. unfold Forms.present in Hp.
  destruct (int_field _ _ _ _ Hf Hm) as [Hnone|(n & Hn & Hr)].
  - rewrite Hnone in Hp. discriminate.
  - eauto.
Qed.

Lemma acquisition_step_total data t :
  Forms.fields_ok data = true -> Forms.clean_ok data = true ->
  Limits.within_limits data = true ->
  (mag (tax_rate t) <= 10)%R ->
  (mag (taxable_base t) <= IZR (2 * 10 ^ 10))%R ->
  (mag (tax_amount t) <= IZR (2 * 10 ^ 11))%R ->
  exists a, acquisition_step data t = Ok a
            /\ (mag (acquisition_total a) <= IZR (10 ^ 24 + 10 ^ 10))%R.
Proof.
  intros Hf Hc Hl Hrate Htb Htax. split_fields Hf.
  literal_bound Htb. literal_bound Htax.
  unfold Limits.within_limits in Hl.
  apply andb_true_iff in Hl. destruct Hl as [Hl Hlterm].
  apply andb_true_iff in Hl. destruct Hl as [_ Hfterm].
  unfold Forms.clean_ok in Hc. cbv zeta in Hc.
  apply andb_true_iff in Hc. destruct Hc as [Hc _].
  apply andb_true_iff in Hc. destruct Hc as [Hc _].
  assert (Hcash : exists a, acquire_cash t = Ok a
            /\ (mag (acquisition_total a) <= IZR (10 ^ 24 + 10 ^ 10))%R).
  { unfold acquire_cash.
    ub_add (taxable_base t) (tax_amount t) tot Htot.
    eexists. split; [reflexivity|]. cbn [acquisition_total].
    apply (weaken_bound _ _ _ Htot). arith. }
  unfold acquisition_step. cbv zeta.
  destruct (decide (Py.get data "purchase_type" = VStr "cash")); [assumption|].
  destruct (decide (Py.get data "purchase_type" = VStr "finance")) as [Hfin|_].
  { clear Hcash. unfold acquire_finance.
    destruct (decide (Py.get data "purchase_type" = VStr "finance"));
      [|contradiction].
    apply andb_true_iff in Hc. destruct Hc as [_ Hpresent].
    coerce "finance_down_payment"%string down Hdown.
    ub_sub (taxable_base t) down net Hnet.
    assert (Hprincipal : (mag (Py.max net Py.D0) <= 30000000000)%R).
    { apply max_UB; [assumption|]. rewrite mag_D0. lra. }
    ub_add (Py.max net Py.D0) (tax_amount t) financed Hfinanced.
    coerce "finance_interest_rate"%string rate Hratem.
    match goal with
    | H : Forms.IntegerField 1 false (Py.get data "finance_term_months") = true |- _ =>
        destruct (present_int data _ _ H Hpresent Hfterm) as (months & -> & Hmonths)
    end.
    cbn [Py.int_of]. rewrite Ok_bind.
    destruct (schedule_total financed rate months) as (s & -> & Hs & _);
      try assumption; [apply (weaken_bound _ _ _ Hfinanced); arith|lia|].
    rewrite Ok_bind. pow10_literals.
    ub_add (total_paid s) down tot Htot.
    eexists. split; [reflexivity|]. cbn [acquisition_total].
    apply (weaken_bound _ _ _ Htot). arith. }
  destruct (decide (Py.get data "purchase_type" = VStr "lease")) as [Hlease|_];
    [|assumption].
  clear Hcash. unfold acquire_lease, lease_terms.
  destruct (decide (Py.get data "purchase_type" = VStr "finance")) as [Hfin|_].
  { rewrite Hfin in Hlease. discriminate. }
  destruct (decide (Py.get data "purchase_type" = VStr "lease")); [|contradiction].
  apply andb_true_iff in Hc. destruct Hc as [Hpresent _].
  match goal with
  | H : Forms.IntegerField 1 false (Py.get data "lease_term_months") = true |- _ =>
      destruct (present_int data _ _ H Hpresent Hlterm) as (months & -> & Hmonths)
  end.
  cbn [Py.int_of]. rewrite !Ok_bind.
  coerce "lease_monthly_payment"%string payment Hpayment.
  coerce "lease_drive_off_cost"%string drive Hdrive.
  assert (Hterm : (mag (of_Z months) <= IZR (10 ^ 4))%R).
  { rewrite mag_of_Z, Z.abs_eq by lia. apply IZR_le. lia. }
  literal_bound Hterm.
  destruct (mul_UB payment (of_Z months) _ _ Hpayment Hterm) as (payments & Epay & Hpayments & _);
    [arith|]. literal_bound Hpayments. rewrite Epay, Ok_bind.
  ub_add payments drive tot Htot.
  ub_mul tot (tax_rate t) gross Hgross.
  ub_quantize gross tax Htaxl.
  cbn [lease_total tax_on_lease lease_payment lease_term Services.drive_off].
  ub_add tot tax acq Hacq. rewrite Epay, Ok_bind.
  eexists. split; [reflexivity|]. cbn [acquisition_total].
  apply (weaken_bound _ _ _ Hacq). arith.
Qed.

Lemma over_horizon_total annual years Ka Ky :
  (mag annual <= IZR Ka)%R -> (mag years <= IZR Ky)%R -> Ka * Ky < 10 ^ 26 ->
  exists x, over_horizon annual years = Ok x /\ (mag x <= IZR (Ka * Ky))%R.
Proof.
  intros Ha Hy Hk. unfold over_horizon.
  pose proof (mag_nonneg annual). pose proof (mag_nonneg years).
  assert (0 <= Ka) by (apply le_IZR; lra).
  assert (0 <= Ky) by (apply le_IZR; lra).
  destruct (mul_UB annual years Ka Ky Ha Hy) as (tot & -> & Htot & _); [arith|].
  rewrite Ok_bind.
  destruct (quantize_UB ROUND_HALF_UP tot (Ka * Ky) ltac:(nia) Htot)
    as (x & -> & _ & Hx & _).
  eauto.
Qed.

Lemma mul_ge_1 a b c :
  mul a b = Ok c -> (1 <= mag a)%R -> (1 <= mag b)%R -> (1 <= mag c)%R.
Proof.
  intros Hc Ha Hb. unfold mul, mul_prec in Hc.
  pose proof (fix_prec_mag_ge prec (exact_mul a b) c 1 0 ltac:(arith) Hc
                ltac:(arith) ltac:(arith)) as H.
  rewrite p10_0, Rmult_1_r in H. apply H. rewrite mag_mul. nra.
Qed.

(** The engine reads the horizon under its own key only. *)
Lemma tax_step_ignores_horizon data v :
  tax_step (<["ownership_period_years"%string := v]> data) = tax_step data.
Proof. other_key. Qed.

Lemma acquisition_step_ignores_horizon data v t :
  acquisition_step (<["ownership_period_years"%string := v]> data) t
  = acquisition_step data t.
Proof. other_key. Qed.

Lemma energy_step_ignores_horizon data v :
  energy_step (<["ownership_period_years"%string := v]> data) = energy_step data.
Proof. other_key. Qed.

(** The locals of a run on validated input within the limits, with the
    horizon set to [y] years; [y] may be zero, which the form refuses. *)
Lemma estimate_locals_horizon data y :
  Forms.is_valid data = true -> Limits.within_limits data = true ->
  0 <= y <= 10 ^ 6 ->
  exists l,
    estimate_locals (<["ownership_period_years"%string := VInt y]> data) = Ok l
    /\ l_ownership_years l = of_Z y
    /\ (mag (l_ownership_years l) <= IZR (10 ^ 6))%R
    /\ (mag (acquisition_total (l_acquisition l)) <= IZR (10 ^ 24 + 10 ^ 10))%R
    /\ (mag (fuel_cost (l_energy l)) <= IZR (10 ^ 16))%R
    /\ (mag (electric_cost (l_energy l)) <= IZR (10 ^ 16))%R
    /\ (mag (l_insurance l) <= IZR (10 ^ 8))%R
    /\ (mag (l_maintenance l) <= IZR (10 ^ 8))%R
    /\ (mag (l_registration l) <= IZR (10 ^ 8))%R
    /\ (mag (l_parking l) <= IZR (10 ^ 8))%R
    /\ (mag (l_other l) <= IZR (10 ^ 8))%R
    /\ (mag (l_annual_recurring_total l) <= IZR (3 * 10 ^ 16))%R
    /\ (mag (l_charging_installation l) <= IZR (10 ^ 8))%R
    /\ (mag (l_residual_value l) <= IZR (10 ^ 10))%R.
Proof.
  intros Hv Hl Hrange. unfold Forms.is_valid in Hv.
  apply andb_true_iff in Hv. destruct Hv as [Hf Hc].
  destruct (tax_step_total data Hf) as (t & Et & Hrate & Htb & Htax).
  destruct (acquisition_step_total data t Hf Hc Hl Hrate Htb Htax)
    as (acq & Eacq & Hacq).
  destruct (energy_step_total data Hf Hl) as (en & Een & Hfuel & Helec).
  split_fields Hf. unfold estimate_locals.
  rewrite tax_step_ignores_horizon, energy_step_ignores_horizon.
  unfold Py.item at 1. rewrite lookup_insert_eq, Ok_bind.
  cbn [Py.decimal_of_str]. rewrite Ok_bind.
  rewrite Et, Ok_bind, acquisition_step_ignores_horizon, Eacq, Ok_bind, Een, Ok_bind.
  rewrite !get_insert_ne by discriminate.
  assert (Hym : (mag (of_Z y) <= IZR (10 ^ 6))%R).
  { rewrite mag_of_Z, Z.abs_eq by lia. apply IZR_le. lia. }
  literal_bound Hym. literal_bound Hacq. literal_bound Hfuel. literal_bound Helec.
  coerce "insurance_cost_annual"%string insurance Hins.
  coerce "maintenance_cost_annual"%string maintenance Hmaint.
  coerce "registration_fees_annual"%string registration Hreg.
  coerce "parking_cost_annual"%string parking Hpark.
  coerce "other_recurring_costs"%string other Hother.
  ub_add (fuel_cost en) (electric_cost en) s1 Hs1.
  ub_add s1 insurance s2 Hs2.
  ub_add s2 maintenance s3 Hs3.
  ub_add s3 registration s4 Hs4.
  ub_add s4 parking s5 Hs5.
  ub_add s5 other annual Hannual.
  destruct (over_horizon_total annual (of_Z y) _ _ Hannual Hym)
    as (recurring & -> & Hrec); [arith|]. rewrite Ok_bind. literal_bound Hrec.
  coerce "charging_installation_cost"%string charging Hcharging.
  coerce "residual_value"%string residual Hresidual.
  ub_add (acquisition_total acq) recurring t1 Ht1.
  ub_add t1 charging t2 Ht2.
  ub_sub t2 residual t3 Ht3.
  ub_quantize t3 grand Htotal.
  assert (Hmonthly : exists monthly,
    (if truthy (of_Z y) then
       months ← mul (of_Z y) Py.D12;
       per_month ← div grand months;
       Py.quantize per_month Py.D0_01 ROUND_HALF_UP
     else Ok Py.D0_00) = Ok monthly).
  { destruct (Z.eq_dec y 0) as [->|Hpos]; [cbn; eauto|].
    assert (Htruthy : truthy (of_Z y) = true).
    { unfold truthy, is_zero. apply negb_true_iff, N.eqb_neq, of_Z_nonzero. lia. }
    rewrite Htruthy.
    assert (HD12 : (mag Py.D12 <= 12)%R) by (rewrite mag_D12; lra).
    destruct (mul_UB (of_Z y) Py.D12 _ _ Hym HD12) as (months & Emonths & Hmonths & _);
      [arith|].
    pose proof (mul_ge_1 _ _ _ Emonths) as Hmlo.
    rewrite mag_of_Z, Z.abs_eq, mag_D12 in Hmlo by lia.
    specialize (Hmlo ltac:(apply IZR_le; lia) ltac:(lra)).
    rewrite Emonths, Ok_bind.
    match type of Htotal with
    | (_ <= IZR ?K)%R =>
        destruct (div_UB grand months K) as (per_month & -> & Hper & _);
        [apply mag_nonzero; lra|arith|pose proof (mag_nonneg grand); nra|]
    end.
    rewrite Ok_bind.
    ub_quantize per_month monthly Hmonthly. eauto. }
  destruct Hmonthly as (monthly & ->). rewrite Ok_bind.
  eexists. split; [reflexivity|].
  cbn [l_ownership_years l_acquisition l_energy l_insurance l_maintenance
       l_registration l_parking l_other l_annual_recurring_total
       l_charging_installation l_residual_value].
  pow10_literals.
  repeat split; try assumption.
  - apply (weaken_bound _ _ _ Hannual). lia.
Qed.

(** What the form checked about the horizon. *)
Lemma validated_horizon data :
  Forms.is_valid data = true -> Limits.within_limits data = true ->
  exists y, data !! "ownership_period_years"%string = Some (VInt y)
            /\ 1 <= y <= 10 ^ 6.
Proof.
  intros Hv Hl. unfold Forms.is_valid in Hv.
  apply andb_true_iff in Hv. destruct Hv as [Hf _].
  unfold Limits.within_limits in Hl.
  apply andb_true_iff in Hl. destruct Hl as [Hl _].
  apply andb_true_iff in Hl. destruct Hl as [Hl _].
  apply andb_true_iff in Hl. destruct Hl as [Hyears _].
  split_fields Hf.
  match goal with
  | H : Forms.IntegerField 1 true (Py.get data "ownership_period_years") = true |- _ =>
      destruct (int_field _ _ _ _ H Hyears) as [Hnone|(y & Hy & Hrange)];
      [rewrite Hnone in H; discriminate|]
  end.
  unfold Py.get in Hy.
  destruct (data !! "ownership_period_years"%string) as [v|] eqn:Hlook;
    simpl in Hy; [|discriminate]. subst v.
  exists y. split; [reflexivity|lia].
Qed.

(** The engine on validated input within the limits, with the horizon
    set to [y] years, raises nothing. *)
Lemma estimate_car_cost_horizon data y :
  Forms.is_valid data = true -> Limits.within_limits data = true ->
  0 <= y <= 10 ^ 6 ->
  exists r,
    estimate_car_cost (<["ownership_period_years"%string := VInt y]> data) = Ok r.
Proof.
  intros Hv Hl Hrange.
  destruct (estimate_locals_horizon data y Hv Hl Hrange)
    as (l & El & _ & Hy & Hacq & Hfuel & Helec & Hins & Hmaint & Hreg & Hpark
        & Hother & Hannual & Hcharging & Hresidual).
  unfold estimate_car_cost. rewrite El, Ok_bind. unfold breakdown_of.
  repeat match goal with H : (mag _ <= IZR _)%R |- _ => literal_bound H end.
  ub_quantize (acquisition_total (l_acquisition l)) acquisition Hq1.
  ub_add (fuel_cost (l_energy l)) (electric_cost (l_energy l)) e He.
  ub_quantize e energy Hq2.
  destruct (over_horizon_total _ _ _ _ Hins Hy) as (x1 & -> & _); [arith|].
  rewrite Ok_bind.
  destruct (over_horizon_total _ _ _ _ Hmaint Hy) as (x2 & -> & _); [arith|].
  rewrite Ok_bind.
  destruct (over_horizon_total _ _ _ _ Hreg Hy) as (x3 & -> & _); [arith|].
  rewrite Ok_bind.
  destruct (over_horizon_total _ _ _ _ Hpark Hy) as (x4 & -> & _); [arith|].
  rewrite Ok_bind.
  destruct (over_horizon_total _ _ _ _ Hother Hy) as (x5 & -> & _); [arith|].
  rewrite Ok_bind.
  ub_quantize (l_charging_installation l) charging Hq3.
  ub_quantize (l_residual_value l) residual Hq4.
  ub_quantize (l_annual_recurring_total l) annual Hq5.
  eauto.
Qed.

(** Validated input within the limits never makes the engine raise. *)
Lemma estimate_car_cost_total data :
  Forms.is_valid data = true -> Limits.within_limits data = true ->
  exists r, estimate_car_cost data = Ok r.
Proof.
  intros Hv Hl.
  destruct (validated_horizon data Hv Hl) as (y & Hy & Hrange).
  rewrite <- (insert_id data _ _ Hy).
  apply estimate_car_cost_horizon; [assumption|assumption|lia].
Qed.

Lemma estimate_locals_total data :
  Forms.is_valid data = true -> Limits.within_limits data = true ->
  exists l, estimate_locals data = Ok l
    /\ (mag (acquisition_total (l_acquisition l)) <= IZR (10 ^ 24 + 10 ^ 10))%R
    /\ (mag (l_residual_value l) <= IZR (10 ^ 10))%R.
Proof.
  intros Hv Hl.
  destruct (validated_horizon data Hv Hl) as (y & Hy & Hrange).
  destruct (estimate_locals_horizon data y Hv Hl ltac:(lia)) as (l & El & H).
  rewrite (insert_id data _ _ Hy) in El.
  exists l. split; [assumption|]. tauto.
Qed.

(** A number of at most [k] integer digits. *)
Lemma adjusted_bound d k :
  0 <= k -> adjusted d < k -> (mag d <= IZR (10 ^ k))%R.
Proof.
  intros Hk Ha. rewrite <- p10_IZR by assumption.
  destruct (N.eq_dec (dint d) 0%N) as [E|E].
  - rewrite (mag_zero d E). left. apply p10_pos.
  - destruct (mag_adjusted d E) as [_ Hlt].
    left. eapply Rlt_le_trans; [exact Hlt|]. apply p10_le. lia.
Qed.

Lemma leb_zero_val d : leb d (of_Z 0) = true <-> (val d <= 0)%R.
Proof.
  unfold leb. pose proof (cmp_val d (of_Z 0)) as H.
  rewrite val_of_Z in H.
  destruct (cmp d (of_Z 0)); split; intros; try reflexivity; try lra;
    discriminate.
Qed.

(** The guard of the scheduler: nothing is divided when the term or the
    principal is not positive. *)
Lemma schedule_guard principal rate term :
  adjusted principal < 25 ->
  term <= 0 \/ leb principal (of_Z 0) = true ->
  _calculate_finance_schedule principal rate term = Ok (mkSchedule Py.D0 Py.D0).
Proof.
  intros Ha Hguard. unfold _calculate_finance_schedule.
  pose proof (adjusted_bound principal 25 ltac:(lia) Ha) as Hm.
  destruct Hguard as [Hterm|Hneg].
  - destruct (quantize_UB ROUND_HALF_EVEN principal (10 ^ 25) ltac:(arith) Hm)
      as (p & -> & _).
    rewrite Ok_bind.
    replace (term <=? 0) with true by (symmetry; apply Z.leb_le; assumption).
    reflexivity.
  - apply leb_zero_val in Hneg.
    assert (Hq : exists p, Py.quantize principal Py.D0_01 ROUND_HALF_EVEN = Ok p
                           /\ (val p <= 0)%R).
    { destruct (dsign principal) eqn:Hs.
      - destruct (quantize_UB ROUND_HALF_EVEN principal (10 ^ 25) ltac:(arith) Hm)
          as (p & Ep & _ & _ & Hsp).
        exists p. split; [assumption|].
        rewrite val_neg by congruence. pose proof (mag_nonneg p). lra.
      - rewrite val_pos in Hneg by assumption.
        destruct (quantize_UB ROUND_HALF_EVEN principal 0 ltac:(arith) Hneg)
          as (p & Ep & _ & Hp & Hsp).
        exists p. split; [assumption|].
        rewrite val_pos by congruence. exact Hp. }
    destruct Hq as (p & -> & Hp). rewrite Ok_bind.
    apply leb_zero_val in Hp. rewrite Hp, orb_true_r. reflexivity.
Qed.

(** With a horizon of zero years the monthly cost is the literal 0.00. *)
Lemma estimate_locals_no_horizon data l :
  estimate_locals data = Ok l ->
  truthy (l_ownership_years l) = false -> l_monthly_cost l = Py.D0_00.
Proof.
  unfold estimate_locals. intros H.
  inv_binds H. injection H as <-. cbn [l_ownership_years l_monthly_cost].
  intros Hz.
  match goal with
  | E : (if truthy _ then _ else _) = Ok _ |- _ =>
      rewrite Hz in E; injection E as <-
  end.
  reflexivity.
Qed.

End Total.
(** ** Amounts in cents

    The amounts the engine adds up have at most two decimal places, so
    the sums it rounds to cents are exact. *)

Module Exact.
Import Dec DecFacts Mag Services Run Total.

(** Rounding to the context never lowers the exponent. *)
Lemma fix_prec_exp_ge p d d' e :
  1 <= p -> fix_prec p d = Ok d' -> e <= dexp d -> e <= Emax -> e <= dexp d'.
Proof.
  intros Hp H He Hmax.
  destruct (fix_prec_inv p d d' Hp H)
    as [_ [(_ & _ & Hexp)|[(_ & -> & _)|(_ & t & Ht & Hle & _)]]].
  - rewrite Hexp. lia.
  - assumption.
  - lia.
Qed.

Lemma add_exp_ge a b c e :
  add a b = Ok c -> e <= dexp a -> e <= dexp b -> e <= Emax -> e <= dexp c.
Proof.
  unfold add, add_prec. intros H Ha Hb Hmax.
  apply (fix_prec_exp_ge prec _ _ e ltac:(arith) H); [|assumption].
  unfold exact_add. cbv zeta. cbn [dexp]. lia.
Qed.

Lemma sub_exp_ge a b c e :
  sub a b = Ok c -> e <= dexp a -> e <= dexp b -> e <= Emax -> e <= dexp c.
Proof.
  unfold sub. intros H Ha Hb Hmax.
  apply (add_exp_ge _ _ _ e H); assumption.
Qed.

Lemma mul_exp_ge a b c e :
  mul a b = Ok c -> e <= dexp a + dexp b -> e <= Emax -> e <= dexp c.
Proof.
  unfold mul, mul_prec. intros H He Hmax.
  apply (fix_prec_exp_ge prec _ _ e ltac:(arith) H); assumption.
Qed.

Lemma max_exp_ge a b e :
  e <= dexp a -> e <= dexp b -> e <= dexp (Py.max a b).
Proof. intros Ha Hb. unfold Py.max. destruct (ltb a b); assumption. Qed.

Lemma quantize_cents d r q :
  Py.quantize d Py.D0_01 r = Ok q -> dexp q = -2.
Proof. unfold Py.quantize. intros H. apply quantize_exp in H. exact H. Qed.

Lemma val_sub_exact a b :
  val (exact_add a (copy_negate b)) = (val a - val b)%R.
Proof. rewrite val_exact_add, val_copy_negate. lra. Qed.

(** A difference of two amounts in cents that can be rounded to cents is
    the exact difference: had the context rounded the difference to its
    28 digits, rounding to cents would have needed more than 28. *)
Lemma sub_quantize_exact a b c r q :
  -2 <= dexp a -> -2 <= dexp b ->
  sub a b = Ok c -> Py.quantize c Py.D0_01 r = Ok q ->
  val q = (val a - val b)%R.
Proof.
  intros Ha Hb Hc Hq. unfold Py.quantize in Hq. cbn [Py.D0_01 dexp] in Hq.
  unfold sub, add, add_prec in Hc.
  pose proof (val_sub_exact a b) as Hval.
  remember (exact_add a (copy_negate b)) as e eqn:Ee.
  assert (He : -2 <= dexp e).
  { subst e. unfold exact_add. cbv zeta. cbn [dexp copy_negate]. lia. }
  destruct (fix_prec_inv prec e c ltac:(arith) Hc)
    as [_ [(Hz & Hz' & Hexp)|[(_ & -> & _)|(Hnz & t & Ht & Hle & Hmax & _ & _ & Hfull)]]].
  - rewrite (quantize_exact _ _ _ _ Hq).
    + rewrite <- Hval. rewrite (val_zero c Hz'), (val_zero e Hz). reflexivity.
    + rewrite Hexp. arith.
  - rewrite (quantize_exact _ _ _ _ Hq He). exact Hval.
  - exfalso.
    destruct (quantize_inv _ _ _ _ Hq) as (_ & _ & _ & Hfit).
    pose proof (ndigits_pos (dint e)) as Hnd.
    assert (Hreg : Emin - prec + 1 <= ndigits (dint e) + dexp e - prec) by arith.
    specialize (Hfull Hreg).
    assert (Hcnz : dint c <> 0%N).
    { intros Hc0. rewrite Hc0, ndigits_0 in Hfull. revert Hfull. arith. }
    specialize (Hfit Hcnz). unfold adjusted in Hfit. rewrite Hfull in Hfit.
    revert Hfit Hle Ht He. arith.
Qed.

(** A validated decimal field, once coerced. *)
Lemma field_exp md dp required v d :
  0 <= dp <= md -> Forms.DecimalField md dp required v = true ->
  _safe_decimal v = Ok d -> - dp <= dexp d.
Proof.
  intros Hmd Hf Hd.
  destruct (field_safe_decimal md dp required v Hmd Hf) as (d' & E & _ & He & _).
  rewrite E in Hd. injection Hd as <-. exact He.
Qed.

(** The exponent of the coerced field [key], from its validation. *)
Ltac cents key :=
  match goal with
  | H : Forms.DecimalField ?md ?dp ?r (Py.get ?data key) = true,
    E : _safe_decimal (Py.get ?data key) = Ok ?d |- _ =>
      let He := fresh "Hcents" in
      pose proof (field_exp md dp r _ d ltac:(lia) H E) as He;
      cbn in He
  end.

Lemma schedule_exp principal rate term s :
  _calculate_finance_schedule principal rate term = Ok s ->
  -2 <= dexp (total_paid s).
Proof.
  unfold _calculate_finance_schedule. intros H. inv_bind H.
  destruct ((term <=? 0) || leb x (of_Z 0)).
  - injection H as <-. cbn. lia.
  - inv_binds H. injection H as <-. cbn [total_paid].
    match goal with
    | E : Py.quantize _ _ _ = Ok ?q |- _ <= dexp ?q =>
        rewrite (quantize_cents _ _ _ E)
    end.
    lia.
Qed.

Lemma tax_step_exp data t :
  Forms.fields_ok data = true -> tax_step data = Ok t ->
  -2 <= dexp (taxable_base t) /\ dexp (tax_amount t) = -2.
Proof.
  intros Hf H. split_fields Hf. unfold tax_step in H.
  inv_binds H. injection H as <-. cbn [taxable_base tax_amount].
  cents "car_purchase_price"%string. cents "incentives_rebates"%string.
  split.
  - apply max_exp_ge; [|cbn; lia].
    eapply sub_exp_ge; [eassumption|lia|lia|arith].
  - eapply quantize_cents. eassumption.
Qed.

Lemma acquire_cash_exp t acq :
  -2 <= dexp (taxable_base t) -> dexp (tax_amount t) = -2 ->
  acquire_cash t = Ok acq -> -2 <= dexp (acquisition_total acq).
Proof.
  intros Hbase Htax H. unfold acquire_cash in H.
  inv_binds H. injection H as <-. cbn [acquisition_total].
  eapply add_exp_ge; [eassumption|lia|lia|arith].
Qed.

Lemma acquire_finance_exp data t acq :
  Forms.fields_ok data = true ->
  acquire_finance data t = Ok acq -> -2 <= dexp (acquisition_total acq).
Proof.
  intros Hf H. split_fields Hf. unfold acquire_finance in H.
  inv_binds H. injection H as <-. cbn [acquisition_total].
  cents "finance_down_payment"%string.
  eapply add_exp_ge; [eassumption| |lia|arith].
  eapply schedule_exp. eassumption.
Qed.

Lemma acquire_lease_exp data t acq :
  Forms.fields_ok data = true ->
  acquire_lease data t = Ok acq -> -2 <= dexp (acquisition_total acq).
Proof.
  intros Hf H. split_fields Hf. unfold acquire_lease in H.
  inv_bind H. rename x into l, E into El. inv_binds H.
  injection H as <-. cbn [acquisition_total].
  unfold lease_terms in El. inv_binds El. injection El as <-.
  cbn [lease_total tax_on_lease lease_payment lease_term] in *.
  cents "lease_monthly_payment"%string. cents "lease_drive_off_cost"%string.
  repeat match goal with
  | E : mul ?a (of_Z ?n) = Ok ?c |- _ =>
      lazymatch goal with
      | _ : -2 <= dexp c |- _ => fail
      | _ => assert (-2 <= dexp c)
               by (apply (mul_exp_ge _ _ _ (-2) E); [cbn [of_Z dexp]; lia|arith])
      end
  end.
  repeat match goal with
  | E : Py.quantize _ Py.D0_01 _ = Ok ?c |- _ =>
      lazymatch goal with
      | _ : dexp c = -2 |- _ => fail
      | _ => pose proof (quantize_cents _ _ _ E)
      end
  end.
  eapply add_exp_ge; [eassumption| |lia|arith].
  eapply add_exp_ge; [eassumption|assumption|lia|arith].
Qed.

Lemma acquisition_step_exp data t acq :
  Forms.fields_ok data = true -> tax_step data = Ok t ->
  acquisition_step data t = Ok acq -> -2 <= dexp (acquisition_total acq).
Proof.
  intros Hf Ht H. destruct (tax_step_exp data t Hf Ht) as [Hbase Htax].
  unfold acquisition_step in H. cbv zeta in H.
  repeat case_decide;
    eauto using acquire_cash_exp, acquire_finance_exp, acquire_lease_exp.
Qed.

(** The total cost of a run on validated fields is the unrounded
    acquisition + recurring + charging, less the residual value. *)
Lemma total_cost_value data l :
  Forms.fields_ok data = true -> estimate_locals data = Ok l ->
  exists t1 t2,
    add (acquisition_total (l_acquisition l)) (l_recurring_total l) = Ok t1
    /\ add t1 (l_charging_installation l) = Ok t2
    /\ val (l_total_cost l) = (val t2 - val (l_residual_value l))%R
    /\ dexp (l_total_cost l) = -2.
Proof.
  intros Hf H.
  destruct (estimate_locals_inv data l H) as (_ & Ht & Hacq & _).
  pose proof (acquisition_step_exp _ _ _ Hf Ht Hacq) as Hexp.
  clear Ht Hacq. split_fields Hf. unfold estimate_locals in H.
  inv_binds H. injection H as <-.
  cbn [l_acquisition l_recurring_total l_charging_installation
       l_total_cost l_residual_value] in *.
  cents "charging_installation_cost"%string. cents "residual_value"%string.
  match goal with
  | E : over_horizon _ _ = Ok ?c |- _ =>
      destruct (over_horizon_inv _ _ _ E) as (? & _ & Hq);
      apply quantize_cents in Hq
  end.
  match goal with
  | E1 : add (acquisition_total ?acq) ?rec = Ok ?t1,
    E2 : add ?t1 ?ch = Ok ?t2,
    E3 : sub ?t2 ?res = Ok ?t3,
    E4 : Py.quantize ?t3 Py.D0_01 _ = Ok ?tc |- _ =>
      exists t1, t2; split; [exact E1|]; split; [exact E2|]; split;
      [|exact (quantize_cents _ _ _ E4)];
      refine (sub_quantize_exact _ _ _ _ _ _ _ E3 E4); [|lia];
      eapply add_exp_ge; [exact E2| |lia|arith];
      eapply add_exp_ge; [exact E1|assumption|lia|arith]
  end.
Qed.

(** *** Changing the residual value only *)

Lemma get_insert_eq (data : gmap string PyValue) k v :
  Py.get (<[k:=v]> data) k = v.
Proof. unfold Py.get. rewrite lookup_insert_eq. reflexivity. Qed.

Lemma tax_step_ignores_residual data v :
  tax_step (<["residual_value"%string := v]> data) = tax_step data.
Proof. other_key. Qed.

Lemma acquisition_step_ignores_residual data v t :
  acquisition_step (<["residual_value"%string := v]> data) t
  = acquisition_step data t.
Proof. other_key. Qed.

Lemma energy_step_ignores_residual data v :
  energy_step (<["residual_value"%string := v]> data) = energy_step data.
Proof. other_key. Qed.

(** Two runs of the same computation bind the same values. *)
Ltac same_runs :=
  repeat match goal with
  | E1 : ?m = Ok ?a, E2 : ?m = Ok ?b |- _ =>
      rewrite E1 in E2; injection E2 as <-
  end.

(** What the engine computes before it reads the residual value does not
    change with it. *)
Lemma locals_ignore_residual data v l1 l2 :
  estimate_locals data = Ok l1 ->
  estimate_locals (<["residual_value"%string := v]> data) = Ok l2 ->
  l_acquisition l2 = l_acquisition l1
  /\ l_recurring_total l2 = l_recurring_total l1
  /\ l_charging_installation l2 = l_charging_installation l1.
Proof.
  intros H1 H2. unfold estimate_locals in H1, H2.
  rewrite tax_step_ignores_residual, energy_step_ignores_residual in H2.
  rewrite item_insert_ne in H2 by discriminate.
  inv_bind H1. inv_bind H1. inv_bind H1.
  inv_bind H2. inv_bind H2. inv_bind H2. same_runs.
  rewrite acquisition_step_ignores_residual in H2.
  rewrite get_insert_eq, !get_insert_ne in H2 by discriminate.
  do 15 inv_bind H1. do 15 inv_bind H2. same_runs.
  inv_binds H1. inv_binds H2.
  injection H1 as <-. injection H2 as <-.
  cbn [l_acquisition l_recurring_total l_charging_installation].
  repeat split.
Qed.

(** A validated residual value in place of the old one leaves the input
    valid, and within the limits. *)
Lemma is_valid_insert_residual data v :
  Forms.is_valid data = true ->
  Forms.DecimalField 12 2 false v = true ->
  Forms.is_valid (<["residual_value"%string := v]> data) = true.
Proof.
  unfold Forms.is_valid. intros H Hv.
  apply andb_true_iff in H. destruct H as [Hf Hc].
  apply andb_true_iff. split.
  - split_fields Hf. unfold Forms.fields_ok. cbv zeta.
    rewrite get_insert_eq, !get_insert_ne by discriminate.
    repeat (apply andb_true_iff; split); assumption.
  - unfold Forms.clean_ok, Forms.present in *. cbv zeta in *.
    rewrite !get_insert_ne by discriminate. exact Hc.
Qed.

Lemma within_limits_insert_residual data v :
  Limits.within_limits data = true ->
  Limits.within_limits (<["residual_value"%string := v]> data) = true.
Proof.
  unfold Limits.within_limits. intros H.
  rewrite !get_insert_ne by discriminate. exact H.
Qed.

Lemma ltb_val a b : ltb a b = true <-> (val a < val b)%R.
Proof.
  unfold ltb. pose proof (cmp_val a b) as H.
  destruct (cmp a b); split; intros; try reflexivity; try lra; discriminate.
Qed.

(** *** Sums of amounts in cents *)

Lemma exact_add_comm a b : exact_add a b = exact_add b a.
Proof.
  unfold exact_add. cbv zeta.
  rewrite (Z.min_comm (dexp a) (dexp b)).
  rewrite (Z.add_comm (aligned a _) (aligned b _)).
  f_equal.
  destruct (_ =? 0); [|reflexivity].
  destruct (is_zero a), (is_zero b), (dsign a), (dsign b); reflexivity.
Qed.

Lemma add_comm a b : add a b = add b a.
Proof. unfold add, add_prec. rewrite exact_add_comm. reflexivity. Qed.

(** A sum of two amounts in cents that stays below 10^26 is exact: it
    has at most 28 digits. *)
Lemma add_cents_exact a b c K :
  -2 <= dexp a -> -2 <= dexp b -> add a b = Ok c ->
  (mag c <= IZR K)%R -> K < 10 ^ 26 ->
  val c = (val a + val b)%R /\ -2 <= dexp c.
Proof.
  intros Ha Hb Hc Hm HK.
  split; [|apply (add_exp_ge _ _ _ (-2) Hc); [assumption|assumption|arith]].
  unfold add, add_prec in Hc.
  pose proof (val_exact_add a b) as Hval.
  remember (exact_add a b) as e eqn:Ee.
  assert (He : -2 <= dexp e).
  { subst e. unfold exact_add. cbv zeta. cbn [dexp]. lia. }
  destruct (fix_prec_inv prec e c ltac:(arith) Hc)
    as [_ [(Hz & Hz' & _)|[(_ & -> & _)|(Hnz & t & Ht & Hle & _ & _ & _ & Hfull)]]].
  - rewrite <- Hval, (val_zero c Hz'), (val_zero e Hz). reflexivity.
  - exact Hval.
  - exfalso.
    pose proof (ndigits_pos (dint e)) as Hnd.
    assert (Hreg : Emin - prec + 1 <= ndigits (dint e) + dexp e - prec) by arith.
    specialize (Hfull Hreg).
    assert (Hcnz : dint c <> 0%N).
    { intros Hc0. rewrite Hc0, ndigits_0 in Hfull. revert Hfull. arith. }
    destruct (mag_adjusted c Hcnz) as [Hlo _].
    assert (Hadj : 26 <= adjusted c).
    { unfold adjusted. rewrite Hfull. revert Hle Ht He. arith. }
    pose proof (p10_le _ _ Hadj) as Hp.
    rewrite (p10_IZR 26) in Hp by lia.
    apply IZR_lt in HK. lra.
Qed.

End Exact.

(** ** The books of a run

    On validated input within the limits no sum or product of the engine
    is rounded: every amount is a whole number of cents of fewer than 28
    digits. *)

Module Ledger.
Import Dec DecFacts Mag Services Run Total Exact.

Lemma val_exact_mul a b : val (exact_mul a b) = (val a * val b)%R.
Proof.
  unfold val, exact_mul, signed. cbn [dsign dint dexp].
  rewrite p10_add, N2Z.inj_mul.
  destruct (dsign a), (dsign b); cbn [xorb];
    rewrite ?opp_IZR, ?mult_IZR, ?opp_IZR; ring.
Qed.

(** An amount in cents below 10^26 is not touched by the context. *)
Lemma fix_cents_exact e c K :
  -2 <= dexp e -> fix_prec prec e = Ok c ->
  (mag c <= IZR K)%R -> K < 10 ^ 26 ->
  val c = val e /\ -2 <= dexp c.
Proof.
  intros He Hc Hm HK.
  split; [|apply (fix_prec_exp_ge prec e c (-2) ltac:(arith) Hc He); arith].
  destruct (fix_prec_inv prec e c ltac:(arith) Hc)
    as [_ [(Hz & Hz' & _)|[(_ & -> & _)|(Hnz & t & Ht & Hle & _ & _ & _ & Hfull)]]].
  - rewrite (val_zero c Hz'), (val_zero e Hz). reflexivity.
  - reflexivity.
  - exfalso.
    pose proof (ndigits_pos (dint e)) as Hnd.
    assert (Hreg : Emin - prec + 1 <= ndigits (dint e) + dexp e - prec) by arith.
    specialize (Hfull Hreg).
    assert (Hcnz : dint c <> 0%N).
    { intros Hc0. rewrite Hc0, ndigits_0 in Hfull. revert Hfull. arith. }
    destruct (mag_adjusted c Hcnz) as [Hlo _].
    assert (Hadj : 26 <= adjusted c).
    { unfold adjusted. rewrite Hfull. revert Hle Ht He. arith. }
    pose proof (p10_le _ _ Hadj) as Hp.
    rewrite (p10_IZR 26) in Hp by lia.
    apply IZR_lt in HK. lra.
Qed.

Lemma add_cents a b c Ka Kb :
  -2 <= dexp a -> -2 <= dexp b ->
  (mag a <= IZR Ka)%R -> (mag b <= IZR Kb)%R -> Ka + Kb < 10 ^ 26 ->
  add a b = Ok c ->
  val c = (val a + val b)%R /\ -2 <= dexp c /\ (mag c <= IZR (Ka + Kb))%R.
Proof.
  intros Ha Hb Hma Hmb HK Hc.
  destruct (add_UB a b Ka Kb Hma Hmb) as (c' & E & Hm); [arith|].
  rewrite Hc in E. injection E as <-.
  destruct (add_cents_exact a b c _ Ha Hb Hc Hm HK) as [Hv He]. auto.
Qed.

Lemma sub_cents a b c Ka Kb :
  -2 <= dexp a -> -2 <= dexp b ->
  (mag a <= IZR Ka)%R -> (mag b <= IZR Kb)%R -> Ka + Kb < 10 ^ 26 ->
  sub a b = Ok c ->
  val c = (val a - val b)%R /\ -2 <= dexp c /\ (mag c <= IZR (Ka + Kb))%R.
Proof.
  intros Ha Hb Hma Hmb HK Hc. unfold sub in Hc.
  rewrite <- (mag_copy_negate b) in Hmb.
  destruct (add_cents a (copy_negate b) c Ka Kb Ha Hb Hma Hmb HK Hc)
    as (Hv & He & Hm).
  rewrite val_copy_negate in Hv. split; [lra|auto].
Qed.

Lemma mul_cents a b c Ka Kb :
  -2 <= dexp a + dexp b ->
  (mag a <= IZR Ka)%R -> (mag b <= IZR Kb)%R -> Ka * Kb < 10 ^ 26 ->
  mul a b = Ok c ->
  val c = (val a * val b)%R /\ -2 <= dexp c /\ (mag c <= IZR (Ka * Kb))%R.
Proof.
  intros He Hma Hmb HK Hc.
  destruct (mul_UB a b Ka Kb Hma Hmb) as (c' & E & Hm & _); [arith|].
  rewrite Hc in E. injection E as <-.
  unfold mul, mul_prec in Hc.
  destruct (fix_cents_exact (exact_mul a b) c _ He Hc Hm HK) as [Hv Hx].
  rewrite val_exact_mul in Hv. auto.
Qed.

Lemma quantize_cents_exact d r q K :
  -2 <= dexp d -> (mag d <= IZR K)%R ->
  Py.quantize d Py.D0_01 r = Ok q ->
  val q = val d /\ dexp q = -2 /\ (mag q <= IZR K)%R.
Proof.
  intros He Hm Hq. split; [|split].
  - unfold Py.quantize in Hq. apply (quantize_exact _ _ _ _ Hq). exact He.
  - exact (quantize_cents _ _ _ Hq).
  - rewrite !mag_abs_val in *. unfold Py.quantize in Hq.
    rewrite (quantize_exact _ _ _ _ Hq He). exact Hm.
Qed.

Lemma over_horizon_cents annual years x Ka Ky :
  -2 <= dexp annual -> 0 <= dexp years ->
  (mag annual <= IZR Ka)%R -> (mag years <= IZR Ky)%R -> Ka * Ky < 10 ^ 26 ->
  over_horizon annual years = Ok x ->
  val x = (val annual * val years)%R /\ dexp x = -2
  /\ (mag x <= IZR (Ka * Ky))%R.
Proof.
  intros Ha Hy Hma Hmy HK Hx.
  destruct (over_horizon_inv _ _ _ Hx) as (tot & Etot & Hq).
  destruct (mul_cents annual years tot Ka Ky ltac:(lia) Hma Hmy HK Etot)
    as (Hv & He & Hm).
  destruct (quantize_cents_exact tot _ x _ He Hm Hq) as (Hvq & Heq & Hmq).
  rewrite Hvq, Hv. auto.
Qed.

Lemma annual_energy_cost_exp m c p x :
  annual_energy_cost m c p = Ok x -> -2 <= dexp x.
Proof.
  intros Hx. apply annual_energy_cost_inv in Hx.
  destruct (is_zero c || is_zero p).
  - subst x. cbn. lia.
  - destruct Hx as (? & ? & ? & _ & _ & _ & Hq).
    rewrite (quantize_cents _ _ _ Hq). lia.
Qed.

(** What is known of the locals of a run on validated input within the
    limits: the horizon, the size of every amount and its decimal places. *)
Lemma validated_locals data l :
  Forms.is_valid data = true -> Limits.within_limits data = true ->
  estimate_locals data = Ok l ->
  exists y,
    data !! "ownership_period_years"%string = Some (VInt y)
    /\ 1 <= y <= 10 ^ 6
    /\ l_ownership_years l = of_Z y
    /\ ((mag (acquisition_total (l_acquisition l)) <= IZR (10 ^ 24 + 10 ^ 10))%R
        /\ (mag (fuel_cost (l_energy l)) <= IZR (10 ^ 16))%R
        /\ (mag (electric_cost (l_energy l)) <= IZR (10 ^ 16))%R
        /\ (mag (l_insurance l) <= IZR (10 ^ 8))%R
        /\ (mag (l_maintenance l) <= IZR (10 ^ 8))%R
        /\ (mag (l_registration l) <= IZR (10 ^ 8))%R
        /\ (mag (l_parking l) <= IZR (10 ^ 8))%R
        /\ (mag (l_other l) <= IZR (10 ^ 8))%R
        /\ (mag (l_charging_installation l) <= IZR (10 ^ 8))%R
        /\ (mag (l_residual_value l) <= IZR (10 ^ 10))%R)
    /\ (-2 <= dexp (acquisition_total (l_acquisition l))
        /\ -2 <= dexp (fuel_cost (l_energy l))
        /\ -2 <= dexp (electric_cost (l_energy l))
        /\ -2 <= dexp (l_insurance l)
        /\ -2 <= dexp (l_maintenance l)
        /\ -2 <= dexp (l_registration l)
        /\ -2 <= dexp (l_parking l)
        /\ -2 <= dexp (l_other l)
        /\ -2 <= dexp (l_charging_installation l)
        /\ -2 <= dexp (l_residual_value l)).
Proof.
  intros Hv Hl El.
  destruct (validated_horizon data Hv Hl) as (y & Hy & Hrange).
  destruct (estimate_locals_horizon data y Hv Hl ltac:(lia))
    as (l' & El' & Hyears & _ & Hacq & Hfuel & Helec & Hins & Hmaint & Hreg
        & Hpark & Hother & _ & Hcharging & Hresidual).
  rewrite (insert_id data _ _ Hy), El in El'. injection El' as <-.
  exists y. split; [assumption|]. split; [assumption|]. split; [assumption|].
  split; [repeat split; assumption|].
  unfold Forms.is_valid in Hv. apply andb_true_iff in Hv. destruct Hv as [Hf _].
  destruct (estimate_locals_inv _ _ El)
    as (_ & Et & Ea & Een & Ei & Em & Er & Ep & Eo & Ech & Eres).
  pose proof (acquisition_step_exp _ _ _ Hf Et Ea) as Haexp.
  assert (Henergy : -2 <= dexp (fuel_cost (l_energy l))
                    /\ -2 <= dexp (electric_cost (l_energy l))).
  { unfold energy_step in Een. inv_binds Een. injection Een as Een.
    rewrite <- Een. cbn [fuel_cost electric_cost].
    split; eapply annual_energy_cost_exp; eassumption. }
  destruct Henergy as [Hfexp Heexp].
  split_fields Hf.
  cents "insurance_cost_annual"%string. cents "maintenance_cost_annual"%string.
  cents "registration_fees_annual"%string. cents "parking_cost_annual"%string.
  cents "other_recurring_costs"%string.
  cents "charging_installation_cost"%string. cents "residual_value"%string.
  repeat split; assumption.
Qed.

(** Book one sum (or difference) whose terms are known in cents. *)
Ltac book_add :=
  match goal with
  | E : add ?a ?b = Ok ?c, Ha : -2 <= dexp ?a, Hb : -2 <= dexp ?b,
    Ma : (mag ?a <= IZR ?Ka)%R, Mb : (mag ?b <= IZR ?Kb)%R |- _ =>
      lazymatch goal with
      | _ : val c = (val a + val b)%R |- _ => fail
      | _ => idtac
      end;
      let Hv := fresh "Hval" in
      let He := fresh "Hexp" in
      let Hm := fresh "Hmag" in
      destruct (add_cents a b c Ka Kb Ha Hb Ma Mb ltac:(vm_compute; reflexivity) E)
        as (Hv & He & Hm)
  | E : sub ?a ?b = Ok ?c, Ha : -2 <= dexp ?a, Hb : -2 <= dexp ?b,
    Ma : (mag ?a <= IZR ?Ka)%R, Mb : (mag ?b <= IZR ?Kb)%R |- _ =>
      lazymatch goal with
      | _ : val c = (val a - val b)%R |- _ => fail
      | _ => idtac
      end;
      let Hv := fresh "Hval" in
      let He := fresh "Hexp" in
      let Hm := fresh "Hmag" in
      destruct (sub_cents a b c Ka Kb Ha Hb Ma Mb ltac:(vm_compute; reflexivity) E)
        as (Hv & He & Hm)
  end.

(** The books of a run on validated input within the limits: the annual
    recurring total is the sum of its seven terms, the recurring total is
    that sum times the years, and the total cost is acquisition +
    recurring + charging - residual, none of them rounded. *)
Lemma locals_books data l :
  Forms.is_valid data = true -> Limits.within_limits data = true ->
  estimate_locals data = Ok l ->
  exists y,
    data !! "ownership_period_years"%string = Some (VInt y)
    /\ 1 <= y <= 10 ^ 6
    /\ val (l_annual_recurring_total l)
       = (val (fuel_cost (l_energy l)) + val (electric_cost (l_energy l))
          + val (l_insurance l) + val (l_maintenance l)
          + val (l_registration l) + val (l_parking l) + val (l_other l))%R
    /\ -2 <= dexp (l_annual_recurring_total l)
    /\ (mag (l_annual_recurring_total l) <= IZR (3 * 10 ^ 16))%R
    /\ val (l_recurring_total l) = (val (l_annual_recurring_total l) * IZR y)%R
    /\ val (l_total_cost l)
       = (val (acquisition_total (l_acquisition l)) + val (l_recurring_total l)
          + val (l_charging_installation l) - val (l_residual_value l))%R.
Proof.
  intros Hv Hl El.
  destruct (validated_locals data l Hv Hl El)
    as (y & Hy & Hrange & Hyears & Hmags & Hexps).
  exists y. split; [assumption|]. split; [assumption|].
  unfold estimate_locals in El. inv_binds El. injection El as <-.
  cbn [l_ownership_years l_acquisition l_energy l_insurance l_maintenance
       l_registration l_parking l_other l_annual_recurring_total
       l_recurring_total l_charging_installation l_residual_value
       l_total_cost] in *.
  destruct Hmags as (? & ? & ? & ? & ? & ? & ? & ? & ? & ?).
  destruct Hexps as (? & ? & ? & ? & ? & ? & ? & ? & ? & ?).
  do 6 book_add.
  subst.
  assert (Hym : (mag (of_Z y) <= IZR (10 ^ 6))%R).
  { rewrite mag_of_Z, Z.abs_eq by lia. apply IZR_le. lia. }
  match goal with
  | E : over_horizon ?annual (of_Z y) = Ok ?x,
    He : -2 <= dexp ?annual, Hm : (mag ?annual <= IZR ?Ka)%R |- _ =>
      destruct (over_horizon_cents annual (of_Z y) x Ka (10 ^ 6) He
                  ltac:(cbn; lia) Hm Hym ltac:(vm_compute; reflexivity) E)
        as (Hrec & Hrexp & Hrmag);
      assert (Hrexp' : -2 <= dexp x) by (rewrite Hrexp; reflexivity)
  end.
  rewrite val_of_Z in Hrec.
  do 3 book_add.
  match goal with
  | E : Py.quantize ?t Py.D0_01 _ = Ok ?q, He : -2 <= dexp ?t,
    Hm : (mag ?t <= IZR _)%R |- _ =>
      destruct (quantize_cents_exact t _ q _ He Hm E) as (Hq & _ & _)
  end.
  split; [lra|]. split; [assumption|].
  split; [eapply weaken_bound; [eassumption|vm_compute; discriminate]|].
  split; [assumption|]. lra.
Qed.

End Ledger.

(** ** The view and its suggestions *)

Module ViewFacts.
Import Dec Services Run Views.

Lemma setdefault_lookup d k v k' :
  setdefault d k v !! k'
  = if decide (k' = k) then Some (default v (d !! k)) else d !! k'.
Proof.
  unfold setdefault. destruct (d !! k) as [x|] eqn:E.
  - destruct (decide (k' = k)) as [->|]; [rewrite E|]; reflexivity.
  - destruct (decide (k' = k)) as [->|Hne].
    + rewrite lookup_insert_eq. reflexivity.
    + rewrite lookup_insert_ne by congruence. reflexivity.
Qed.

Lemma setdefault_subseteq d k v : d ⊆ setdefault d k v.
Proof.
  unfold setdefault. destruct (d !! k) eqn:E; [reflexivity|].
  apply insert_subseteq. assumption.
Qed.

(** One replacement: the field is looked at and nothing else. *)
Lemma apply_suggestion_lookup field suggestion message st k :
  fst (apply_suggestion field suggestion message st) !! k
  = match suggestion with
    | Some price =>
        if decide (k = field) then
          if Py.empty_like (Py.get (fst st) field) && truthy price
          then Some (VDec price) else fst st !! k
        else fst st !! k
    | None => fst st !! k
    end.
Proof.
  unfold apply_suggestion. destruct suggestion as [price|]; [|reflexivity].
  destruct (Py.empty_like (Py.get (fst st) field) && truthy price).
  - cbn [fst]. destruct (decide (k = field)) as [->|Hne].
    + rewrite lookup_insert_eq. reflexivity.
    + rewrite lookup_insert_ne by congruence. reflexivity.
  - destruct (decide (k = field)); reflexivity.
Qed.

Lemma apply_suggestion_get field suggestion message st k :
  k <> field ->
  Py.get (fst (apply_suggestion field suggestion message st)) k
  = Py.get (fst st) k.
Proof.
  intros Hne. unfold Py.get. rewrite apply_suggestion_lookup.
  destruct suggestion; [|reflexivity].
  destruct (decide (k = field)); [contradiction|reflexivity].
Qed.

(** A validated value under one of the three fields that take a
    suggestion leaves the input valid, and within the limits. *)
Lemma is_valid_insert_suggestion data k md dp v :
  (k, (md, dp)) ∈ [("gas_price_per_liter"%string, (7, 3));
                   ("electricity_price_per_kwh"%string, (7, 4));
                   ("local_tax_rate"%string, (6, 3))] ->
  Forms.is_valid data = true ->
  Forms.DecimalField md dp false v = true -> v <> VNone ->
  Forms.is_valid (<[k := v]> data) = true.
Proof.
  intros Hk H Hv Hnone.
  assert (Hv' : Forms.DecimalField md dp true v = true).
  { destruct v; try discriminate; [contradiction|exact Hv]. }
  unfold Forms.is_valid in *.
  apply andb_true_iff in H. destruct H as [Hf Hc].
  apply andb_true_iff.
  rewrite !elem_of_cons in Hk.
  destruct Hk as [Hk|[Hk|[Hk|Hk]]];
    [| | |apply elem_of_nil in Hk; contradiction];
    injection Hk as -> -> ->.
  - split.
    + Total.split_fields Hf. unfold Forms.fields_ok. cbv zeta.
      rewrite Exact.get_insert_eq, !get_insert_ne by discriminate.
      repeat (apply andb_true_iff; split); assumption.
    + unfold Forms.clean_ok, Forms.present in *. cbv zeta in *.
      rewrite !get_insert_ne by discriminate. exact Hc.
  - split.
    + Total.split_fields Hf. unfold Forms.fields_ok. cbv zeta.
      rewrite Exact.get_insert_eq, !get_insert_ne by discriminate.
      repeat (apply andb_true_iff; split); assumption.
    + unfold Forms.clean_ok, Forms.present in *. cbv zeta in *.
      rewrite !get_insert_ne by discriminate. exact Hc.
  - split.
    + Total.split_fields Hf. unfold Forms.fields_ok. cbv zeta.
      rewrite Exact.get_insert_eq, !get_insert_ne by discriminate.
      repeat (apply andb_true_iff; split); assumption.
    + unfold Forms.clean_ok, Forms.present in *. cbv zeta in *.
      rewrite !get_insert_ne by discriminate. exact Hc.
Qed.

Lemma within_limits_insert_decimal data k d :
  Limits.within_limits data = true ->
  Limits.within_limits (<[k := VDec d]> data) = true.
Proof.
  unfold Limits.within_limits. intros H.
  assert (Hget : forall k' n,
            Limits.at_most n (Py.get data k') = true ->
            Limits.at_most n (Py.get (<[k := VDec d]> data) k') = true).
  { intros k' n Hn. destruct (decide (k = k')) as [->|Hne].
    - rewrite Exact.get_insert_eq. reflexivity.
    - rewrite get_insert_ne by assumption. exact Hn. }
  repeat (apply andb_true_iff in H; destruct H as [H ?]).
  repeat (apply andb_true_iff; split); apply Hget; assumption.
Qed.

(** *** Messages and replacements go together *)

Section replaced.
Variable cleaned : gmap string PyValue.

Lemma in_step_apply done field suggestion message st :
  in_step cleaned done st -> field ∉ done ->
  in_step cleaned (field :: done) (apply_suggestion field suggestion message st).
Proof.
  intros Hst Hfield. unfold apply_suggestion.
  destruct suggestion as [price|].
  1: destruct (Py.empty_like (Py.get (fst st) field) && truthy price) eqn:Hb.
  2,3: destruct Hst as [?|(Hm & k & p & Hk & H)]; [left; assumption|right];
       (split; [assumption|]); exists k, p;
       (split; [apply elem_of_cons; right; assumption|assumption]).
  apply andb_true_iff in Hb. destruct Hb as [Hempty Hp].
  right. cbn [fst snd]. split; [destruct (snd st); discriminate|].
  destruct Hst as [[_ Hsame]|(_ & k & p & Hk & Hke & Hkp & Hlook)].
  - exists field, price. rewrite Hsame in Hempty.
    split; [apply elem_of_cons; left; reflexivity|]. split; [assumption|].
    split; [assumption|]. apply lookup_insert_eq.
  - exists k, p. split; [apply elem_of_cons; right; assumption|].
    split; [assumption|]. split; [assumption|].
    rewrite lookup_insert_ne; [assumption|].
    intros ->. contradiction.
Qed.

Lemma in_step_unchanged done st :
  in_step cleaned done st -> (snd st = [] <-> fst st = cleaned).
Proof.
  intros [[Hm Hs]|(Hm & k & p & _ & Hempty & Hp & Hlook)].
  - split; auto.
  - split; [contradiction|]. intros Hsame. exfalso.
    rewrite Hsame in Hlook. unfold Py.get in Hempty. rewrite Hlook in Hempty.
    cbn in Hempty. unfold truthy in Hp. rewrite Hempty in Hp. discriminate.
Qed.

End replaced.

Lemma apply_suggestion_length field suggestion message st :
  (length (snd (apply_suggestion field suggestion message st))
   <= S (length (snd st)))%nat.
Proof.
  unfold apply_suggestion. destruct suggestion as [price|]; [|lia].
  destruct (_ && _); cbn [snd]; [rewrite length_app; cbn|]; lia.
Qed.

(** What [suggested_input] holds under a key. *)
Lemma suggested_input_lookup sd cleaned k :
  fst (suggested_input sd cleaned) !! k
  = let pick (suggestion : option Decimal) :=
      match suggestion with
      | Some p => if Py.empty_like (Py.get cleaned k) && truthy p
                  then Some (VDec p) else cleaned !! k
      | None => cleaned !! k
      end in
    if decide (k = "local_tax_rate"%string)
    then pick (tax_rate_percent sd)
    else if decide (k = "electricity_price_per_kwh"%string)
    then pick (electricity_price_per_kwh sd)
    else if decide (k = "gas_price_per_liter"%string)
    then pick (fuel_price_per_liter sd)
    else cleaned !! k.
Proof.
  unfold suggested_input. cbv zeta.
  rewrite !apply_suggestion_lookup.
  rewrite !apply_suggestion_get by discriminate. cbn [fst].
  destruct (decide (k = "local_tax_rate"%string)) as [->|H1].
  { rewrite ?(decide_False (P := "local_tax_rate"%string = _)) by discriminate.
    destruct (tax_rate_percent sd), (electricity_price_per_kwh sd),
      (fuel_price_per_liter sd); reflexivity. }
  destruct (decide (k = "electricity_price_per_kwh"%string)) as [->|H2].
  { rewrite ?(decide_False (P := "electricity_price_per_kwh"%string = _))
      by discriminate.
    destruct (tax_rate_percent sd), (electricity_price_per_kwh sd),
      (fuel_price_per_liter sd); reflexivity. }
  destruct (decide (k = "gas_price_per_liter"%string)) as [->|H3].
  { destruct (tax_rate_percent sd), (electricity_price_per_kwh sd),
      (fuel_price_per_liter sd); reflexivity. }
  destruct (tax_rate_percent sd), (electricity_price_per_kwh sd),
    (fuel_price_per_liter sd); reflexivity.
Qed.

(** *** What [get_initial] holds under a key *)

Lemma offered_lookup (o : option Decimal) d key k :
  match o with
  | Some p => if truthy p then setdefault d key (VDec p) else d
  | None => d
  end !! k
  = if decide (k = key) then
      match d !! key with
      | Some x => Some x
      | None => match o with
                | Some p => if truthy p then Some (VDec p) else None
                | None => None
                end
      end
    else d !! k.
Proof.
  destruct o as [p|]; [destruct (truthy p)|]; rewrite ?setdefault_lookup;
    destruct (decide (k = key)) as [->|]; try reflexivity;
    destruct (d !! key); reflexivity.
Qed.

Lemma named_lookup (o : option string) d key k :
  match o with
  | Some c => if decide (c = EmptyString) then d else setdefault d key (VStr c)
  | None => d
  end !! k
  = if decide (k = key) then
      match d !! key with
      | Some x => Some x
      | None => match o with
                | Some c => if decide (c = EmptyString) then None
                            else Some (VStr c)
                | None => None
                end
      end
    else d !! k.
Proof.
  destruct o as [c|]; [destruct (decide (c = EmptyString))|];
    rewrite ?setdefault_lookup;
    destruct (decide (k = key)) as [->|]; try reflexivity;
    destruct (d !! key); reflexivity.
Qed.

Lemma get_initial_lookup country sd k :
  get_initial country sd ∅ !! k
  = if decide (k = "local_tax_rate"%string) then
      Some match tax_rate_percent sd with
           | Some p => if truthy p then VDec p else VInt 0
           | None => VInt 0
           end
    else if decide (k = "electricity_price_per_kwh"%string) then
      match electricity_price_per_kwh sd with
      | Some p => if truthy p then Some (VDec p) else None
      | None => None
      end
    else if decide (k = "gas_price_per_liter"%string) then
      match fuel_price_per_liter sd with
      | Some p => if truthy p then Some (VDec p) else None
      | None => None
      end
    else if decide (k = "currency_code"%string) then
      match currency_code sd with
      | Some c => if decide (c = EmptyString) then None else Some (VStr c)
      | None => None
      end
    else if decide (k = "country_code"%string) then Some (VStr country)
    else None.
Proof.
  unfold get_initial. cbv zeta.
  rewrite setdefault_lookup.
  destruct (decide (k = "local_tax_rate"%string)) as [->|H1].
  { rewrite offered_lookup. rewrite decide_True by reflexivity.
    rewrite offered_lookup. rewrite decide_False by discriminate.
    rewrite offered_lookup. rewrite decide_False by discriminate.
    rewrite named_lookup. rewrite decide_False by discriminate.
    rewrite setdefault_lookup. rewrite decide_False by discriminate.
    rewrite lookup_empty.
    destruct (tax_rate_percent sd) as [p|]; [destruct (truthy p)|];
      reflexivity. }
  rewrite offered_lookup. rewrite (decide_False (P := k = _)) by assumption.
  rewrite offered_lookup.
  destruct (decide (k = "electricity_price_per_kwh"%string)) as [->|H2].
  { rewrite offered_lookup. rewrite decide_False by discriminate.
    rewrite named_lookup. rewrite decide_False by discriminate.
    rewrite setdefault_lookup. rewrite decide_False by discriminate.
    rewrite lookup_empty. reflexivity. }
  rewrite offered_lookup.
  destruct (decide (k = "gas_price_per_liter"%string)) as [->|H3].
  { rewrite named_lookup. rewrite decide_False by discriminate.
    rewrite setdefault_lookup. rewrite decide_False by discriminate.
    rewrite lookup_empty. reflexivity. }
  rewrite named_lookup.
  destruct (decide (k = "currency_code"%string)) as [->|H4].
  { rewrite setdefault_lookup. rewrite decide_False by discriminate.
    rewrite lookup_empty. reflexivity. }
  rewrite setdefault_lookup.
  destruct (decide (k = "country_code"%string)) as [->|H5].
  { rewrite lookup_empty. reflexivity. }
  apply lookup_empty.
Qed.

End ViewFacts.

(** ** The scheduler in its range *)

Module Sched.
Import Dec DecFacts Mag Services Run Total Exact.

(** What the scheduler returns is the zero pair of the guard or a pair
    in cents. *)
Lemma schedule_shape principal rate term s :
  _calculate_finance_schedule principal rate term = Ok s ->
  s = mkSchedule Py.D0 Py.D0
  \/ (dexp (monthly_payment s) = -2 /\ dexp (total_paid s) = -2).
Proof.
  unfold _calculate_finance_schedule. intros H. inv_bind H.
  destruct ((term <=? 0) || leb x (of_Z 0)).
  - injection H as <-. left. reflexivity.
  - inv_binds H. injection H as <-. right. cbn [monthly_payment total_paid].
    split; eapply quantize_cents; eassumption.
Qed.

(** A validated rate that is not zero gives a monthly rate that is not
    zero: dividing by 100 and by 12 does not underflow. *)
Lemma monthly_rate_nonzero rate :
  dsign rate = false -> dint rate <> 0%N -> -3 <= dexp rate ->
  (mag rate <= IZR (10 ^ 3))%R ->
  exists r1 mr, div rate Py.D100 = Ok r1 /\ div r1 Py.D12 = Ok mr
                /\ eqb mr (of_Z 0) = false /\ dsign mr = false
                /\ (p10 (-7) <= mag mr <= 1)%R.
Proof.
  intros Hs Hnz Hexp Hm.
  destruct (div_UB rate Py.D100 10) as (r1 & Hr1 & Hr1m & Hr1s).
  { discriminate. } { arith. }
  { rewrite mag_D100. pow10_literals. lra. }
  destruct (div_UB r1 Py.D12 1) as (mr & Hmr & Hmrm & Hmrs).
  { discriminate. } { arith. }
  { rewrite mag_D12. lra. }
  rewrite Hr1s, Hs in Hmrs. cbn in Hmrs.
  pose proof (mag_ge_exp rate (-3) Hnz Hexp) as Hrlo.
  rewrite p10_m3 in Hrlo.
  pose proof (div_LB rate Py.D100 1 (-5) r1 Hr1 ltac:(discriminate)
                ltac:(arith) ltac:(arith)) as Hr1lo.
  rewrite mag_D100, p10_m5 in Hr1lo. specialize (Hr1lo ltac:(lra)).
  pose proof (div_LB r1 Py.D12 1 (-7) mr Hmr ltac:(discriminate)
                ltac:(arith) ltac:(arith)) as Hmrlo.
  rewrite mag_D12, p10_m7 in Hmrlo. specialize (Hmrlo ltac:(lra)).
  exists r1, mr. split; [assumption|]. split; [assumption|].
  split; [|split; [assumption|rewrite p10_m7; lra]].
  unfold eqb. pose proof (cmp_val mr (of_Z 0)) as Hc.
  rewrite val_of_Z, (val_pos mr Hmrs) in Hc.
  destruct (cmp mr (of_Z 0)); [lra|reflexivity|reflexivity].
Qed.

End Sched.

(** ** The claims *)

Module Claims.
Import Dec Services Examples Run.

(** C1, as stated: the scheduler on principal 10000, APR 0 % and 12 months
    does not return monthly_payment 833.33 together with total_paid
    9999.96. *)
Lemma zero_rate_total_is_not_rounded_payment_times_term :
  ~ (exists s,
       _calculate_finance_schedule (dec 10000 0) (dec 0 0) 12 = Ok s
       /\ eqb (monthly_payment s) (dec 83333 (-2)) = true
       /\ eqb (total_paid s) (dec 999996 (-2)) = true).
Proof.
  intros (s & Hs & _ & Ht).
  vm_compute in Hs. injection Hs as <-. vm_compute in Ht. discriminate.
Qed.

(** C1, amended: on principal 10000, APR 0 % and 12 months the scheduler
    returns monthly_payment 833.33 and total_paid 10000.00; and whenever
    the rate is zero, the term positive and the principal (rounded to
    cents) positive, the payment is the quotient principal / term and the
    total is that unrounded quotient times the term, each rounded half-up
    to cents only when returned. *)
Theorem zero_rate_schedule :
  _calculate_finance_schedule (dec 10000 0) (dec 0 0) 12
    = Ok (mkSchedule (dec 83333 (-2)) (dec 1000000 (-2)))
  /\ forall principal rate term p,
       Py.quantize principal Py.D0_01 ROUND_HALF_EVEN = Ok p ->
       0 < term -> leb p (of_Z 0) = false -> is_zero rate = true ->
       _calculate_finance_schedule principal rate term =
         (m ← div p (of_Z term);
          t ← mul m (of_Z term);
          mp ← Py.quantize m Py.D0_01 ROUND_HALF_UP;
          tp ← Py.quantize t Py.D0_01 ROUND_HALF_UP;
          Ok (mkSchedule mp tp)).
Proof.
  split; [vm_compute; reflexivity|].
  intros principal rate term p Hq Hterm Hp Hrate.
  unfold _calculate_finance_schedule. rewrite Hq, Ok_bind, Hp.
  replace (term <=? 0) with false by (symmetry; apply Z.leb_gt; lia).
  cbn [orb].
  destruct (div_zero_l rate Py.D100 Hrate eq_refl) as (s1 & e1 & ->).
  rewrite Ok_bind.
  destruct (div_zero_l (mkDecimal s1 0 e1) Py.D12 eq_refl eq_refl) as (s2 & e2 & ->).
  rewrite Ok_bind, eqb_zero. reflexivity.
Qed.

Lemma zero_rate_schedule_witness :
  _calculate_finance_schedule (dec 2500050 (-2)) (dec 0 (-3)) 7
  = Ok (mkSchedule (dec 357150 (-2)) (dec 2500050 (-2))).
Proof.
  rewrite (proj2 zero_rate_schedule (dec 2500050 (-2)) (dec 0 (-3)) 7
             (dec 2500050 (-2))); [| reflexivity | lia | reflexivity | reflexivity].
  vm_compute. reflexivity.
Defined.

(** C6: without a finance or lease purchase type (cash, or any value the
    engine does not recognise) the taxable base is
    max(purchase_price - incentives, 0), the tax amount is
    taxable_base * (tax_rate_percent / 100) rounded half-up to cents, the
    acquisition total is their sum and the sub-breakdown has the one key
    "Upfront payment"; price 20000, no incentives, 10 % tax, no recurring
    cost and one year give tax 2000.00, acquisition 22000.00 and total
    cost 22000.00. *)
Theorem cash_acquisition :
  (forall data l,
     estimate_locals data = Ok l ->
     Py.get data "purchase_type" <> VStr "finance" ->
     Py.get data "purchase_type" <> VStr "lease" ->
     exists purchase_price incentives tax_rate_percent tax_rate net gross,
       _safe_decimal (Py.get data "car_purchase_price") = Ok purchase_price
       /\ _safe_decimal (Py.get data "incentives_rebates") = Ok incentives
       /\ _safe_decimal (Py.get data "local_tax_rate") = Ok tax_rate_percent
       /\ sub purchase_price incentives = Ok net
       /\ taxable_base (l_tax l) = Py.max net Py.D0
       /\ div tax_rate_percent Py.D100 = Ok tax_rate
       /\ mul (taxable_base (l_tax l)) tax_rate = Ok gross
       /\ Py.quantize gross Py.D0_01 ROUND_HALF_UP = Ok (tax_amount (l_tax l))
       /\ add (taxable_base (l_tax l)) (tax_amount (l_tax l))
            = Ok (acquisition_total (l_acquisition l))
       /\ acquisition_breakdown (l_acquisition l)
            = [("Upfront payment"%string, acquisition_total (l_acquisition l))])
  /\ exists l,
       estimate_locals cash_form = Ok l
       /\ tax_amount (l_tax l) = dec 200000 (-2)
       /\ acquisition_total (l_acquisition l) = dec 2200000 (-2)
       /\ l_total_cost l = dec 2200000 (-2).
Proof.
  split.
  - intros data l H Hf Hl.
    destruct (estimate_locals_inv _ _ H) as (_ & Ht & Ha & _).
    rewrite acquisition_step_cash in Ha by assumption.
    unfold acquire_cash in Ha. inv_binds Ha.
    unfold tax_step in Ht. inv_binds Ht.
    destruct (l_acquisition l), (l_tax l). inv_Ok Ha. inv_Ok Ht.
    cbn [taxable_base tax_amount acquisition_total acquisition_breakdown].
    repeat eexists; eauto.
  - eexists. split; [vm_compute; reflexivity|]. vm_compute. auto.
Qed.

Lemma cash_acquisition_witness :
  exists l,
    estimate_locals (<["purchase_type"%string := VStr "barter"]> cash_form) = Ok l
    /\ acquisition_breakdown (l_acquisition l)
       = [("Upfront payment"%string, acquisition_total (l_acquisition l))].
Proof.
  destruct (estimate_locals (<["purchase_type"%string := VStr "barter"]> cash_form))
    as [l|e] eqn:E; [|vm_compute in E; discriminate].
  exists l. split; [reflexivity|].
  destruct (proj1 cash_acquisition _ l E) as (? & ? & ? & ? & ? & ? & H).
  - vm_compute. discriminate.
  - vm_compute. discriminate.
  - apply H.
Defined.

(** C5: with purchase type lease, lease_total is monthly_payment * term +
    drive_off, the tax on the lease is lease_total * tax_rate rounded
    half-up to cents, the acquisition total is their sum, and the
    sub-breakdown has the keys "Lease payments", "Drive-off" and "Lease
    taxes"; 300 a month for 36 months with 1000 drive-off and no tax give
    a lease total equal to 11800.00, a tax of 0.00 and an acquisition total
    of 11800.00. *)
Theorem lease_acquisition :
  (forall data l,
     estimate_locals data = Ok l ->
     Py.get data "purchase_type" = VStr "lease" ->
     exists term payment drive_off payments lease_total gross tax_on_lease,
       Py.int_of (Py.get data "lease_term_months") = Ok term
       /\ _safe_decimal (Py.get data "lease_monthly_payment") = Ok payment
       /\ _safe_decimal (Py.get data "lease_drive_off_cost") = Ok drive_off
       /\ mul payment (of_Z term) = Ok payments
       /\ add payments drive_off = Ok lease_total
       /\ mul lease_total (tax_rate (l_tax l)) = Ok gross
       /\ Py.quantize gross Py.D0_01 ROUND_HALF_UP = Ok tax_on_lease
       /\ add lease_total tax_on_lease = Ok (acquisition_total (l_acquisition l))
       /\ acquisition_breakdown (l_acquisition l)
            = [("Lease payments"%string, payments);
               ("Drive-off"%string, drive_off);
               ("Lease taxes"%string, tax_on_lease)])
  /\ exists t le l,
       tax_step lease_form = Ok t
       /\ lease_terms lease_form t = Ok le
       /\ estimate_locals lease_form = Ok l
       /\ eqb (lease_total le) (dec 1180000 (-2)) = true
       /\ tax_on_lease le = dec 0 (-2)
       /\ acquisition_total (l_acquisition l) = dec 1180000 (-2).
Proof.
  split.
  - intros data l H Hlease.
    destruct (estimate_locals_inv _ _ H) as (_ & _ & Ha & _).
    rewrite acquisition_step_lease in Ha by assumption.
    unfold acquire_lease in Ha. inv_binds Ha.
    unfold lease_terms in E. inv_binds E. inv_Ok E.
    cbn [Services.lease_term Services.lease_payment Services.drive_off
         Services.lease_total Services.tax_on_lease] in *.
    destruct (l_acquisition l). inv_Ok Ha.
    cbn [acquisition_total acquisition_breakdown].
    match goal with
    | H1 : mul ?a ?b = Ok ?x, H2 : mul ?a ?b = Ok ?y |- _ =>
        assert (x = y) by congruence; subst x
    end.
    repeat eexists; eauto.
  - do 3 eexists. split; [vm_compute; reflexivity|].
    split; [vm_compute; reflexivity|].
    split; [vm_compute; reflexivity|]. vm_compute. auto.
Qed.

Lemma lease_acquisition_witness :
  exists l,
    estimate_locals lease_form = Ok l
    /\ map fst (acquisition_breakdown (l_acquisition l))
       = ["Lease payments"; "Drive-off"; "Lease taxes"]%string.
Proof.
  destruct (estimate_locals lease_form) as [l|e] eqn:E;
    [|vm_compute in E; discriminate].
  exists l. split; [reflexivity|].
  destruct (proj1 lease_acquisition _ l E eq_refl)
    as (? & ? & ? & ? & ? & ? & ? & _ & _ & _ & _ & _ & _ & _ & _ & ->).
  reflexivity.
Defined.

(** C4: with purchase type finance the engine takes
    principal = max(taxable_base - down_payment, 0), runs the scheduler on
    (principal + tax_amount, interest rate, term) and returns the scheduled
    total_paid plus the down payment as acquisition total, with the
    sub-breakdown keys "Down payment", "Financed total" and "Taxes". *)
Theorem finance_acquisition data l :
  estimate_locals data = Ok l ->
  Py.get data "purchase_type" = VStr "finance" ->
  exists down_payment net financed rate term schedule,
    _safe_decimal (Py.get data "finance_down_payment") = Ok down_payment
    /\ sub (taxable_base (l_tax l)) down_payment = Ok net
    /\ add (Py.max net Py.D0) (tax_amount (l_tax l)) = Ok financed
    /\ _safe_decimal (Py.get data "finance_interest_rate") = Ok rate
    /\ Py.int_of (Py.get data "finance_term_months") = Ok term
    /\ _calculate_finance_schedule financed rate term = Ok schedule
    /\ add (total_paid schedule) down_payment
         = Ok (acquisition_total (l_acquisition l))
    /\ acquisition_breakdown (l_acquisition l)
         = [("Down payment"%string, down_payment);
            ("Financed total"%string, total_paid schedule);
            ("Taxes"%string, tax_amount (l_tax l))].
Proof.
  intros H Hfin.
  destruct (estimate_locals_inv _ _ H) as (_ & _ & Ha & _).
  rewrite acquisition_step_finance in Ha by assumption.
  unfold acquire_finance in Ha. inv_binds Ha.
  destruct (l_acquisition l). inv_Ok Ha.
  cbn [acquisition_total acquisition_breakdown].
  repeat eexists; eauto.
Qed.

Lemma finance_acquisition_witness :
  exists l,
    estimate_locals finance_form = Ok l
    /\ map fst (acquisition_breakdown (l_acquisition l))
       = ["Down payment"; "Financed total"; "Taxes"]%string.
Proof.
  destruct (estimate_locals finance_form) as [l|e] eqn:E;
    [|vm_compute in E; discriminate].
  exists l. split; [reflexivity|].
  destruct (finance_acquisition finance_form l E eq_refl)
    as (? & ? & ? & ? & ? & ? & _ & _ & _ & _ & _ & _ & _ & ->).
  reflexivity.
Defined.

(** C2: in the breakdown of a result, "Energy" is the annual fuel cost
    plus the annual electric cost rounded half-up to cents, with no
    factor for the years of ownership, while "Insurance", "Maintenance",
    "Registration", "Parking" and "Other recurring" are each the annual
    value times the years of ownership, rounded half-up to cents. *)
Theorem breakdown_categories data r :
  estimate_car_cost data = Ok r ->
  exists v years,
    Py.item data "ownership_period_years" = Ok v
    /\ Py.decimal_of_str v = Ok years
    /\ (exists sum energy,
          add (annual_fuel_cost r) (annual_electric_cost r) = Ok sum
          /\ Py.quantize sum Py.D0_01 ROUND_HALF_UP = Ok energy
          /\ entry "Energy" (breakdown r) = Some energy)
    /\ Forall (fun '(category, field) =>
         exists annual total amount,
           _safe_decimal (Py.get data field) = Ok annual
           /\ mul annual years = Ok total
           /\ Py.quantize total Py.D0_01 ROUND_HALF_UP = Ok amount
           /\ entry category (breakdown r) = Some amount)
         [("Insurance", "insurance_cost_annual");
          ("Maintenance", "maintenance_cost_annual");
          ("Registration", "registration_fees_annual");
          ("Parking", "parking_cost_annual");
          ("Other recurring", "other_recurring_costs")]%string.
Proof.
  intros H. destruct (estimate_car_cost_inv _ _ H) as (l & Hl & Hb & _ & _ & Hf & He & _).
  destruct (estimate_locals_inv _ _ Hl)
    as ((v & Hv & Hy) & _ & _ & _ & Hi & Hm & Hr & Hp & Ho & _).
  exists v, (l_ownership_years l). split; [assumption|]. split; [assumption|].
  unfold breakdown_of in Hb. inv_binds Hb. rewrite Hf, He.
  repeat match goal with
         | H : over_horizon _ _ = Ok _ |- _ =>
             apply over_horizon_inv in H; destruct H as (? & ? & ?)
         end.
  destruct (breakdown r). { discriminate. } inv_Ok Hb.
  split.
  - do 2 eexists. split; [eassumption|]. split; [eassumption|]. reflexivity.
  - repeat constructor; do 3 eexists; (split; [eassumption|]);
      (split; [eassumption|]); (split; [eassumption|]); reflexivity.
Qed.

Lemma breakdown_categories_witness :
  exists r sum,
    estimate_car_cost running_form = Ok r
    /\ add (annual_fuel_cost r) (annual_electric_cost r) = Ok sum
    /\ Py.quantize sum Py.D0_01 ROUND_HALF_UP = Ok (dec 205122 (-2))
    /\ entry "Energy" (breakdown r) = Some (dec 205122 (-2)).
Proof.
  destruct (estimate_car_cost running_form) as [r|e] eqn:E;
    [|vm_compute in E; discriminate].
  destruct (breakdown_categories running_form r E)
    as (v & years & _ & _ & (sum & energy & Hs & Hq & He) & _).
  exists r, sum. split; [reflexivity|]. split; [assumption|].
  assert (Hen : entry "Energy" (breakdown r) = Some (dec 205122 (-2))).
  { vm_compute in E. injection E as <-. reflexivity. }
  rewrite Hen in He. injection He as <-. auto.
Defined.

(** C7: the annual fuel cost is (annual_distance / 100) * consumption *
    price rounded half-up to cents when fuel consumption and fuel price
    are both non-zero, and exactly Decimal("0") when either is zero or
    absent; the same holds for the electric cost with the electric
    consumption and the electricity price; the fuel type plays no part. *)
Theorem energy_cost_rule data r :
  estimate_car_cost data = Ok r ->
  (exists mileage fuel_consumption electricity_consumption gas_price
          electricity_price,
     Py.decimal_of_str (default (VInt 0) (data !! "annual_mileage")) = Ok mileage
     /\ _safe_decimal (Py.get data "fuel_consumption_per_100km")
          = Ok fuel_consumption
     /\ _safe_decimal (Py.get data "electricity_consumption_per_100km")
          = Ok electricity_consumption
     /\ _safe_decimal (Py.get data "gas_price_per_liter") = Ok gas_price
     /\ _safe_decimal (Py.get data "electricity_price_per_kwh")
          = Ok electricity_price
     /\ (if is_zero fuel_consumption || is_zero gas_price
         then annual_fuel_cost r = Py.D0
         else exists per100 liters gross,
                div mileage Py.D100 = Ok per100
                /\ mul per100 fuel_consumption = Ok liters
                /\ mul liters gas_price = Ok gross
                /\ Py.quantize gross Py.D0_01 ROUND_HALF_UP
                     = Ok (annual_fuel_cost r))
     /\ (if is_zero electricity_consumption || is_zero electricity_price
         then annual_electric_cost r = Py.D0
         else exists per100 kwh gross,
                div mileage Py.D100 = Ok per100
                /\ mul per100 electricity_consumption = Ok kwh
                /\ mul kwh electricity_price = Ok gross
                /\ Py.quantize gross Py.D0_01 ROUND_HALF_UP
                     = Ok (annual_electric_cost r)))
  /\ (Py.empty_like (Py.get data "fuel_consumption_per_100km")
       || Py.empty_like (Py.get data "gas_price_per_liter") = true ->
      annual_fuel_cost r = Py.D0)
  /\ (Py.empty_like (Py.get data "electricity_consumption_per_100km")
       || Py.empty_like (Py.get data "electricity_price_per_kwh") = true ->
      annual_electric_cost r = Py.D0)
  /\ forall fuel_type,
       estimate_car_cost (<["fuel_type"%string := fuel_type]> data)
       = estimate_car_cost data.
Proof.
  intros H. destruct (estimate_car_cost_inv _ _ H) as (l & Hl & _ & _ & _ & Hf & He & _).
  destruct (estimate_locals_inv _ _ Hl) as (_ & _ & _ & Hen & _).
  unfold energy_step in Hen. inv_binds Hen.
  destruct (l_energy l). inv_Ok Hen. cbn [fuel_cost electric_cost] in *.
  rewrite Hf, He.
  repeat match goal with
         | H : annual_energy_cost _ _ _ = Ok _ |- _ =>
             apply annual_energy_cost_inv in H
         end.
  split; [|split; [|split]].
  - repeat eexists; eauto.
  - intros Hempty. apply orb_true_iff in Hempty.
    match goal with
    | H : if is_zero ?c || is_zero ?p then fuel_cost0 = _ else _ |- _ =>
        assert (Hz : is_zero c || is_zero p = true);
        [|rewrite Hz in H; exact H]
    end.
    apply orb_true_iff.
    destruct Hempty as [Hempty|Hempty]; [left|right];
      match goal with
      | H : _safe_decimal ?v = Ok ?d |- is_zero ?d = true =>
          rewrite (safe_decimal_empty v Hempty) in H; injection H as <-;
          reflexivity
      end.
  - intros Hempty. apply orb_true_iff in Hempty.
    match goal with
    | H : if is_zero ?c || is_zero ?p then electric_cost0 = _ else _ |- _ =>
        assert (Hz : is_zero c || is_zero p = true);
        [|rewrite Hz in H; exact H]
    end.
    apply orb_true_iff.
    destruct Hempty as [Hempty|Hempty]; [left|right];
      match goal with
      | H : _safe_decimal ?v = Ok ?d |- is_zero ?d = true =>
          rewrite (safe_decimal_empty v Hempty) in H; injection H as <-;
          reflexivity
      end.
  - intros v. unfold estimate_car_cost.
    rewrite estimate_locals_ignores_fuel_type. reflexivity.
Qed.

Lemma energy_cost_rule_witness :
  exists r,
    estimate_car_cost cash_form = Ok r
    /\ annual_fuel_cost r = Py.D0
    /\ estimate_car_cost (<["fuel_type"%string := VStr "electric"]> cash_form)
       = estimate_car_cost cash_form.
Proof.
  destruct (estimate_car_cost cash_form) as [r|e] eqn:E;
    [|vm_compute in E; discriminate].
  destruct (energy_cost_rule cash_form r E) as (_ & Hfuel & _ & Htype).
  exists r. split; [reflexivity|]. split.
  - apply Hfuel. reflexivity.
  - rewrite Htype. exact E.
Defined.



(** C8, as stated: it is not so that the engine raises nothing on every
    input that satisfies the invariants. The form accepts a cash purchase
    with an ownership period of 10^30 years and an insurance of 1.00 a
    year; on it the engine raises InvalidOperation, when the recurring
    total is rounded to cents. *)
Lemma validated_long_horizon_raises :
  Forms.is_valid long_horizon_form = true
  /\ estimate_car_cost long_horizon_form = Raise InvalidOperation
  /\ ~ (forall data, Forms.is_valid data = true ->
                     exists r, estimate_car_cost data = Ok r).
Proof.
  assert (Hv : Forms.is_valid long_horizon_form = true)
    by (vm_compute; reflexivity).
  assert (Hr : estimate_car_cost long_horizon_form = Raise InvalidOperation)
    by (vm_compute; reflexivity).
  split; [assumption|]. split; [assumption|].
  intros H. destruct (H long_horizon_form Hv) as (r & Hok).
  rewrite Hr in Hok. discriminate.
Qed.

(** C8, amended: on every input the form validation accepts, with an
    ownership period of at most 10^6 years, at most 10^9 km a year and
    terms of at most 10^4 months, the engine raises no exception and
    returns a result; on such an input with the ownership period set to 0
    the engine returns too, and the monthly cost is exactly
    Decimal("0.00"); the scheduler on a principal of at most 25 integer
    digits, with a term <= 0 or a principal <= 0, returns Decimal("0") for
    both the monthly payment and the total paid. *)
Theorem engine_raises_nothing :
  (forall data,
      Forms.is_valid data = true -> Limits.within_limits data = true ->
      exists r, estimate_car_cost data = Ok r)
  /\ (forall data,
        Forms.is_valid data = true -> Limits.within_limits data = true ->
        exists r,
          estimate_car_cost (<["ownership_period_years"%string := VInt 0]> data)
            = Ok r
          /\ monthly_cost r = Py.D0_00)
  /\ (forall principal rate term,
        adjusted principal < 25 ->
        term <= 0 \/ leb principal (of_Z 0) = true ->
        _calculate_finance_schedule principal rate term
          = Ok (mkSchedule Py.D0 Py.D0)).
Proof.
  split; [exact Total.estimate_car_cost_total|]. split.
  - intros data Hv Hl.
    destruct (Total.estimate_car_cost_horizon data 0 Hv Hl ltac:(lia))
      as (r & Hr).
    exists r. split; [assumption|].
    destruct (estimate_car_cost_inv _ _ Hr) as (l & El & _ & _ & -> & _).
    apply (Total.estimate_locals_no_horizon _ _ El).
    destruct (estimate_locals_inv _ _ El) as ((v & Hitem & Hyears) & _).
    unfold Py.item in Hitem. rewrite lookup_insert_eq in Hitem.
    injection Hitem as <-. cbn [Py.decimal_of_str] in Hyears.
    injection Hyears as <-. reflexivity.
  - exact Total.schedule_guard.
Qed.

Lemma engine_raises_nothing_witness :
  (exists r, estimate_car_cost running_form = Ok r)
  /\ (exists r,
        estimate_car_cost
          (<["ownership_period_years"%string := VInt 0]> finance_form) = Ok r
        /\ monthly_cost r = Py.D0_00)
  /\ _calculate_finance_schedule (dec (-50000) (-2)) (dec 4500 (-3)) 48
     = Ok (mkSchedule Py.D0 Py.D0).
Proof.
  destruct engine_raises_nothing as (Hrun & Hzero & Hguard).
  split; [apply Hrun; vm_compute; reflexivity|].
  split; [apply Hzero; vm_compute; reflexivity|].
  apply Hguard; [vm_compute; reflexivity|right; vm_compute; reflexivity].
Defined.

(** C3: on an input the form validation accepts, replacing the residual
    value by a larger validated one, all other fields kept, lowers the
    total cost the engine returns by exactly the increase of the residual
    value (an absent residual value counts as zero); and within the limits
    under which the engine raises nothing, both runs do return. *)
Theorem residual_value_monotone data old new :
  Forms.is_valid data = true ->
  _safe_decimal (Py.get data "residual_value") = Ok old ->
  Forms.DecimalField 12 2 false (VDec new) = true ->
  ltb old new = true ->
  (forall r1 r2,
      estimate_car_cost data = Ok r1 ->
      estimate_car_cost (<["residual_value"%string := VDec new]> data) = Ok r2 ->
      (val (total_cost r1) - val (total_cost r2) = val new - val old)%R
      /\ ltb (total_cost r2) (total_cost r1) = true)
  /\ (Limits.within_limits data = true ->
      exists r1 r2,
        estimate_car_cost data = Ok r1
        /\ estimate_car_cost (<["residual_value"%string := VDec new]> data)
           = Ok r2).
Proof.
  intros Hv Hold Hnew Hlt.
  pose proof (Exact.is_valid_insert_residual data _ Hv Hnew) as Hv'.
  split.
  - intros r1 r2 Hr1 Hr2.
    destruct (estimate_car_cost_inv _ _ Hr1) as (l1 & El1 & _ & -> & _).
    destruct (estimate_car_cost_inv _ _ Hr2) as (l2 & El2 & _ & -> & _).
    unfold Forms.is_valid in Hv, Hv'.
    apply andb_true_iff in Hv, Hv'. destruct Hv as [Hf _], Hv' as [Hf' _].
    destruct (Exact.total_cost_value _ _ Hf El1)
      as (t1 & t2 & Et1 & Et2 & Htc1 & _).
    destruct (Exact.total_cost_value _ _ Hf' El2)
      as (t1' & t2' & Et1' & Et2' & Htc2 & _).
    destruct (Exact.locals_ignore_residual _ _ _ _ El1 El2)
      as (Eacq & Erec & Ech).
    rewrite Eacq, Erec, Et1 in Et1'. injection Et1' as <-.
    rewrite Ech, Et2 in Et2'. injection Et2' as <-.
    destruct (estimate_locals_inv _ _ El1)
      as (_ & _ & _ & _ & _ & _ & _ & _ & _ & _ & Hres1).
    destruct (estimate_locals_inv _ _ El2)
      as (_ & _ & _ & _ & _ & _ & _ & _ & _ & _ & Hres2).
    rewrite Hold in Hres1. injection Hres1 as Hres1.
    rewrite Exact.get_insert_eq in Hres2.
    assert (Hval2 : val (l_residual_value l2) = val new).
    { unfold _safe_decimal in Hres2. cbn [Py.empty_like] in Hres2.
      destruct (is_zero new) eqn:Hz; injection Hres2 as <-; [|reflexivity].
      apply N.eqb_eq in Hz. rewrite (Mag.val_zero new Hz).
      apply Mag.val_zero. reflexivity. }
    rewrite <- Hres1 in Htc1. rewrite Hval2 in Htc2.
    apply Exact.ltb_val in Hlt.
    split; [|apply Exact.ltb_val]; lra.
  - intros Hl.
    pose proof (Exact.within_limits_insert_residual data (VDec new) Hl) as Hl'.
    destruct (Total.estimate_car_cost_total _ Hv Hl) as (r1 & Hr1).
    destruct (Total.estimate_car_cost_total _ Hv' Hl') as (r2 & Hr2).
    eauto.
Qed.

Lemma residual_value_monotone_witness :
  exists r1 r2,
    estimate_car_cost running_form = Ok r1
    /\ estimate_car_cost
         (<["residual_value"%string := VDec (dec 950000 (-2))]> running_form)
       = Ok r2
    /\ (val (total_cost r1) - val (total_cost r2)
        = val (dec 950000 (-2)) - val (dec 800000 (-2)))%R
    /\ ltb (total_cost r2) (total_cost r1) = true.
Proof.
  destruct (residual_value_monotone running_form (dec 800000 (-2))
              (dec 950000 (-2))) as [Hdelta Hruns];
    [vm_compute; reflexivity ..|].
  destruct Hruns as (r1 & r2 & Hr1 & Hr2); [vm_compute; reflexivity|].
  exists r1, r2. split; [assumption|]. split; [assumption|].
  apply Hdelta; assumption.
Defined.

(** C10: on every input with purchase type finance the sub-breakdown is
    the down payment, the scheduled total and the tax amount, the
    scheduler having run on principal + tax_amount; "Down payment" +
    "Financed total" + "Taxes" is acquisition_total + tax_amount, in the
    engine's own arithmetic. On validated input within the limits that
    sum returns and is exact, so with a positive tax amount the three
    entries add up to strictly more than the acquisition total. *)
Theorem finance_breakdown_counts_tax_twice data l :
  estimate_locals data = Ok l ->
  Py.get data "purchase_type" = VStr "finance" ->
  let acq := acquisition_total (l_acquisition l) in
  let tax := tax_amount (l_tax l) in
  exists down net principal rate term schedule,
    _safe_decimal (Py.get data "finance_down_payment") = Ok down
    /\ sub (taxable_base (l_tax l)) down = Ok net
    /\ add (Py.max net Py.D0) tax = Ok principal
    /\ _calculate_finance_schedule principal rate term = Ok schedule
    /\ acquisition_breakdown (l_acquisition l)
         = [("Down payment"%string, down);
            ("Financed total"%string, total_paid schedule);
            ("Taxes"%string, tax)]
    /\ (s ← add down (total_paid schedule); add s tax) = add acq tax
    /\ (Forms.is_valid data = true -> Limits.within_limits data = true ->
        exists sum,
          add acq tax = Ok sum
          /\ (val sum = val down + val (total_paid schedule) + val tax)%R
          /\ (val sum = val acq + val tax)%R
          /\ (ltb (of_Z 0) tax = true -> ltb acq sum = true)).
Proof.
  intros El Hfin acq tax.
  destruct (estimate_locals_inv _ _ El) as (_ & Ht & Ha & _).
  rewrite acquisition_step_finance in Ha by assumption.
  unfold acquire_finance in Ha.
  apply bind_Ok in Ha. destruct Ha as (down & Edown & Ha).
  apply bind_Ok in Ha. destruct Ha as (net & Enet & Ha).
  apply bind_Ok in Ha. destruct Ha as (principal & Eprincipal & Ha).
  apply bind_Ok in Ha. destruct Ha as (rate & Erate & Ha).
  apply bind_Ok in Ha. destruct Ha as (term & Eterm & Ha).
  apply bind_Ok in Ha. destruct Ha as (schedule & Eschedule & Ha).
  apply bind_Ok in Ha. destruct Ha as (a & Ea & Ha).
  injection Ha as Ha.
  assert (Hacq : acq = a) by (subst acq; rewrite <- Ha; reflexivity).
  exists down, net, principal, rate, term, schedule.
  split; [assumption|]. split; [assumption|]. split; [assumption|].
  split; [assumption|].
  split; [rewrite <- Ha; reflexivity|].
  split; [rewrite Exact.add_comm, Ea, Ok_bind, Hacq; reflexivity|].
  intros Hv Hl.
  destruct (Total.estimate_locals_total data Hv Hl) as (l' & El' & Hbound & _).
  rewrite El in El'. injection El' as <-. fold acq in Hbound.
  unfold Forms.is_valid in Hv. apply andb_true_iff in Hv. destruct Hv as [Hf _].
  destruct (Total.tax_step_total data Hf) as (t' & Et' & _ & _ & Htax).
  rewrite Ht in Et'. injection Et' as <-. fold tax in Htax.
  destruct (Exact.tax_step_exp data _ Hf Ht) as [_ Htexp]. fold tax in Htexp.
  pose proof (Exact.schedule_exp _ _ _ _ Eschedule) as Hsexp.
  assert (Hdexp : -2 <= dexp down).
  { Total.split_fields Hf. Exact.cents "finance_down_payment"%string. assumption. }
  rewrite Hacq in *.
  destruct (Exact.add_cents_exact _ _ _ _ Hsexp Hdexp Ea Hbound
              ltac:(vm_compute; reflexivity)) as [Va Haexp].
  destruct (Mag.add_UB a tax _ _ Hbound Htax ltac:(vm_compute; reflexivity))
    as (sum & Esum & Hsum).
  assert (Htexp' : -2 <= dexp tax) by (rewrite Htexp; reflexivity).
  destruct (Exact.add_cents_exact _ _ _ _ Haexp Htexp' Esum Hsum
              ltac:(vm_compute; reflexivity)) as [Vsum _].
  exists sum. split; [assumption|]. split; [lra|]. split; [assumption|].
  intros Hpos. apply Exact.ltb_val in Hpos. rewrite Mag.val_of_Z in Hpos.
  apply Exact.ltb_val. lra.
Qed.

Lemma finance_breakdown_counts_tax_twice_witness :
  exists l sum,
    estimate_locals finance_form = Ok l
    /\ add (acquisition_total (l_acquisition l)) (tax_amount (l_tax l)) = Ok sum
    /\ ltb (acquisition_total (l_acquisition l)) sum = true.
Proof.
  destruct (estimate_locals finance_form) as [l|e] eqn:E;
    [|vm_compute in E; discriminate].
  pose proof E as E'. vm_compute in E'. injection E' as <-.
  destruct (finance_breakdown_counts_tax_twice finance_form _ E eq_refl)
    as (? & ? & ? & ? & ? & ? & _ & _ & _ & _ & _ & _ & H).
  destruct H as (sum & Hsum & _ & _ & Hlt); [vm_compute; reflexivity ..|].
  eexists _, sum. split; [reflexivity|]. split; [exact Hsum|].
  apply Hlt. vm_compute. reflexivity.
Defined.

End Claims.

(** ** Further properties of the engine, the scheduler and the view *)

Module Extras.
Import Dec Services Examples Run.



(** X2: the engine insists on one key only. Without
    "ownership_period_years" it raises KeyError, whatever else the input
    holds; with None under that key it raises InvalidOperation; and on an
    input that holds nothing but a horizon of 0 to 10^6 years it returns,
    every amount being zero. *)
Theorem horizon_is_the_only_required_key :
  (forall data,
      data !! "ownership_period_years"%string = None ->
      estimate_car_cost data = Raise KeyError)
  /\ (forall data,
        data !! "ownership_period_years"%string = Some VNone ->
        estimate_car_cost data = Raise InvalidOperation)
  /\ (forall y,
        0 <= y <= 10 ^ 6 ->
        exists r,
          estimate_car_cost {[ "ownership_period_years"%string := VInt y ]} = Ok r
          /\ total_cost r = Py.D0_00
          /\ monthly_cost r = Py.D0_00
          /\ annual_recurring_total r = Py.D0_00
          /\ annual_fuel_cost r = Py.D0
          /\ annual_electric_cost r = Py.D0
          /\ acquisition_detail r = [("Upfront payment"%string, Py.D0_00)]
          /\ Forall (fun kv => snd kv = Py.D0_00) (breakdown r)).
Proof.
  split; [|split].
  - intros data H. unfold estimate_car_cost, estimate_locals, Py.item.
    rewrite H. reflexivity.
  - intros data H. unfold estimate_car_cost, estimate_locals, Py.item.
    rewrite H. reflexivity.
  - intros y Hy.
    set (data := {[ "ownership_period_years"%string := VInt y ]} : gmap string PyValue).
    assert (Hget : forall k, k <> "ownership_period_years"%string ->
                             Py.get data k = VNone).
    { intros k Hk. unfold Py.get, data.
      rewrite lookup_singleton_ne by congruence. reflexivity. }
    assert (Htax : tax_step data
                   = Ok (mkTax Py.D0 Py.D0 Py.D0_00)).
    { unfold tax_step. rewrite !Hget by discriminate. vm_compute. reflexivity. }
    assert (Hacq : acquisition_step data (mkTax Py.D0 Py.D0 Py.D0_00)
                   = Ok (mkAcquisition Py.D0_00
                           [("Upfront payment"%string, Py.D0_00)])).
    { unfold acquisition_step. rewrite !Hget by discriminate.
      vm_compute. reflexivity. }
    assert (Hen : energy_step data = Ok (mkEnergy Py.D0 Py.D0)).
    { unfold energy_step. rewrite !Hget by discriminate.
      unfold data. rewrite lookup_singleton_ne by discriminate.
      vm_compute. reflexivity. }
    assert (Hover : over_horizon (mkDecimal false 0 0) (of_Z y) = Ok Py.D0_00).
    { unfold over_horizon. unfold mul, mul_prec, exact_mul.
      cbn [dint dexp dsign of_Z]. rewrite N.mul_0_l.
      replace (y <? 0) with false by (symmetry; apply Z.ltb_ge; lia).
      vm_compute. reflexivity. }
    assert (Hmonthly :
      (if truthy (of_Z y) then
         months ← mul (of_Z y) Py.D12;
         per_month ← div Py.D0_00 months;
         Py.quantize per_month Py.D0_01 ROUND_HALF_UP
       else Ok Py.D0_00) = Ok Py.D0_00).
    { destruct (Z.eq_dec y 0) as [->|Hpos]; [reflexivity|].
      replace (truthy (of_Z y)) with true.
      2:{ symmetry. unfold truthy, is_zero. apply negb_true_iff, N.eqb_neq.
          apply Total.of_Z_nonzero. lia. }
      assert (Hym : (mag (of_Z y) <= IZR (10 ^ 6))%R).
      { rewrite Mag.mag_of_Z, Z.abs_eq by lia. apply IZR_le. lia. }
      assert (HD12 : (mag Py.D12 <= IZR 12)%R) by (rewrite Total.mag_D12; lra).
      destruct (Mag.mul_UB (of_Z y) Py.D12 _ _ Hym HD12)
        as (months & Emonths & _ & Hsign); [vm_compute; reflexivity|].
      pose proof (Total.mul_ge_1 _ _ _ Emonths) as Hlo.
      rewrite Mag.mag_of_Z, Z.abs_eq, Total.mag_D12 in Hlo by lia.
      specialize (Hlo ltac:(apply IZR_le; lia) ltac:(lra)).
      assert (Hnz : is_zero months = false).
      { unfold is_zero. apply N.eqb_neq, Mag.mag_nonzero. lra. }
      rewrite Emonths, Ok_bind.
      unfold div. rewrite Hnz. cbn [is_zero Py.D0_00 dint N.eqb].
      unfold fix_. rewrite Mag.fix_prec_zero_eq, Ok_bind.
      cbn [dsign dexp]. rewrite Hsign. cbn [of_Z dsign Py.D12 xorb].
      replace (y <? 0) with false by (symmetry; apply Z.ltb_ge; lia).
      unfold Py.quantize, quantize. cbn [Py.D0_01 dexp is_zero dint N.eqb dsign].
      replace (negb ((Etiny <=? -2) && (-2 <=? Emax))) with false
        by (vm_compute; reflexivity).
      unfold fix_. rewrite Mag.fix_prec_zero_eq. vm_compute. reflexivity. }
    assert (Hitem : Py.item data "ownership_period_years" = Ok (VInt y)).
    { unfold Py.item, data. rewrite lookup_singleton_eq. reflexivity. }
    eexists. split.
    + unfold estimate_car_cost, estimate_locals. rewrite Hitem, Ok_bind.
      cbn [Py.decimal_of_str]. rewrite Ok_bind.
      rewrite Htax, Ok_bind, Hacq, Ok_bind, Hen, Ok_bind.
      rewrite !Hget by discriminate.
      change (_safe_decimal VNone) with (Ok Py.D0).
      cbn [fuel_cost electric_cost acquisition_total].
      assert (H00 : add Py.D0 Py.D0 = Ok Py.D0) by reflexivity.
      assert (H20 : add Py.D0_00 Py.D0_00 = Ok Py.D0_00) by reflexivity.
      assert (H02 : add Py.D0_00 Py.D0 = Ok Py.D0_00) by reflexivity.
      assert (Hs : sub Py.D0_00 Py.D0 = Ok Py.D0_00) by reflexivity.
      assert (Hq2 : Py.quantize Py.D0_00 Py.D0_01 ROUND_HALF_UP = Ok Py.D0_00)
        by reflexivity.
      assert (Hq0 : Py.quantize Py.D0 Py.D0_01 ROUND_HALF_UP = Ok Py.D0_00)
        by reflexivity.
      change (mkDecimal false 0 0) with Py.D0 in Hover.
      repeat first [rewrite Ok_bind | rewrite H00 | rewrite Hover | rewrite H20
                   | rewrite H02 | rewrite Hs | rewrite Hq2 | rewrite Hmonthly].
      unfold breakdown_of.
      cbn [l_acquisition l_energy l_insurance l_maintenance l_registration
           l_parking l_other l_ownership_years l_charging_installation
           l_residual_value l_annual_recurring_total acquisition_total
           fuel_cost electric_cost].
      repeat first [rewrite Ok_bind | rewrite H00 | rewrite Hover | rewrite Hq2
                   | rewrite Hq0].
      reflexivity.
    + cbn. repeat split; try reflexivity. repeat constructor.
Qed.

Lemma horizon_is_the_only_required_key_witness :
  exists r,
    estimate_car_cost {[ "ownership_period_years"%string := VInt 5 ]} = Ok r
    /\ total_cost r = Py.D0_00.
Proof.
  destruct horizon_is_the_only_required_key as (_ & _ & H).
  destruct (H 5) as (r & Hr & Ht & _); [lia|].
  exists r. split; assumption.
Defined.

(** X3: the engine reads 23 keys and no other: an entry under any other
    key (the country code, the region, the currency code, the fuel type,
    or a key the form does not have) can be added, changed or removed
    without changing what the engine returns or raises. *)
Theorem engine_reads_only_its_keys data k :
  k ∉ ["ownership_period_years"; "car_purchase_price"; "incentives_rebates";
       "local_tax_rate"; "purchase_type"; "finance_down_payment";
       "finance_interest_rate"; "finance_term_months"; "lease_term_months";
       "lease_monthly_payment"; "lease_drive_off_cost"; "annual_mileage";
       "fuel_consumption_per_100km"; "electricity_consumption_per_100km";
       "gas_price_per_liter"; "electricity_price_per_kwh";
       "insurance_cost_annual"; "maintenance_cost_annual";
       "registration_fees_annual"; "parking_cost_annual";
       "other_recurring_costs"; "charging_installation_cost";
       "residual_value"]%string ->
  (forall v, estimate_car_cost (<[k := v]> data) = estimate_car_cost data)
  /\ estimate_car_cost (delete k data) = estimate_car_cost data.
Proof.
  intros Hk. rewrite !not_elem_of_cons in Hk. destruct_and!.
  assert (Hget : forall v k', k <> k' ->
                   Py.get (<[k := v]> data) k' = Py.get data k')
    by (intros; apply get_insert_ne; assumption).
  assert (Hdel : forall k', k <> k' -> Py.get (delete k data) k' = Py.get data k').
  { intros k' Hne. unfold Py.get. rewrite lookup_delete_ne by assumption.
    reflexivity. }
  split.
  - intros v.
    unfold estimate_car_cost, estimate_locals, tax_step, acquisition_step,
      acquire_finance, acquire_lease, lease_terms, energy_step, Py.item.
    rewrite !Hget by assumption.
    rewrite !lookup_insert_ne by assumption. reflexivity.
  - unfold estimate_car_cost, estimate_locals, tax_step, acquisition_step,
      acquire_finance, acquire_lease, lease_terms, energy_step, Py.item.
    rewrite !Hdel by assumption.
    rewrite !lookup_delete_ne by assumption. reflexivity.
Qed.

Lemma engine_reads_only_its_keys_witness :
  estimate_car_cost (<["country_code"%string := VStr "fr"]> running_form)
  = estimate_car_cost running_form
  /\ estimate_car_cost (delete "currency_code"%string running_form)
     = estimate_car_cost running_form.
Proof.
  split.
  - apply (engine_reads_only_its_keys running_form "country_code").
    rewrite !not_elem_of_cons. repeat split; try discriminate.
    apply not_elem_of_nil.
  - apply (engine_reads_only_its_keys running_form "currency_code").
    rewrite !not_elem_of_cons. repeat split; try discriminate.
    apply not_elem_of_nil.
Defined.

(** X4: what the conditional requirements of the form protect the engine
    from. On an input whose fields are validated, a financed purchase
    without a finance term makes the engine raise TypeError, and so does a
    lease without a lease term: int(None). *)
Theorem missing_term_raises_TypeError data :
  Forms.fields_ok data = true ->
  (Py.get data "purchase_type" = VStr "finance" ->
   Py.get data "finance_term_months" = VNone ->
   estimate_car_cost data = Raise TypeError)
  /\ (Py.get data "purchase_type" = VStr "lease" ->
      Py.get data "lease_term_months" = VNone ->
      estimate_car_cost data = Raise TypeError).
Proof.
  intros Hf.
  destruct (Total.tax_step_total data Hf) as (t & Et & Hrate & Htb & Htax).
  assert (Hitem : exists v d, Py.item data "ownership_period_years" = Ok v
                              /\ Py.decimal_of_str v = Ok d).
  { pose proof Hf as Hf'. Total.split_fields Hf'.
    match goal with
    | H : Forms.IntegerField 1 true (Py.get data "ownership_period_years") = true |- _ =>
        unfold Py.get in H; unfold Py.item;
        destruct (data !! "ownership_period_years"%string) as [[| |n|]|];
        try discriminate H
    end.
    eauto. }
  destruct Hitem as (v & d & Ev & Ed).
  split.
  - intros Hfin Hterm.
    unfold estimate_car_cost, estimate_locals.
    rewrite Ev, Ok_bind, Ed, Ok_bind, Et, Ok_bind.
    rewrite acquisition_step_finance by assumption.
    unfold acquire_finance. Total.split_fields Hf.
    Total.literal_bound Htb. Total.literal_bound Htax.
    Total.coerce "finance_down_payment"%string down Hdown.
    Total.ub_sub (taxable_base t) down net Hnet.
    assert (Hp : (mag (Py.max net Py.D0) <= 30000000000)%R).
    { apply Total.max_UB; [assumption|]. rewrite Total.mag_D0. lra. }
    Total.ub_add (Py.max net Py.D0) (tax_amount t) financed Hfinanced.
    Total.coerce "finance_interest_rate"%string rate Hr.
    rewrite Hterm. reflexivity.
  - intros Hlease Hterm.
    unfold estimate_car_cost, estimate_locals.
    rewrite Ev, Ok_bind, Ed, Ok_bind, Et, Ok_bind.
    rewrite acquisition_step_lease by assumption.
    unfold acquire_lease, lease_terms. rewrite Hterm. reflexivity.
Qed.

Lemma missing_term_raises_TypeError_witness :
  estimate_car_cost (<["finance_term_months"%string := VNone]> finance_form)
  = Raise TypeError.
Proof.
  destruct (missing_term_raises_TypeError
              (<["finance_term_months"%string := VNone]> finance_form))
    as [H _]; [vm_compute; reflexivity|].
  apply H; vm_compute; reflexivity.
Defined.

(** X5: the books balance. On validated input within the limits nothing
    is lost to rounding: the total cost is the "Acquisition" entry plus
    the annual recurring total times the years plus "Charging
    infrastructure" less "Residual credit"; and the annual recurring total
    times the years is "Energy" times the years plus the five recurring
    entries. So the entries of the breakdown add up to the total cost only
    when "Energy", which is an amount per year, is counted once for every
    year. *)
Theorem total_cost_reconciles data r :
  Forms.is_valid data = true -> Limits.within_limits data = true ->
  estimate_car_cost data = Ok r ->
  exists y acq energy ins maint reg park other charging residual,
    data !! "ownership_period_years"%string = Some (VInt y)
    /\ breakdown r
       = [("Acquisition", acq); ("Energy", energy); ("Insurance", ins);
          ("Maintenance", maint); ("Registration", reg); ("Parking", park);
          ("Other recurring", other); ("Charging infrastructure", charging);
          ("Residual credit", residual)]%string
    /\ val energy = (val (annual_fuel_cost r) + val (annual_electric_cost r))%R
    /\ (val (annual_recurring_total r) * IZR y
        = val energy * IZR y + val ins + val maint + val reg + val park
          + val other)%R
    /\ (val (total_cost r)
        = val acq + val (annual_recurring_total r) * IZR y + val charging
          - val residual)%R.
Proof.
  intros Hv Hl H. unfold estimate_car_cost in H.
  apply bind_Ok in H. destruct H as (l & El & H).
  apply bind_Ok in H. destruct H as (b & Eb & H).
  apply bind_Ok in H. destruct H as (annual & Eannual & H).
  injection H as <-.
  cbn [total_cost annual_recurring_total breakdown annual_fuel_cost
       annual_electric_cost].
  destruct (Ledger.validated_locals data l Hv Hl El)
    as (y & Hy & Hrange & Hyears & Hmags & Hexps).
  destruct (Ledger.locals_books data l Hv Hl El)
    as (y' & Hy' & _ & Hsum & Haexp & Hamag & Hrec & Htotal).
  rewrite Hy in Hy'. injection Hy' as <-.
  destruct Hmags as (? & ? & ? & ? & ? & ? & ? & ? & ? & ?).
  destruct Hexps as (? & ? & ? & ? & ? & ? & ? & ? & ? & ?).
  assert (Hym : (mag (l_ownership_years l) <= IZR (10 ^ 6))%R).
  { rewrite Hyears, Mag.mag_of_Z, Z.abs_eq by lia. apply IZR_le. lia. }
  assert (Hye : 0 <= dexp (l_ownership_years l)) by (rewrite Hyears; cbn; lia).
  assert (Hyv : val (l_ownership_years l) = IZR y)
    by (rewrite Hyears; apply Mag.val_of_Z).
  unfold breakdown_of in Eb. inv_binds Eb. injection Eb as <-.
  Ledger.book_add.
  repeat match goal with
  | E : over_horizon ?a (l_ownership_years l) = Ok ?x,
    He : -2 <= dexp ?a, Hm : (mag ?a <= IZR ?Ka)%R |- _ =>
      let Hx := fresh "Hover" in
      destruct (Ledger.over_horizon_cents a _ x Ka (10 ^ 6) He Hye Hm Hym
                  ltac:(vm_compute; reflexivity) E) as (Hx & _ & _);
      rewrite Hyv in Hx; clear E
  end.
  repeat match goal with
  | E : Py.quantize ?t Py.D0_01 _ = Ok ?q, He : -2 <= dexp ?t,
    Hm : (mag ?t <= IZR _)%R |- _ =>
      let Hq := fresh "Hq" in
      destruct (Ledger.quantize_cents_exact t _ q _ He Hm E) as (Hq & _ & _);
      clear E
  end.
  do 10 eexists. split; [exact Hy|]. split; [reflexivity|].
  split; [lra|]. split; [nra|nra].
Qed.

Lemma total_cost_reconciles_witness :
  exists r acq energy charging residual,
    estimate_car_cost running_form = Ok r
    /\ entry "Acquisition" (breakdown r) = Some acq
    /\ entry "Energy" (breakdown r) = Some energy
    /\ entry "Charging infrastructure" (breakdown r) = Some charging
    /\ entry "Residual credit" (breakdown r) = Some residual
    /\ (val (total_cost r)
        = val acq + val (annual_recurring_total r) * 5 + val charging
          - val residual)%R.
Proof.
  destruct (estimate_car_cost running_form) as [r|e] eqn:E;
    [|vm_compute in E; discriminate].
  destruct (total_cost_reconciles running_form r)
    as (y & acq & energy & ins & maint & reg & park & other & charging
        & residual & Hy & Hb & _ & _ & Ht);
    [vm_compute; reflexivity | vm_compute; reflexivity | exact E |].
  vm_compute in Hy. injection Hy as <-.
  exists r, acq, energy, charging, residual.
  split; [reflexivity|]. rewrite Hb. repeat split; try reflexivity. exact Ht.
Defined.

(** X6: what form_valid hands to the engine. A field the user filled in
    (anything but None, the empty string or zero) is never replaced; no
    key but the fuel price, the electricity price and the tax rate is
    touched; each of these three, when it is empty or zero in the cleaned
    data and a non-zero suggestion is at hand, becomes the suggestion,
    also a tax rate the user entered as 0; and at most three messages are
    flashed, none exactly when the cleaned data go to the engine
    unchanged. *)
Theorem suggestions_fill_empty_fields_only sd cleaned :
  let st := Views.suggested_input sd cleaned in
  (forall k, Py.empty_like (Py.get cleaned k) = false ->
             fst st !! k = cleaned !! k)
  /\ (forall k, k ∉ ["gas_price_per_liter"; "electricity_price_per_kwh";
                     "local_tax_rate"]%string ->
                fst st !! k = cleaned !! k)
  /\ (forall k p,
        (k, Some p) ∈ [("gas_price_per_liter"%string,
                        Views.fuel_price_per_liter sd);
                       ("electricity_price_per_kwh"%string,
                        Views.electricity_price_per_kwh sd);
                       ("local_tax_rate"%string, Views.tax_rate_percent sd)] ->
        Py.empty_like (Py.get cleaned k) = true -> truthy p = true ->
        fst st !! k = Some (VDec p))
  /\ (length (snd st) <= 3)%nat
  /\ (snd st = [] <-> fst st = cleaned).
Proof.
  intros st. subst st.
  split; [|split; [|split; [|split]]].
  - intros k Hk. rewrite ViewFacts.suggested_input_lookup. cbv zeta.
    rewrite Hk. cbn [andb].
    destruct (Views.tax_rate_percent sd), (Views.electricity_price_per_kwh sd),
      (Views.fuel_price_per_liter sd);
      repeat (destruct (decide _)); reflexivity.
  - intros k Hk. rewrite !not_elem_of_cons in Hk. destruct Hk as (H1 & H2 & H3 & _).
    rewrite ViewFacts.suggested_input_lookup. cbv zeta.
    rewrite !decide_False by assumption. reflexivity.
  - intros k p Hk Hempty Hp. rewrite ViewFacts.suggested_input_lookup. cbv zeta.
    rewrite !elem_of_cons in Hk.
    destruct Hk as [Hk|[Hk|[Hk|Hk]]];
      [| | |apply elem_of_nil in Hk; contradiction];
      injection Hk as -> Hk; rewrite <- Hk, Hempty, Hp;
      rewrite ?(decide_False (P := _ = "local_tax_rate"%string)) by discriminate;
      rewrite ?(decide_False (P := _ = "electricity_price_per_kwh"%string))
        by discriminate;
      rewrite decide_True by reflexivity; reflexivity.
  - unfold Views.suggested_input. cbv zeta.
    pose proof (ViewFacts.apply_suggestion_length "gas_price_per_liter"
        (Views.fuel_price_per_liter sd)
        "Applied suggested local fuel price from available data."
        (cleaned, [])) as H1.
    pose proof (ViewFacts.apply_suggestion_length "electricity_price_per_kwh"
        (Views.electricity_price_per_kwh sd)
        "Applied suggested local electricity price from available data."
        (Views.apply_suggestion "gas_price_per_liter"
           (Views.fuel_price_per_liter sd)
           "Applied suggested local fuel price from available data."
           (cleaned, []))) as H2.
    pose proof (ViewFacts.apply_suggestion_length "local_tax_rate"
        (Views.tax_rate_percent sd)
        "Applied suggested local tax rate from available data."
        (Views.apply_suggestion "electricity_price_per_kwh"
           (Views.electricity_price_per_kwh sd)
           "Applied suggested local electricity price from available data."
           (Views.apply_suggestion "gas_price_per_liter"
              (Views.fuel_price_per_liter sd)
              "Applied suggested local fuel price from available data."
              (cleaned, [])))) as H3.
    cbn [snd length] in H1. lia.
  - unfold Views.suggested_input. cbv zeta.
    apply (ViewFacts.in_step_unchanged cleaned
             ["local_tax_rate"; "electricity_price_per_kwh";
              "gas_price_per_liter"]%string).
    apply (ViewFacts.in_step_apply cleaned
             ["electricity_price_per_kwh"; "gas_price_per_liter"]%string
             "local_tax_rate").
    2:{ intros Hin. rewrite !elem_of_cons in Hin.
        destruct Hin as [Hin|[Hin|Hin]]; try discriminate Hin.
        apply elem_of_nil in Hin. contradiction. }
    apply (ViewFacts.in_step_apply cleaned ["gas_price_per_liter"]%string
             "electricity_price_per_kwh").
    2:{ intros Hin. rewrite !elem_of_cons in Hin.
        destruct Hin as [Hin|Hin]; try discriminate Hin.
        apply elem_of_nil in Hin. contradiction. }
    apply (ViewFacts.in_step_apply cleaned [] "gas_price_per_liter").
    2:{ apply not_elem_of_nil. }
    left. split; reflexivity.
Qed.

Lemma suggestions_fill_empty_fields_only_witness :
  fst (Views.suggested_input
         (Views.mkSuggestedData None None None (Some (dec 8250 (-3))))
         (<["local_tax_rate"%string := VDec (dec 0 0)]> cash_form))
    !! "local_tax_rate"%string
  = Some (VDec (dec 8250 (-3))).
Proof.
  destruct (suggestions_fill_empty_fields_only
              (Views.mkSuggestedData None None None (Some (dec 8250 (-3))))
              (<["local_tax_rate"%string := VDec (dec 0 0)]> cash_form))
    as (_ & _ & H & _).
  apply H; [|reflexivity|reflexivity].
  cbn [Views.fuel_price_per_liter Views.electricity_price_per_kwh
       Views.tax_rate_percent].
  rewrite !elem_of_cons. right. right. left. reflexivity.
Defined.

(** X7: form_valid on a valid form does not fail. When the cleaned data
    passed the form validation (within the limits under which the engine
    raises nothing) and every suggestion at hand would itself pass the
    validation of the field it stands in for, the engine returns a result
    on the data form_valid hands to it; with no suggestion at all the
    result is that of the cleaned data and no message is flashed. *)
Theorem form_valid_returns sd cleaned :
  Forms.is_valid cleaned = true -> Limits.within_limits cleaned = true ->
  (forall p, Views.fuel_price_per_liter sd = Some p ->
             Forms.DecimalField 7 3 false (VDec p) = true) ->
  (forall p, Views.electricity_price_per_kwh sd = Some p ->
             Forms.DecimalField 7 4 false (VDec p) = true) ->
  (forall p, Views.tax_rate_percent sd = Some p ->
             Forms.DecimalField 6 3 false (VDec p) = true) ->
  (exists r, snd (Views.form_valid sd cleaned) = Ok r)
  /\ (Views.fuel_price_per_liter sd = None ->
      Views.electricity_price_per_kwh sd = None ->
      Views.tax_rate_percent sd = None ->
      Views.form_valid sd cleaned = ([], estimate_car_cost cleaned)).
Proof.
  intros Hv Hl Hfuel Helec Htax.
  assert (Hstep : forall k md dp suggestion message st,
    (k, (md, dp)) ∈ [("gas_price_per_liter"%string, (7, 3));
                     ("electricity_price_per_kwh"%string, (7, 4));
                     ("local_tax_rate"%string, (6, 3))] ->
    (forall p, suggestion = Some p ->
               Forms.DecimalField md dp false (VDec p) = true) ->
    Forms.is_valid (fst st) = true /\ Limits.within_limits (fst st) = true ->
    Forms.is_valid (fst (Views.apply_suggestion k suggestion message st)) = true
    /\ Limits.within_limits
         (fst (Views.apply_suggestion k suggestion message st)) = true).
  { intros k md dp suggestion message st Hk Hs [Hv' Hl'].
    unfold Views.apply_suggestion. destruct suggestion as [p|]; [|auto].
    destruct (_ && _); [|auto]. cbn [fst]. split.
    - apply (ViewFacts.is_valid_insert_suggestion _ k md dp);
        [assumption|assumption|apply Hs; reflexivity|discriminate].
    - apply ViewFacts.within_limits_insert_decimal. assumption. }
  split.
  - unfold Views.form_valid.
    destruct (Views.suggested_input sd cleaned) as [cleaned' messages] eqn:E.
    cbn [snd].
    assert (Hok : Forms.is_valid cleaned' = true
                  /\ Limits.within_limits cleaned' = true).
    { replace cleaned' with (fst (Views.suggested_input sd cleaned))
        by (rewrite E; reflexivity).
      unfold Views.suggested_input. cbv zeta.
      eapply Hstep; [rewrite !elem_of_cons; right; right; left; reflexivity
                    |exact Htax|].
      eapply Hstep; [rewrite !elem_of_cons; right; left; reflexivity
                    |exact Helec|].
      eapply Hstep; [rewrite !elem_of_cons; left; reflexivity|exact Hfuel|].
      cbn [fst]. auto. }
    destruct Hok as [Hv' Hl'].
    exact (Total.estimate_car_cost_total cleaned' Hv' Hl').
  - intros H1 H2 H3. unfold Views.form_valid, Views.suggested_input.
    rewrite H1, H2, H3. reflexivity.
Qed.

Lemma form_valid_returns_witness :
  exists r,
    snd (Views.form_valid
           (Views.mkSuggestedData (Some "USD"%string) (Some (dec 1899 (-3)))
              None (Some (dec 8250 (-3))))
           cash_form) = Ok r.
Proof.
  apply (form_valid_returns
           (Views.mkSuggestedData (Some "USD"%string) (Some (dec 1899 (-3)))
              None (Some (dec 8250 (-3))))
           cash_form).
  - vm_compute. reflexivity.
  - vm_compute. reflexivity.
  - intros p H. injection H as <-. vm_compute. reflexivity.
  - intros p H. discriminate H.
  - intros p H. injection H as <-. vm_compute. reflexivity.
Defined.

(** X8: what get_initial offers. Nothing inherited is overwritten or
    dropped. For this view, which inherits nothing, the initial data hold
    the country of the request, the suggested currency when it is a
    non-empty string, the suggested fuel and electricity prices when they
    are non-zero, a tax rate (the suggested one when it is non-zero, the
    int 0 otherwise), and no other key. *)
Theorem get_initial_offers country sd :
  (forall inherited, inherited ⊆ Views.get_initial country sd inherited)
  /\ (let initial := Views.get_initial country sd ∅ in
      initial !! "country_code"%string = Some (VStr country)
      /\ initial !! "currency_code"%string
         = match Views.currency_code sd with
           | Some c => if decide (c = EmptyString) then None else Some (VStr c)
           | None => None
           end
      /\ initial !! "gas_price_per_liter"%string
         = match Views.fuel_price_per_liter sd with
           | Some p => if truthy p then Some (VDec p) else None
           | None => None
           end
      /\ initial !! "electricity_price_per_kwh"%string
         = match Views.electricity_price_per_kwh sd with
           | Some p => if truthy p then Some (VDec p) else None
           | None => None
           end
      /\ initial !! "local_tax_rate"%string
         = Some match Views.tax_rate_percent sd with
                | Some p => if truthy p then VDec p else VInt 0
                | None => VInt 0
                end
      /\ forall k,
           k ∉ ["country_code"; "currency_code"; "gas_price_per_liter";
                "electricity_price_per_kwh"; "local_tax_rate"]%string ->
           initial !! k = None).
Proof.
  split.
  - intros inherited. unfold Views.get_initial. cbv zeta.
    repeat match goal with
    | |- _ ⊆ Views.setdefault ?d _ _ =>
        transitivity d; [|apply ViewFacts.setdefault_subseteq]
    | |- _ ⊆ match ?x with Some _ => _ | None => _ end => destruct x
    | |- _ ⊆ (if ?b then _ else _) => destruct b
    end; reflexivity.
  - cbv zeta. rewrite !ViewFacts.get_initial_lookup.
    split; [reflexivity|]. split; [reflexivity|]. split; [reflexivity|].
    split; [reflexivity|]. split; [reflexivity|].
    intros k Hk. rewrite !not_elem_of_cons in Hk.
    destruct Hk as (H1 & H2 & H3 & H4 & H5 & _).
    rewrite ViewFacts.get_initial_lookup.
    rewrite !decide_False by assumption. reflexivity.
Qed.

(** X9: the scheduler in the range of the form. On a principal of at
    most 12 integer digits, a non-negative rate below 1000 % with at most
    three decimal places and a term of at most 10^4 months it raises
    nothing: the power does not overflow and, the factor being above 1,
    nothing is divided by zero. Both results are non-negative, the
    payment at most 10^20 and the total at most 10^24, and they are
    either the zero pair of the guard or both in cents. *)
Theorem scheduler_in_range principal rate term :
  adjusted principal < 12 ->
  dsign rate = false -> adjusted rate < 3 -> -3 <= dexp rate ->
  term <= 10 ^ 4 ->
  exists s,
    _calculate_finance_schedule principal rate term = Ok s
    /\ dsign (monthly_payment s) = false /\ dsign (total_paid s) = false
    /\ (mag (monthly_payment s) <= IZR (10 ^ 20))%R
    /\ (mag (total_paid s) <= IZR (10 ^ 24))%R
    /\ (s = mkSchedule Py.D0 Py.D0
        \/ (dexp (monthly_payment s) = -2 /\ dexp (total_paid s) = -2)).
Proof.
  intros Hp Hs Hr He Hterm.
  destruct (Total.schedule_total principal rate term)
    as (s & Es & Htm & _ & Hmm & Hms & Hts); try assumption.
  - apply Total.adjusted_bound; [lia|assumption].
  - apply Total.adjusted_bound; [lia|assumption].
  - exists s. split; [assumption|]. split; [assumption|]. split; [assumption|].
    split; [assumption|]. split; [assumption|].
    exact (Sched.schedule_shape _ _ _ _ Es).
Qed.

Lemma scheduler_in_range_witness :
  exists s,
    _calculate_finance_schedule (dec 2000000 (-2)) (dec 4500 (-3)) 48 = Ok s
    /\ dsign (total_paid s) = false.
Proof.
  destruct (scheduler_in_range (dec 2000000 (-2)) (dec 4500 (-3)) 48)
    as (s & Es & _ & Hs & _); try (vm_compute; reflexivity).
  - vm_compute. discriminate.
  - vm_compute. discriminate.
  - exists s. split; assumption.
Defined.

(** X10: through the form the zero-rate branch of the scheduler is never
    taken. On a validated input with purchase type finance the term is an
    int of at least 1 and the rate is positive, and the monthly rate the
    scheduler derives from it, rate / 100 / 12, is not zero. *)
Theorem validated_finance_has_interest data :
  Forms.is_valid data = true ->
  Py.get data "purchase_type" = VStr "finance" ->
  exists rate term r1 monthly_rate,
    _safe_decimal (Py.get data "finance_interest_rate") = Ok rate
    /\ Py.get data "finance_term_months" = VInt term /\ 1 <= term
    /\ ltb (of_Z 0) rate = true
    /\ div rate Py.D100 = Ok r1 /\ div r1 Py.D12 = Ok monthly_rate
    /\ eqb monthly_rate (of_Z 0) = false.
Proof.
  intros Hv Hfin. unfold Forms.is_valid in Hv.
  apply andb_true_iff in Hv. destruct Hv as [Hf Hc].
  unfold Forms.clean_ok in Hc. cbv zeta in Hc. rewrite Hfin in Hc.
  destruct (decide (VStr "finance" = VStr "finance")); [|contradiction].
  apply andb_true_iff in Hc. destruct Hc as [Hc _].
  apply andb_true_iff in Hc. destruct Hc as [Hc _].
  apply andb_true_iff in Hc. destruct Hc as [Hrate Hterm].
  unfold Forms.present in Hrate, Hterm.
  apply negb_true_iff in Hrate, Hterm.
  Total.split_fields Hf.
  match goal with
  | H : Forms.DecimalField ?md ?dp ?r (Py.get data "finance_interest_rate") = true |- _ =>
      destruct (Total.field_safe_decimal md dp r _ ltac:(lia) H)
        as (rate & Er & Hs & He & Hm & Hnz)
  end.
  specialize (Hnz Hrate).
  match goal with
  | H : Forms.IntegerField 1 false (Py.get data "finance_term_months") = true |- _ =>
      destruct (Py.get data "finance_term_months") as [| |term|] eqn:Et;
        try discriminate H; [discriminate Hterm|apply Z.leb_le in H]
  end.
  destruct (Sched.monthly_rate_nonzero rate Hs Hnz ltac:(lia) Hm)
    as (r1 & mr & Hr1 & Hmr & Hz & _).
  exists rate, term, r1, mr.
  split; [assumption|]. split; [reflexivity|]. split; [assumption|].
  split; [|auto].
  apply Exact.ltb_val. rewrite Mag.val_of_Z, (Mag.val_pos rate Hs).
  apply Mag.mag_pos. assumption.
Qed.

Lemma validated_finance_has_interest_witness :
  exists rate monthly_rate r1,
    _safe_decimal (Py.get finance_form "finance_interest_rate") = Ok rate
    /\ div rate Py.D100 = Ok r1 /\ div r1 Py.D12 = Ok monthly_rate
    /\ eqb monthly_rate (of_Z 0) = false.
Proof.
  destruct (validated_finance_has_interest finance_form)
    as (rate & term & r1 & mr & H1 & _ & _ & _ & H2 & H3 & H4);
    [vm_compute; reflexivity|vm_compute; reflexivity|].
  exists rate, mr, r1. auto.
Defined.

End Extras.
